(** * termgl: the cell-grid renderer and the immediate-mode UI state machine

    A shallow embedding of [terminal/buffer.js], [terminal/terminal.js],
    [ui/utils.js], [ui/ui.js] and [ui/components/control.js], and the
    properties of the layered write, the diffing flush, the coordinate
    stacks, the bounded render loop, focus cycling and modal suppression.

    JavaScript numbers that the code uses as grid coordinates, colours,
    character codes and layers are integers here ([Z]); a [Uint32Array] is a
    [list Z] whose stores wrap modulo 2^32 and whose out-of-range stores are
    dropped (which is what stdpp's list insert does as well). *)

From Stdlib Require Import ZArith Lia.
From stdpp Require Import base tactics option list strings gmap.

Local Open Scope Z_scope.

(** ** JavaScript values the code relies on *)

(** [ToUint32]: what a store into a [Uint32Array] keeps of an integer. *)
Definition toUint32 (v : Z) : Z := v mod 2 ^ 32.

(** [ToInt32]: the result of [v | 0] on an integer. *)
Definition toInt32 (v : Z) : Z :=
  let u := toUint32 v in if decide (u < 2 ^ 31) then u else u - 2 ^ 32.

(** Truthiness of an optional numeric argument: [undefined] and [0] are
    falsy, every other integer is truthy. *)
Definition truthy (v : option Z) : bool :=
  match v with
  | Some n => bool_decide (n ≠ 0)
  | None => false
  end.

(** The [char] argument of [put] is a number or a string; a string is given
    by its UTF-16 code units. *)
Inductive charArg :=
  | CharCode (c : Z)
  | CharStr (units : list Z).

(** [typeof char === "string" ? char.charCodeAt(0) : char].  On the empty
    string [charCodeAt(0)] is [NaN], which a [Uint32Array] stores as 0. *)
Definition charCode (char : charArg) : Z :=
  match char with
  | CharCode c => c
  | CharStr (u :: _) => u
  | CharStr [] => 0
  end.

(** ** terminal/buffer.js *)

Module Buffer.

Record t := mk {
  width : Z;
  height : Z;
  chars : list Z;
  foreground : list Z;
  background : list Z;
  layers : list Z;
}.

(** [new Buffer(width, height)]: four zero-filled arrays. *)
Definition new (width height : Z) : t :=
  let n := Z.to_nat (width * height) in
  mk width height (replicate n 0) (replicate n 0) (replicate n 0) (replicate n 0).

(** The four arrays have [width * height] elements, each a 32-bit
    unsigned value; [new] establishes this and [put] and [clear] keep it. *)
Definition wf (b : t) : Prop :=
  0 ≤ width b ∧ 0 ≤ height b ∧
  length (chars b) = Z.to_nat (width b * height b) ∧
  length (foreground b) = Z.to_nat (width b * height b) ∧
  length (background b) = Z.to_nat (width b * height b) ∧
  length (layers b) = Z.to_nat (width b * height b).

Definition inBounds (b : t) (x y : Z) : bool :=
  bool_decide (0 ≤ x) && bool_decide (0 ≤ y) &&
  bool_decide (x < width b) && bool_decide (y < height b).

Definition index (b : t) (x y : Z) : nat := Z.to_nat (x + y * width b).

(** [layer >= this.layers[index]]; reading past the array gives
    [undefined] and the comparison is then false. *)
Definition layerWins (b : t) (i : nat) (layer : Z) : bool :=
  match layers b !! i with
  | Some stored => bool_decide (stored ≤ layer)
  | None => false
  end.

(** [put(x, y, char, fg, bg, layer = 0)]. *)
Definition put (b : t) (x y : Z) (char : charArg) (fg : Z)
    (bg : option Z) (layer : option Z) : t :=
  let layer := default 0 layer in
  let index := index b x y in
  let code := charCode char in
  if inBounds b x y then
    if layerWins b index layer then
      mk (width b) (height b)
         (<[index := toUint32 code]> (chars b))
         (<[index := toUint32 fg]> (foreground b))
         (if truthy bg then <[index := toUint32 (default 0 bg)]> (background b)
          else background b)
         (<[index := toUint32 layer]> (layers b))
    else b
  else b.

(** [clear()]: every array is filled with 0. *)
Definition clear (b : t) : t :=
  mk (width b) (height b)
     (replicate (length (chars b)) 0)
     (replicate (length (foreground b)) 0)
     (replicate (length (background b)) 0)
     (replicate (length (layers b)) 0).

(** The content of one cell, as the four arrays hold it. *)
Record cell := Cell { char : Z; fg : Z; bg : Z; layer : Z }.

Definition cellAt (b : t) (x y : Z) : option cell :=
  let i := index b x y in
  c ← chars b !! i; f ← foreground b !! i;
  g ← background b !! i; l ← layers b !! i;
  Some (Cell c f g l).

(** [array[i]] for an integer [i]: [undefined] outside the array. *)
Definition readAt (array : list Z) (i : Z) : option Z :=
  if decide (0 ≤ i) then array !! Z.to_nat i else None.

(** The body of the loops of [blit] at offset [(i, j)], for a source
    buffer that is another object than the target.  Past the end of the
    source the layer read is [undefined]; [undefined + layer] is [NaN],
    so the comparison in [put] fails and nothing is written.  A character
    or foreground read as [undefined] would be stored as 0. *)
Definition blitCell (buffer : t) (x y layer : Z) (i : Z) (b : t) (j : Z) : t :=
  let index := i + j * width buffer in
  match readAt (layers buffer) index with
  | None => b
  | Some l =>
      put b (x + i) (y + j)
        (CharCode (default 0 (readAt (chars buffer) index)))
        (default 0 (readAt (foreground buffer) index))
        (readAt (background buffer) index)
        (Some (l + layer))
  end.

(** [blit(buffer, x = 0, y = 0, w = buffer.width, h = buffer.height,
    layer = 0)]: columns in the outer loop, rows in the inner one. *)
Definition blit (b : t) (buffer : t) (x y w h layer : option Z) : t :=
  let x := default 0 x in
  let y := default 0 y in
  let w := default (width buffer) w in
  let h := default (height buffer) h in
  let layer := default 0 layer in
  foldl (λ b i, foldl (blitCell buffer x y layer i) b (seqZ 0 h)) b (seqZ 0 w).

(** Every entry of the four arrays is a 32-bit unsigned value, as the
    entries of a [Uint32Array] are. *)
Definition inRange (b : t) : Prop :=
  Forall (λ v, 0 ≤ v < 2 ^ 32) (chars b) ∧
  Forall (λ v, 0 ≤ v < 2 ^ 32) (foreground b) ∧
  Forall (λ v, 0 ≤ v < 2 ^ 32) (background b) ∧
  Forall (λ v, 0 ≤ v < 2 ^ 32) (layers b).

(** The offsets [(i, j)] that the loops of [blit] visit, in their order. *)
Definition offsets (w h : Z) : list (Z * Z) :=
  i ← seqZ 0 w; pair i <$> seqZ 0 h.

End Buffer.

(** ** terminal/font.js *)

Module Font.

(** The fields of a font that the renderer reads.  The constructor never
    sets [mapping], so for a [Font] built by it the field is [undefined]
    ([None]); a host may attach a code-to-glyph table. *)
Record t := mk {
  columns : Z;
  rows : Z;
  graphical : bool;
  transparentColor : Z;
  mapping : option (gmap Z Z);
}.

(** [Font.default]: a 16 x 16 atlas. *)
Definition default : t := mk 16 16 false 0 None.

End Font.

(** ** terminal/terminal.js *)

Module Terminal.

(** What one flush hands to WebGL: the number of vertices and the used
    prefixes ([subarray(0, ...)]) of the four vertex attribute arrays.
    Coordinates are kept as exact integers (the rounding of a
    [Float32Array] store is not modelled); colours are bytes. *)
Record Batch := mkBatch {
  vertexCount : Z;
  vertexCoords : list Z;
  textureCoords : list Z;
  foregroundColors : list Z;
  backgroundColors : list Z;
}.

(** The calls on the WebGL context that a flush makes: the four
    [bufferData] uploads (one entry) and [drawArrays]. *)
Inductive glCall :=
  | BufferData (b : Batch)
  | DrawArrays (count : Z).

Record t := mk {
  width : Z;
  height : Z;
  font : option Font.t;
  frontBuffer : Buffer.t;
  backBuffer : Buffer.t;
  gl : list glCall;
}.

(** The constructor: two buffers of the terminal's size. *)
Definition new (width height : Z) (font : option Font.t) : t :=
  mk width height font (Buffer.new width height) (Buffer.new width height) [].

(** Both buffers are well formed and have the terminal's size. *)
Definition wf (t : t) : Prop :=
  Buffer.wf (frontBuffer t) ∧ Buffer.wf (backBuffer t) ∧
  Buffer.width (frontBuffer t) = width t ∧ Buffer.height (frontBuffer t) = height t ∧
  Buffer.width (backBuffer t) = width t ∧ Buffer.height (backBuffer t) = height t.

(** [put(x, y, char, fg, bg, layer = 0)] writes to the back buffer. *)
Definition put (t : t) (x y : Z) (char : charArg) (fg : Z)
    (bg : option Z) (layer : option Z) : Terminal.t :=
  mk (width t) (height t) (font t) (frontBuffer t)
     (Buffer.put (backBuffer t) x y char fg bg (Some (default 0 layer)))
     (gl t).

(** The two triangles of the unit square at [(x, y)]: six vertices. *)
Definition quad (x y : Z) : list Z :=
  [x; y; x; y + 1; x + 1; y + 1; x; y; x + 1; y + 1; x + 1; y].

(** [DataView.setUint32(offset, v)]: four bytes, big-endian. *)
Definition uint32Bytes (v : Z) : list Z :=
  let v := toUint32 v in
  [Z.land (Z.shiftr v 24) 255; Z.land (Z.shiftr v 16) 255;
   Z.land (Z.shiftr v 8) 255; Z.land v 255].

(** The loop [for (let i = 0; i < 6; i++)] that replicates a colour. *)
Definition sixTimes (bytes : list Z) : list Z :=
  bytes ++ bytes ++ bytes ++ bytes ++ bytes ++ bytes.

(** The comparison that makes the loop [continue]: the three content
    arrays agree at [i]. *)
Definition unchanged (front back : Buffer.t) (i : nat) : bool :=
  bool_decide (Buffer.chars back !! i = Buffer.chars front !! i) &&
  bool_decide (Buffer.foreground back !! i = Buffer.foreground front !! i) &&
  bool_decide (Buffer.background back !! i = Buffer.background front !! i).

(** [if (font.mapping && char in font.mapping) char = font.mapping[char]]. *)
Definition glyph (f : Font.t) (char : Z) : Z :=
  match Font.mapping f with
  | Some m => default char (m !! char)
  | None => char
  end.

(** The body of the inner loop at cell [(x, y)].  [%] is [Z.rem] and
    [/ ... | 0] is the truncated quotient taken to 32 bits; the atlas has a
    non-zero number of columns. *)
Definition renderCell (t : t) (f : Font.t) (x y : Z) (acc : Batch) : Batch :=
  let i := Z.to_nat (x + y * width t) in
  if unchanged (frontBuffer t) (backBuffer t) i then acc
  else
    let char := glyph f (default 0 (Buffer.chars (backBuffer t) !! i)) in
    let fg := default 0 (Buffer.foreground (backBuffer t) !! i) in
    let bg := default 0 (Buffer.background (backBuffer t) !! i) in
    let textureX := Z.rem char (Font.columns f) in
    let textureY := toInt32 (Z.quot char (Font.columns f)) in
    mkBatch (vertexCount acc + 6)
            (vertexCoords acc ++ quad x y)
            (textureCoords acc ++ quad textureX textureY)
            (foregroundColors acc ++ sixTimes (uint32Bytes fg))
            (backgroundColors acc ++ sixTimes (uint32Bytes bg)).

(** [for (let y = 0; y < this.height; y++)]. *)
Definition renderColumn (t : t) (f : Font.t) (acc : Batch) (x : Z) : Batch :=
  foldl (λ acc y, renderCell t f x y acc) acc (seqZ 0 (height t)).

(** [for (let x = 0; x < this.width; x++)], from the empty batch. *)
Definition buildBatch (t : t) (f : Font.t) : Batch :=
  foldl (renderColumn t f) (mkBatch 0 [] [] [] []) (seqZ 0 (width t)).

(** [render()]: nothing happens without a font; otherwise the batch is
    built and uploaded, drawn when it is not empty, and the buffers are
    swapped, the new back buffer being cleared. *)
Definition render (t : t) : Terminal.t :=
  match font t with
  | None => t
  | Some f =>
      let batch := buildBatch t f in
      mk (width t) (height t) (font t)
         (backBuffer t)
         (Buffer.clear (frontBuffer t))
         (gl t ++ [BufferData batch] ++
          (if bool_decide (0 < vertexCount batch)
           then [DrawArrays (vertexCount batch)] else []))
  end.

(** The (char, foreground, background) triple a buffer holds at a linear
    index. *)
Definition content (b : Buffer.t) (i : nat) : option Z * option Z * option Z :=
  (Buffer.chars b !! i, Buffer.foreground b !! i, Buffer.background b !! i).

(** The number of cells, by linear index, whose triple differs between
    the back and the front buffer. *)
Definition changedCells (t : t) : nat :=
  length (filter (λ i, content (backBuffer t) i ≠ content (frontBuffer t) i)
                 (seq 0 (Z.to_nat (width t * height t)))).

(** 1 for a cell that differs between the buffers, 0 otherwise. *)
Definition differs (t : t) (i : nat) : nat :=
  if unchanged (frontBuffer t) (backBuffer t) i then 0%nat else 1%nat.

(** Each vertex of a batch carries two coordinates, two texture
    coordinates and two four-byte colours. *)
Definition wellShaped (b : Batch) : Prop :=
  Z.of_nat (length (vertexCoords b)) = 2 * vertexCount b ∧
  Z.of_nat (length (textureCoords b)) = 2 * vertexCount b ∧
  Z.of_nat (length (foregroundColors b)) = 4 * vertexCount b ∧
  Z.of_nat (length (backgroundColors b)) = 4 * vertexCount b.

(** The [Terminal] class declares [put], [blit], [render], [setFont] and
    the coordinate conversions, and no [clearDrawingBuffer]: looking that
    property up on a terminal gives [undefined]. *)
Definition clearDrawingBuffer : option (t → t) := None.

(** [blit(buffer, x, y, w, h, layer)] copies into the back buffer. *)
Definition blit (t : t) (buffer : Buffer.t) (x y w h layer : option Z) : Terminal.t :=
  mk (width t) (height t) (font t) (frontBuffer t)
     (Buffer.blit (backBuffer t) buffer x y w h layer)
     (gl t).

(** The number of cells of a buffer, by linear index, that hold a
    character or a colour other than 0. *)
Definition nonBlankCells (b : Buffer.t) : nat :=
  length (filter (λ i, content b i ≠ (Some 0, Some 0, Some 0))
                 (seq 0 (Z.to_nat (Buffer.width b * Buffer.height b)))).

End Terminal.

(** ** ui/utils.js *)

Module Rect.

(** [Geometry.Rect]. *)
Record t := mk { x : Z; y : Z; width : Z; height : Z }.

End Rect.

(** [isPointInside(x, y, x0, y0, x1, y1)]: both ends inclusive. *)
Definition isPointInside (x y x0 y0 x1 y1 : Z) : bool :=
  bool_decide (x0 ≤ x) && bool_decide (y0 ≤ y) &&
  bool_decide (x ≤ x1) && bool_decide (y ≤ y1).

(** [isPointInRect(x, y, rect)]: the far edges are excluded. *)
Definition isPointInRect (x y : Z) (rect : Rect.t) : bool :=
  bool_decide (Rect.x rect ≤ x) && bool_decide (Rect.y rect ≤ y) &&
  bool_decide (x < Rect.x rect + Rect.width rect) &&
  bool_decide (y < Rect.y rect + Rect.height rect).

(** ** Identifiers and events *)

(** Control ids, and the values of [focus], [hover] and [active]: [null],
    [undefined] or a string. *)
Inductive jsval :=
  | Null
  | Undefined
  | Str (s : string).

#[global] Instance jsval_eq_dec : EqDecision jsval.
Proof. solve_decision. Defined.

(** [v == null]. *)
Definition isNullish (v : jsval) : bool :=
  match v with
  | Null | Undefined => true
  | Str _ => false
  end.

(** How [Array.prototype.join] prints an element: [null] and [undefined]
    give the empty string. *)
Definition toJoinString (v : jsval) : string :=
  match v with
  | Str s => s
  | Null | Undefined => ""
  end.

(** [array.join(sep)]. *)
Fixpoint join (sep : string) (l : list jsval) : string :=
  match l with
  | [] => ""
  | [v] => toJoinString v
  | v :: rest => toJoinString v +:+ sep +:+ join sep rest
  end.

(** [array.indexOf(v)]: the first index holding [v], or -1. *)
Fixpoint indexOf (l : list jsval) (v : jsval) : Z :=
  match l with
  | [] => -1
  | w :: rest =>
      if decide (w = v) then 0
      else let i := indexOf rest v in if decide (i = -1) then -1 else i + 1
  end.

(** [array[i]] for an integer [i]: [undefined] outside the array. *)
Definition at_ (l : list jsval) (i : Z) : jsval :=
  if decide (0 ≤ i) then default Undefined (l !! Z.to_nat i) else Undefined.

(** The DOM events the UI distinguishes with [instanceof] and [type]. *)
Inductive Event :=
  | MouseEvent (type : string) (button : Z)
  | KeyboardEvent (type : string) (key : string) (shiftKey : bool)
  | OtherEvent (type : string).

(** [event instanceof MouseEvent && event.type === type]. *)
Definition isMouseEvent (type : string) (e : Event) : bool :=
  match e with
  | MouseEvent t _ => bool_decide (t = type)
  | _ => false
  end.

(** [event instanceof KeyboardEvent && event.type === type]. *)
Definition isKeyboardEvent (type : string) (e : Event) : bool :=
  match e with
  | KeyboardEvent t _ _ => bool_decide (t = type)
  | _ => false
  end.

(** [event.key === key], on a keyboard event. *)
Definition hasKey (key : string) (e : Event) : bool :=
  match e with
  | KeyboardEvent _ k _ => bool_decide (k = key)
  | _ => false
  end.

(** ** Widget code

    Screens' render hooks, control callbacks and after-render callbacks
    are host code.  They are represented as programs over the methods of
    the UI that draw, move the stacks, invalidate, queue callbacks and move
    the focus, and over the two primitives [Control] and [View]; [If]
    branches on one of the UI's queries.  Programs do not push or pop
    screens, use the key-value store or assign the UI's fields
    themselves. *)

Module Props.

(** The properties object of [Control]; an absent property is [None]. *)
Record t := mk {
  id : jsval;
  x : option Z;
  y : option Z;
  width : option Z;
  height : option Z;
  disabled : option bool;
}.

End Props.

(** The queries a program can branch on. *)
Inductive Cond :=
  | IsActive
  | IsHovered
  | IsFocused
  | IsMouseOver (x y width height : option Z)
  | IsCellVisible (x y : Z).

(** Programs: one constructor for each method, [ControlW] and [ViewW]
    for the primitives with their callback. *)
Inductive Widget :=
  | Skip
  | Seq (first second : Widget)
  | If (c : Cond) (thenW elseW : Widget)
  | PushBoundingBox (x y width height : Z)
  | PopBoundingBox
  | PushClipRect (x y width height : Z)
  | PopClipRect
  | PushId (id : jsval)
  | PopId
  | Put (x y : Z) (char : charArg) (fg : Z) (bg layer : option Z)
  | Invalidate
  | AddFocusableControl (id : jsval)
  | FocusNextControl
  | FocusPreviousControl
  | StopEventPropagation
  | AddAfterRenderCallback (callback : Widget)
  | ControlW (props : Props.t) (callback : Widget)
  | ViewW (x y width height : option Z) (callback : Widget).

(** ** ui/screen.js *)

Module Screen.

(** A screen: its render hook and its two flags ([enter] and [exit] run
    when a screen is pushed or popped, not during a render). *)
Record t := mk {
  render : Widget;
  isModal : bool;
  isOpaque : bool;
}.

End Screen.

(** ** ui/ui.js *)

Module Mouse.

(** [ui.mouse]: the cell under the pointer. *)
Record t := mk { x : Z; y : Z }.

End Mouse.

(** What a render leaves outside the UI object: console output and the
    call that flushes the terminal. *)
Inductive Effect :=
  | ConsoleWarn (msg : string)
  | ConsoleLog (stack : list Rect.t)
  | TerminalRender.

(** Thrown values. *)
Inductive Error :=
  | JsError (msg : string)
  | TypeError (msg : string).

Module UI.

(** [MAX_RENDERS_PER_FRAME]. *)
Definition MAX_RENDERS_PER_FRAME : nat := 10.

(** The state of a [UI] object (the theme, the key-value store, the key
    and button sets and the event listeners play no part below), with the
    effects it has produced so far.  Arrays used as stacks grow at the
    end, as [push] and [pop] do. *)
Record t := mk {
  terminal : Terminal.t;
  screens : list Screen.t;
  boundingBoxStack : list Rect.t;
  box : option Rect.t;
  clipRectStack : list Rect.t;
  clip : option Rect.t;
  idStack : list jsval;
  currentId : jsval;
  isModal : bool;
  event : option Event;
  focusableControlIds : list jsval;
  focus : jsval;
  hover : jsval;
  active : jsval;
  mouse : Mouse.t;
  invalidated : bool;
  afterRenderCallbacks : list Widget;
  trace : list Effect;
}.

(** Field updates ([this.f = v]). *)
Definition set_terminal (v : Terminal.t) (ui : t) : t :=
  mk v (screens ui) (boundingBoxStack ui) (box ui) (clipRectStack ui)
     (clip ui) (idStack ui) (currentId ui) (isModal ui) (event ui)
     (focusableControlIds ui) (focus ui) (hover ui) (active ui) (mouse ui)
     (invalidated ui) (afterRenderCallbacks ui) (trace ui).
Definition set_screens (v : list Screen.t) (ui : t) : t :=
  mk (terminal ui) v (boundingBoxStack ui) (box ui) (clipRectStack ui)
     (clip ui) (idStack ui) (currentId ui) (isModal ui) (event ui)
     (focusableControlIds ui) (focus ui) (hover ui) (active ui) (mouse ui)
     (invalidated ui) (afterRenderCallbacks ui) (trace ui).
Definition set_boundingBoxStack (v : list Rect.t) (ui : t) : t :=
  mk (terminal ui) (screens ui) v (box ui) (clipRectStack ui) (clip ui)
     (idStack ui) (currentId ui) (isModal ui) (event ui)
     (focusableControlIds ui) (focus ui) (hover ui) (active ui) (mouse ui)
     (invalidated ui) (afterRenderCallbacks ui) (trace ui).
Definition set_box (v : option Rect.t) (ui : t) : t :=
  mk (terminal ui) (screens ui) (boundingBoxStack ui) v (clipRectStack ui)
     (clip ui) (idStack ui) (currentId ui) (isModal ui) (event ui)
     (focusableControlIds ui) (focus ui) (hover ui) (active ui) (mouse ui)
     (invalidated ui) (afterRenderCallbacks ui) (trace ui).
Definition set_clipRectStack (v : list Rect.t) (ui : t) : t :=
  mk (terminal ui) (screens ui) (boundingBoxStack ui) (box ui) v (clip ui)
     (idStack ui) (currentId ui) (isModal ui) (event ui)
     (focusableControlIds ui) (focus ui) (hover ui) (active ui) (mouse ui)
     (invalidated ui) (afterRenderCallbacks ui) (trace ui).
Definition set_clip (v : option Rect.t) (ui : t) : t :=
  mk (terminal ui) (screens ui) (boundingBoxStack ui) (box ui)
     (clipRectStack ui) v (idStack ui) (currentId ui) (isModal ui)
     (event ui) (focusableControlIds ui) (focus ui) (hover ui) (active ui)
     (mouse ui) (invalidated ui) (afterRenderCallbacks ui) (trace ui).
Definition set_idStack (v : list jsval) (ui : t) : t :=
  mk (terminal ui) (screens ui) (boundingBoxStack ui) (box ui)
     (clipRectStack ui) (clip ui) v (currentId ui) (isModal ui) (event ui)
     (focusableControlIds ui) (focus ui) (hover ui) (active ui) (mouse ui)
     (invalidated ui) (afterRenderCallbacks ui) (trace ui).
Definition set_currentId (v : jsval) (ui : t) : t :=
  mk (terminal ui) (screens ui) (boundingBoxStack ui) (box ui)
     (clipRectStack ui) (clip ui) (idStack ui) v (isModal ui) (event ui)
     (focusableControlIds ui) (focus ui) (hover ui) (active ui) (mouse ui)
     (invalidated ui) (afterRenderCallbacks ui) (trace ui).
Definition set_isModal (v : bool) (ui : t) : t :=
  mk (terminal ui) (screens ui) (boundingBoxStack ui) (box ui)
     (clipRectStack ui) (clip ui) (idStack ui) (currentId ui) v (event ui)
     (focusableControlIds ui) (focus ui) (hover ui) (active ui) (mouse ui)
     (invalidated ui) (afterRenderCallbacks ui) (trace ui).
Definition set_event (v : option Event) (ui : t) : t :=
  mk (terminal ui) (screens ui) (boundingBoxStack ui) (box ui)
     (clipRectStack ui) (clip ui) (idStack ui) (currentId ui) (isModal ui) v
     (focusableControlIds ui) (focus ui) (hover ui) (active ui) (mouse ui)
     (invalidated ui) (afterRenderCallbacks ui) (trace ui).
Definition set_focusableControlIds (v : list jsval) (ui : t) : t :=
  mk (terminal ui) (screens ui) (boundingBoxStack ui) (box ui)
     (clipRectStack ui) (clip ui) (idStack ui) (currentId ui) (isModal ui)
     (event ui) v (focus ui) (hover ui) (active ui) (mouse ui)
     (invalidated ui) (afterRenderCallbacks ui) (trace ui).
Definition set_focus (v : jsval) (ui : t) : t :=
  mk (terminal ui) (screens ui) (boundingBoxStack ui) (box ui)
     (clipRectStack ui) (clip ui) (idStack ui) (currentId ui) (isModal ui)
     (event ui) (focusableControlIds ui) v (hover ui) (active ui) (mouse ui)
     (invalidated ui) (afterRenderCallbacks ui) (trace ui).
Definition set_hover (v : jsval) (ui : t) : t :=
  mk (terminal ui) (screens ui) (boundingBoxStack ui) (box ui)
     (clipRectStack ui) (clip ui) (idStack ui) (currentId ui) (isModal ui)
     (event ui) (focusableControlIds ui) (focus ui) v (active ui) (mouse ui)
     (invalidated ui) (afterRenderCallbacks ui) (trace ui).
Definition set_active (v : jsval) (ui : t) : t :=
  mk (terminal ui) (screens ui) (boundingBoxStack ui) (box ui)
     (clipRectStack ui) (clip ui) (idStack ui) (currentId ui) (isModal ui)
     (event ui) (focusableControlIds ui) (focus ui) (hover ui) v (mouse ui)
     (invalidated ui) (afterRenderCallbacks ui) (trace ui).
Definition set_mouse (v : Mouse.t) (ui : t) : t :=
  mk (terminal ui) (screens ui) (boundingBoxStack ui) (box ui)
     (clipRectStack ui) (clip ui) (idStack ui) (currentId ui) (isModal ui)
     (event ui) (focusableControlIds ui) (focus ui) (hover ui) (active ui) v
     (invalidated ui) (afterRenderCallbacks ui) (trace ui).
Definition set_invalidated (v : bool) (ui : t) : t :=
  mk (terminal ui) (screens ui) (boundingBoxStack ui) (box ui)
     (clipRectStack ui) (clip ui) (idStack ui) (currentId ui) (isModal ui)
     (event ui) (focusableControlIds ui) (focus ui) (hover ui) (active ui)
     (mouse ui) v (afterRenderCallbacks ui) (trace ui).
Definition set_afterRenderCallbacks (v : list Widget) (ui : t) : t :=
  mk (terminal ui) (screens ui) (boundingBoxStack ui) (box ui)
     (clipRectStack ui) (clip ui) (idStack ui) (currentId ui) (isModal ui)
     (event ui) (focusableControlIds ui) (focus ui) (hover ui) (active ui)
     (mouse ui) (invalidated ui) v (trace ui).
Definition set_trace (v : list Effect) (ui : t) : t :=
  mk (terminal ui) (screens ui) (boundingBoxStack ui) (box ui)
     (clipRectStack ui) (clip ui) (idStack ui) (currentId ui) (isModal ui)
     (event ui) (focusableControlIds ui) (focus ui) (hover ui) (active ui)
     (mouse ui) (invalidated ui) (afterRenderCallbacks ui) v.

(** *** A state and exception monad for the UI's methods *)

(** A call returns normally with a value, or throws; either way the
    mutations made so far stay in the UI object. *)
Inductive Res (A : Type) :=
  | Ok (a : A) (ui : t)
  | Throw (e : Error) (ui : t).

Arguments Ok {A} a ui.
Arguments Throw {A} e ui.

Definition M (A : Type) : Type := t → Res A.

Definition stateOf {A} (r : Res A) : t :=
  match r with
  | Ok _ ui => ui
  | Throw _ ui => ui
  end.

Definition isOk {A} (r : Res A) : bool :=
  match r with
  | Ok _ _ => true
  | Throw _ _ => false
  end.

#[global] Instance M_ret : MRet M := λ A a ui, Ok a ui.

#[global] Instance M_bind : MBind M := λ A B f m ui,
  match m ui with
  | Ok a ui' => f a ui'
  | Throw e ui' => Throw e ui'
  end.

Definition throw {A} (e : Error) : M A := λ ui, Throw e ui.

Definition modify (f : t → t) : M unit := λ ui, Ok () (f ui).

Definition gets {A} (f : t → A) : M A := λ ui, Ok (f ui) ui.

(** Reading a property of [this.box] when there is no current box. *)
Definition noBox : Error :=
  TypeError "Cannot read properties of undefined (reading a field of this.box)".

(** *** Methods *)

Definition addFocusableControl (id : jsval) : M unit :=
  modify (λ ui, set_focusableControlIds (focusableControlIds ui ++ [id]) ui).

Definition focusNextControl : M unit :=
  modify (λ ui,
    let index := indexOf (focusableControlIds ui) (focus ui) in
    let end_ := Z.of_nat (length (focusableControlIds ui)) - 1 in
    let newIndex := if decide (index = end_) then 0 else index + 1 in
    set_focus (at_ (focusableControlIds ui) newIndex) ui).

(** [(index ? index : end) - 1]: index 0 is falsy. *)
Definition focusPreviousControl : M unit :=
  modify (λ ui,
    let index := indexOf (focusableControlIds ui) (focus ui) in
    let end_ := Z.of_nat (length (focusableControlIds ui)) in
    let newIndex := (if decide (index = 0) then end_ else index) - 1 in
    set_focus (at_ (focusableControlIds ui) newIndex) ui).

Definition pushId (id : jsval) : M unit :=
  modify (λ ui,
    let stack := idStack ui ++ [id] in
    set_currentId (Str (join "/" stack)) (set_idStack stack ui)).

Definition popId : M unit :=
  modify (λ ui,
    let stack := removelast (idStack ui) in
    set_currentId (Str (join "/" stack)) (set_idStack stack ui)).

Definition getId : M jsval := gets currentId.

(** The rectangle placed relative to the current box, when there is one. *)
Definition relativeTo (box : option Rect.t) (x y width height : Z) : Rect.t :=
  match box with
  | Some b => Rect.mk (x + Rect.x b) (y + Rect.y b) width height
  | None => Rect.mk x y width height
  end.

Definition pushBoundingBox (x y width height : Z) : M unit :=
  modify (λ ui,
    let box := relativeTo (box ui) x y width height in
    set_box (Some box) (set_boundingBoxStack (boundingBoxStack ui ++ [box]) ui)).

Definition popBoundingBox : M unit := λ ui,
  if bool_decide (0 < length (boundingBoxStack ui))%nat then
    let stack := removelast (boundingBoxStack ui) in
    Ok () (set_box (last stack) (set_boundingBoxStack stack ui))
  else Throw (JsError "Cannot pop the root bounding box!") ui.

Definition pushClipRect (x y width height : Z) : M unit :=
  modify (λ ui,
    let rect := relativeTo (box ui) x y width height in
    set_clip (Some rect) (set_clipRectStack (clipRectStack ui ++ [rect]) ui)).

Definition popClipRect : M unit :=
  modify (λ ui,
    let stack := removelast (clipRectStack ui) in
    set_clip (last stack) (set_clipRectStack stack ui)).

Definition stopEventPropagation : M unit := modify (set_event None).

(** [put]: relative to the current box, dropped outside any clip rect. *)
Definition put (x y : Z) (char : charArg) (fg : Z) (bg layer : option Z) : M unit :=
  λ ui,
  match box ui with
  | None => Throw noBox ui
  | Some b =>
      let x := Rect.x b + x in
      let y := Rect.y b + y in
      if forallb (isPointInRect x y) (clipRectStack ui) then
        Ok () (set_terminal (Terminal.put (terminal ui) x y char fg bg layer) ui)
      else Ok () ui
  end.

Definition isCellVisible (ui : t) (x y : Z) : bool :=
  match clip ui with
  | Some rect => isPointInRect x y rect
  | None => true
  end.

Definition isActive (ui : t) : bool := bool_decide (currentId ui = active ui).

Definition isHovered (ui : t) : bool := bool_decide (currentId ui = hover ui).

Definition isFocused (ui : t) : bool := bool_decide (currentId ui = focus ui).

(** [isMouseOver(x = 0, y = 0, width = this.box.width, height =
    this.box.height)]. *)
Definition isMouseOver (x y width height : option Z) : M bool := λ ui,
  match box ui with
  | None => Throw noBox ui
  | Some b =>
      let x0 := Rect.x b + default 0 x in
      let y0 := Rect.y b + default 0 y in
      let x1 := x0 + default (Rect.width b) width - 1 in
      let y1 := y0 + default (Rect.height b) height - 1 in
      Ok (isPointInside (Mouse.x (mouse ui)) (Mouse.y (mouse ui)) x0 y0 x1 y1) ui
  end.

Definition invalidate : M unit := modify (set_invalidated true).

Definition addAfterRenderCallback (callback : Widget) : M unit :=
  modify (λ ui, set_afterRenderCallbacks (afterRenderCallbacks ui ++ [callback]) ui).

(** A default parameter that reads the current box ([ui.box.width]). *)
Definition orBox (given : option Z) (dflt : Rect.t → Z) : M Z := λ ui,
  match given, box ui with
  | Some v, _ => Ok v ui
  | None, Some b => Ok (dflt b) ui
  | None, None => Throw noBox ui
  end.

(** *** ui/components/control.js *)

(** The hover rule: claim hover when the pointer is over the control's
    rectangle and the cell is visible, release it when this control held
    it. *)
Definition resolveHover (id : jsval) (width height : Z) : M unit :=
  over ← isMouseOver (Some 0) (Some 0) (Some width) (Some height);
  visible ← gets (λ ui, isCellVisible ui (Mouse.x (mouse ui)) (Mouse.y (mouse ui)));
  if over && visible then modify (set_hover id)
  else modify (λ ui, if decide (hover ui = id) then set_hover Null ui else ui).

(** The four [if] statements under [if (event)], in order. *)
Definition handleEvent (id : jsval) (event : Event) (ui : t) : t :=
  let ui :=
    if bool_decide (hover ui = id) && isMouseEvent "mousedown" event
    then set_focus id (set_active id ui) else ui in
  let ui :=
    if (bool_decide (active ui = id) && isMouseEvent "mouseup" event)
       || (bool_decide (active ui = id) && isKeyboardEvent "keyup" event
           && hasKey "Enter" event)
    then set_active Null ui else ui in
  let ui :=
    if bool_decide (focus ui = id) && isKeyboardEvent "keydown" event
    then (if hasKey "Enter" event then set_active id ui else ui) else ui in
  let ui :=
    if bool_decide (active ui = id) && isKeyboardEvent "keyup" event
    then (if hasKey "Enter" event then set_active id ui else ui) else ui in
  ui.

(** The block guarded by [!disabled && !ui.isModal]. *)
Definition interact (id : jsval) (width height : Z) : M unit :=
  event ← gets event;
  addFocusableControl id;;
  resolveHover id width height;;
  match event with
  | Some e => modify (handleEvent id e)
  | None => mret ()
  end.

(** [Control({ id, x, y, width, height, disabled }, callback)]. *)
Definition Control (props : Props.t) (callback : M unit) : M unit :=
  let x := default 0 (Props.x props) in
  let y := default 0 (Props.y props) in
  width ← orBox (Props.width props) Rect.width;
  height ← orBox (Props.height props) Rect.height;
  let disabled := default false (Props.disabled props) in
  pushId (Props.id props);;
  pushBoundingBox x y width height;;
  if isNullish (Props.id props) then throw (JsError "Control must have an id!")
  else
    id ← getId;
    modal ← gets isModal;
    (if negb disabled && negb modal then interact id width height else mret ());;
    callback;;
    popBoundingBox;;
    popId.

(** *** ui/components/view.js *)

(** [View({ x, y, width, height }, callback)]. *)
Definition View (x y width height : option Z) (callback : M unit) : M unit :=
  let x := default 0 x in
  let y := default 0 y in
  width ← orBox width (λ b, Rect.width b - x);
  height ← orBox height (λ b, Rect.height b - y);
  pushBoundingBox x y width height;;
  callback;;
  popBoundingBox.

(** *** Running widget code *)

Definition evalCond (c : Cond) : M bool :=
  match c with
  | IsActive => gets isActive
  | IsHovered => gets isHovered
  | IsFocused => gets isFocused
  | IsMouseOver x y width height => isMouseOver x y width height
  | IsCellVisible x y => gets (λ ui, isCellVisible ui x y)
  end.

Fixpoint exec (w : Widget) : M unit :=
  match w with
  | Skip => mret ()
  | Seq first second => exec first;; exec second
  | If c thenW elseW => b ← evalCond c; if b : bool then exec thenW else exec elseW
  | PushBoundingBox x y width height => pushBoundingBox x y width height
  | PopBoundingBox => popBoundingBox
  | PushClipRect x y width height => pushClipRect x y width height
  | PopClipRect => popClipRect
  | PushId id => pushId id
  | PopId => popId
  | Put x y char fg bg layer => put x y char fg bg layer
  | Invalidate => invalidate
  | AddFocusableControl id => addFocusableControl id
  | FocusNextControl => focusNextControl
  | FocusPreviousControl => focusPreviousControl
  | StopEventPropagation => stopEventPropagation
  | AddAfterRenderCallback callback => addAfterRenderCallback callback
  | ControlW props callback => Control props (exec callback)
  | ViewW x y width height callback => View x y width height (exec callback)
  end.

(** *** [render()] *)

(** The loop over the screens, from the most recently pushed one down:
    [tops] is the stack from its top. *)
Fixpoint renderScreens (tops : list Screen.t) : M unit :=
  match tops with
  | [] => mret ()
  | screen :: below =>
      exec (Screen.render screen);;
      if Screen.isOpaque screen then mret ()
      else
        (if Screen.isModal screen then modify (set_isModal true) else mret ());;
        renderScreens below
  end.

(** The number of [addAfterRenderCallback] calls a program contains,
    nested ones included: a bound on the callbacks it can queue. *)
Fixpoint registrations (w : Widget) : nat :=
  match w with
  | Seq a b | If _ a b => registrations a + registrations b
  | AddAfterRenderCallback callback => S (registrations callback)
  | ControlW _ callback | ViewW _ _ _ _ callback => registrations callback
  | _ => 0
  end.

(** The callbacks a queue can still cause to run, itself included. *)
Definition pending (queue : list Widget) : nat :=
  sum_list_with (λ w, S (registrations w)) queue.

(** [for (let callback of this.afterRenderCallbacks) callback()]: the
    iteration reads the array as it is at each step, so a callback queued
    by a callback runs too.  [i] is the iterator's position. *)
Fixpoint runCallbacksFrom (fuel : nat) (i : nat) (ui : t) : option (Res unit) :=
  match afterRenderCallbacks ui !! i with
  | None => Some (Ok () ui)
  | Some callback =>
      match fuel with
      | O => None
      | S fuel =>
          match exec callback ui with
          | Ok _ ui' => runCallbacksFrom fuel (S i) ui'
          | Throw e ui' => Some (Throw e ui')
          end
      end
  end.

(** The loop, with the fuel that the queue at its start calls for (see
    [runCallbacksFrom_pending] below: it never runs out). *)
Definition runCallbacks : M unit := λ ui,
  default (Ok () ui)
    (runCallbacksFrom (pending (afterRenderCallbacks ui)) 0 ui).

Definition stackWarning : string :=
  "There are bounding boxes on the stack. Perhaps you forgot to popBoundingBox somewhere?".

(** The check that follows the pop of the root box. *)
Definition checkBoundingBoxStack : M unit :=
  modify (λ ui,
    if bool_decide (0 < length (boundingBoxStack ui))%nat then
      set_trace (trace ui ++ [ConsoleWarn stackWarning; ConsoleLog (boundingBoxStack ui)]) ui
    else ui).

(** What one iteration does up to the loop over the screens. *)
Definition beginPass : M unit :=
  modify (set_afterRenderCallbacks []);;
  modify (set_invalidated false);;
  t ← gets terminal;
  pushBoundingBox 0 0 (Terminal.width t) (Terminal.height t);;
  modify (set_focusableControlIds []);;
  modify (set_isModal false).

(** The first half of an iteration: the resets and the loop over the
    screens. *)
Definition renderScreensOfPass : M unit :=
  beginPass;;
  screens ← gets screens;
  renderScreens (reverse screens).

(** The second half: the pop of the root box, the check of the stack and
    the after-render callbacks. *)
Definition finishPass : M unit :=
  popBoundingBox;;
  checkBoundingBoxStack;;
  runCallbacks.

(** One iteration of the loop in [render], up to the test of
    [this.invalidated]. *)
Definition renderPass : M unit :=
  renderScreensOfPass;;
  finishPass.

(** [this.terminal.clearDrawingBuffer()], for a terminal on which the
    lookup of that property gives [method]. *)
Definition callClearDrawingBuffer (method : option (Terminal.t → Terminal.t)) : M unit :=
  match method with
  | Some f => modify (λ ui, set_terminal (f (terminal ui)) ui)
  | None => throw (TypeError "this.terminal.clearDrawingBuffer is not a function")
  end.

(** [for (let i = 1; i <= MAX_RENDERS_PER_FRAME; i++)], with [n]
    iterations left. *)
Fixpoint renderLoop (method : option (Terminal.t → Terminal.t)) (n : nat) : M unit :=
  match n with
  | O => mret ()
  | S n =>
      renderPass;;
      invalidated ← gets invalidated;
      if invalidated : bool then
        callClearDrawingBuffer method;;
        renderLoop method n
      else mret ()
  end.

(** [this.terminal.render()]. *)
Definition flush : M unit :=
  modify (λ ui,
    set_trace (trace ui ++ [TerminalRender])
      (set_terminal (Terminal.render (terminal ui)) ui)).

(** [render()]. *)
Definition render : M unit :=
  renderLoop Terminal.clearDrawingBuffer MAX_RENDERS_PER_FRAME;;
  flush.

(** A UI as its constructor leaves it, on a given terminal. *)
Definition new (terminal : Terminal.t) : t :=
  mk terminal [] [] None [] None [] Null false None [] Null Null Null
     (Mouse.mk (-1) (-1)) false [] [].

(** *** What widget code can and cannot change *)

(** Programs that reach the focusable list and the focus only through
    [Control]: no direct [addFocusableControl], [focusNextControl] or
    [focusPreviousControl], in them or in the callbacks they queue. *)
Fixpoint viaControls (w : Widget) : bool :=
  match w with
  | AddFocusableControl _ | FocusNextControl | FocusPreviousControl => false
  | Seq a b | If _ a b => viaControls a && viaControls b
  | AddAfterRenderCallback callback => viaControls callback
  | ControlW _ callback | ViewW _ _ _ _ callback => viaControls callback
  | _ => true
  end.

(** The four fields that interaction resolves. *)
Definition interaction (ui : t) : jsval * jsval * jsval * list jsval :=
  (focus ui, hover ui, active ui, focusableControlIds ui).

(** [Frame n strict s s']: from [s] to [s'] the effects, the modal flag
    and the screens are the same, the callback queue has grown by
    callbacks that can cause at most [n] calls, when [strict] holds and
    [s] is behind a modal screen, interaction is the same and the new
    callbacks keep to [viaControls], and an invalidated UI stays
    invalidated. *)
Definition Frame (n : nat) (strict : bool) (s s' : t) : Prop :=
  trace s' = trace s ∧
  isModal s' = isModal s ∧
  screens s' = screens s ∧
  (∃ added,
     afterRenderCallbacks s' = afterRenderCallbacks s ++ added ∧
     (pending added ≤ n)%nat ∧
     (strict = true → Forall (λ w, viaControls w = true) added)) ∧
  (strict = true → isModal s = true → interaction s' = interaction s) ∧
  (invalidated s = true → invalidated s' = true).

Definition framed {A} (n : nat) (strict : bool) (m : M A) : Prop :=
  ∀ ui, Frame n strict ui (stateOf (m ui)).

(** What the interactive block of a control leaves alone. *)
Definition untouched (s s' : t) : Prop :=
  trace s' = trace s ∧ isModal s' = isModal s ∧ screens s' = screens s ∧
  afterRenderCallbacks s' = afterRenderCallbacks s ∧
  invalidated s' = invalidated s.

(** Programs that call [invalidate()] on every path that returns. *)
Fixpoint callsInvalidate (w : Widget) : bool :=
  match w with
  | Invalidate => true
  | Seq a b => callsInvalidate a || callsInvalidate b
  | If _ a b => callsInvalidate a && callsInvalidate b
  | ControlW _ callback | ViewW _ _ _ _ callback => callsInvalidate callback
  | _ => false
  end.

(** [n] passes one after the other, the drawing buffer cleared after
    each: what the loop of [render] does when no pass settles. *)
Fixpoint repeatPasses (method : option (Terminal.t → Terminal.t)) (n : nat) : M unit :=
  match n with
  | O => mret ()
  | S n =>
      renderPass;;
      callClearDrawingBuffer method;;
      repeatPasses method n
  end.

(** [m] returns only with the UI invalidated. *)
Definition invalidates {A} (m : M A) : Prop :=
  ∀ s, match m s with
       | Ok _ s' => invalidated s' = true
       | Throw _ _ => True
       end.

(** The number of flushes among the effects. *)
Fixpoint flushes (effects : list Effect) : nat :=
  match effects with
  | [] => 0
  | TerminalRender :: rest => S (flushes rest)
  | _ :: rest => flushes rest
  end.

(** *** Invariants and relations for the properties of widget code *)

(** [m] takes every state to one that [R] relates to it, whether it
    returns or throws. *)
Definition respects {A} (R : t → t → Prop) (m : M A) : Prop :=
  ∀ ui, R ui (stateOf (m ui)).

(** The current box and the current clip rect are the tops of their
    stacks. *)
Definition coherent (ui : t) : Prop :=
  box ui = last (boundingBoxStack ui) ∧ clip ui = last (clipRectStack ui).

(** Programs that are one call of a method of the UI. *)
Definition leaf (w : Widget) : bool :=
  match w with
  | Seq _ _ | If _ _ _ | ControlW _ _ | ViewW _ _ _ _ _ => false
  | _ => true
  end.

(** The programs a program runs itself: the parts of a sequence, the
    branches of a test and the callback of a primitive. *)
Definition parts (w : Widget) : list Widget :=
  match w with
  | Seq a b | If _ a b => [a; b]
  | ControlW _ callback | ViewW _ _ _ _ callback => [callback]
  | _ => []
  end.

(** The relation between two states of which the second has [P] when the
    first has it. *)
Definition keeps (P : t → Prop) (s s' : t) : Prop := P s → P s'.

(** The current box and clip rect are the tops of their stacks, and the
    two buffers of the terminal are well formed. *)
Definition sound (ui : t) : Prop :=
  coherent ui ∧ Terminal.wf (terminal ui).

(** The coordinate and id stacks, with the current box and clip rect. *)
Definition stacks (ui : t) :
    list Rect.t * option Rect.t * list Rect.t * option Rect.t * list jsval :=
  (boundingBoxStack ui, box ui, clipRectStack ui, clip ui, idStack ui).

(** Programs that move the stacks only through [Control] and [View], in
    themselves and in the callbacks they queue. *)
Fixpoint structured (w : Widget) : bool :=
  match w with
  | PushBoundingBox _ _ _ _ | PopBoundingBox
  | PushClipRect _ _ _ _ | PopClipRect | PushId _ | PopId => false
  | Seq a b | If _ a b => structured a && structured b
  | AddAfterRenderCallback callback => structured callback
  | ControlW _ callback | ViewW _ _ _ _ callback => structured callback
  | _ => true
  end.

(** From a coherent state, [m] returns only with the stacks as they
    were. *)
Definition restores {A} (m : M A) : Prop :=
  ∀ ui a ui', coherent ui → m ui = Ok a ui' → stacks ui' = stacks ui.

(** Every callback in the queue is [structured]. *)
Definition structuredQueue (ui : t) : Prop :=
  Forall (λ w, structured w = true) (afterRenderCallbacks ui).

(** From a state with no current event to one with none, the focus and
    the active id being the same. *)
Definition withoutEvent (s s' : t) : Prop :=
  event s = None → event s' = None ∧ focus s' = focus s ∧ active s' = active s.

(** Programs whose controls are all disabled and that do not reach the
    focus or the focusable list themselves. *)
Fixpoint inert (w : Widget) : bool :=
  match w with
  | AddFocusableControl _ | FocusNextControl | FocusPreviousControl => false
  | Seq a b | If _ a b => inert a && inert b
  | ControlW props callback =>
      bool_decide (Props.disabled props = Some true) && inert callback
  | ViewW _ _ _ _ callback => inert callback
  | _ => true
  end.

(** The interaction fields are the same in both states. *)
Definition sameInteraction (s s' : t) : Prop := interaction s' = interaction s.

End UI.

(** ** Sample terminals and UIs *)

Definition sampleTerminal : Terminal.t := Terminal.new 3 2 (Some Font.default).

(** A UI on [sampleTerminal] with the given screens, bottom first. *)
Definition sampleUI (screens : list Screen.t) : UI.t :=
  UI.set_screens screens (UI.new sampleTerminal).

(** A control of two cells by one at the origin of the current box. *)
Definition sampleButton (id : string) : Widget :=
  ControlW (Props.mk (Str id) (Some 0) (Some 0) (Some 2) (Some 1) None) Skip.

(** [sampleUI] with the pointer on cell (1, 0) and a press under way. *)
Definition pressedUI (screens : list Screen.t) : UI.t :=
  UI.set_event (Some (MouseEvent "mousedown" 0))
    (UI.set_mouse (Mouse.mk 1 0) (sampleUI screens)).

(** One screen that pushes a bounding box and never pops it. *)
Definition leftBoxUI : UI.t :=
  sampleUI [Screen.mk (PushBoundingBox 1 0 1 1) false false].

(** One screen that pushes a clip rect and never pops it. *)
Definition leftClipUI : UI.t :=
  sampleUI [Screen.mk (PushClipRect 0 0 1 1) false false].

(** One screen whose hook calls [invalidate()]. *)
Definition invalidatingUI : UI.t :=
  sampleUI [Screen.mk Invalidate false false].

(** A UI whose last pass registered the ids A, B and C, with the focus
    on [id]. *)
Definition focusUI (id : jsval) : UI.t :=
  UI.set_focus id
    (UI.set_focusableControlIds [Str "A"; Str "B"; Str "C"] (UI.new sampleTerminal)).

(** [sampleUI] with the root box pushed, as a pass has it while it runs
    the hooks of the screens. *)
Definition boxedUI (screens : list Screen.t) : UI.t :=
  UI.stateOf (UI.pushBoundingBox 0 0 3 2 (sampleUI screens)).

(** A view holding a control that draws one cell. *)
Definition sampleForm : Widget :=
  ViewW (Some 1) (Some 0) None None
    (ControlW (Props.mk (Str "ok") None None (Some 1) (Some 1) None)
       (Put 0 0 (CharCode 65) 255 None None)).

(** ** ui/themes.js *)

Module Style.

(** A style object; a property it does not define is [None]. *)
Record t := mk { fg : option Z; bg : option Z }.

(** [Object.assign({}, base, over)]: the properties that [over] defines
    replace those of [base]. *)
Definition assign (base over : t) : t :=
  mk (match fg over with Some v => Some v | None => fg base end)
     (match bg over with Some v => Some v | None => bg base end).

(** [cond && over] as a source of [Object.assign]: [false] has no
    property to copy. *)
Definition assignIf (cond : bool) (base over : t) : t :=
  if cond then assign base over else base.

End Style.

Module DefaultTheme.

Definition WHITE : Z := 0xFFFFFFFF.
Definition RED : Z := 0xFF0000FF.
Definition GREEN : Z := 0x00FF00FF.
Definition BLUE : Z := 0x0000FFFF.
Definition GREY : Z := 0x666666FF.

(** [DefaultTheme.text] and the five styles of [DefaultTheme.button]. *)
Definition text : Style.t := Style.mk (Some WHITE) None.
Definition buttonDefault : Style.t := Style.mk (Some WHITE) None.
Definition buttonHover : Style.t := Style.mk (Some GREEN) None.
Definition buttonActive : Style.t := Style.mk (Some RED) None.
Definition buttonFocus : Style.t := Style.mk (Some BLUE) None.
Definition buttonDisabled : Style.t := Style.mk (Some GREY) None.

End DefaultTheme.

(** ** ui/components/text.js *)

(** [char === "\n"]: a string of the one code unit 10. *)
Definition isNewline (char : charArg) : bool :=
  match char with
  | CharStr [10] => true
  | _ => false
  end.

(** The elements [value[i]] of a string: strings of one code unit. *)
Definition stringItems (units : list Z) : list charArg := (λ u, CharStr [u]) <$> units.

(** The loop of [Text] from index [i] on, with the cursor at [(cx, cy)].
    A style without [fg] passes [undefined], which the buffer stores as
    0. *)
Fixpoint textFrom (value : list charArg) (cx cy : Z) (style : Style.t) : UI.M unit :=
  match value with
  | [] => mret ()
  | char :: rest =>
      if isNewline char then textFrom rest 0 (cy + 1) style
      else
        UI.put cx cy char (default 0 (Style.fg style)) (Style.bg style) None;;
        textFrom rest (cx + 1) cy style
  end.

(** [Text({ value, x, y, width, height, wrap, style })], with the theme
    that the constructor of the UI sets. *)
Definition Text (value : list charArg) (x y width height : option Z)
    (wrap : option bool) (style : option Style.t) : UI.M unit :=
  let x := default 0 x in
  let y := default 0 y in
  width ← UI.orBox width (λ b, Rect.width b - x);
  height ← UI.orBox height (λ b, Rect.height b - y);
  let wrap := default false wrap in
  let style := default DefaultTheme.text style in
  if wrap then mret () else textFrom value x y style.

(** ** ui/components/frame.js *)

(** The default [chars] of [Frame], a string of eight box-drawing
    characters. *)
Definition frameChars : list charArg :=
  stringItems [9484; 9472; 9488; 9474; 9496; 9472; 9492; 9474].

(** [chars[k]]; past the end it is [undefined], drawn as character 0. *)
Definition charAt (chars : list charArg) (k : nat) : charArg :=
  default (CharCode 0) (chars !! k).

(** A [for] loop over the values of a list. *)
Fixpoint forEach {A} (values : list A) (body : A → UI.M unit) : UI.M unit :=
  match values with
  | [] => mret ()
  | a :: rest => body a;; forEach rest body
  end.

(** [Frame({ x, y, width, height, chars, fg, bg }, callback)]. *)
Definition Frame (x y width height : option Z) (chars : option (list charArg))
    (fg bg : option Z) (callback : option (UI.M unit)) : UI.M unit :=
  let x := default 0 x in
  let y := default 0 y in
  width ← UI.orBox width Rect.width;
  height ← UI.orBox height Rect.height;
  let chars := default frameChars chars in
  let fg := default 0xFFFFFFFF fg in
  let bg := Some (default 0 bg) in
  let x0 := x in
  let y0 := y in
  let x1 := x + width - 1 in
  let y1 := y + height - 1 in
  forEach (seqZ 1 (width - 2)) (λ i,
    UI.put (x0 + i) y0 (charAt chars 1) fg bg None;;
    UI.put (x0 + i) y1 (charAt chars 5) fg bg None);;
  forEach (seqZ 1 (height - 1)) (λ j,
    UI.put x0 (y0 + j) (charAt chars 3) fg bg None;;
    UI.put x1 (y0 + j) (charAt chars 7) fg bg None);;
  UI.put x0 y0 (charAt chars 0) fg bg None;;
  UI.put x1 y0 (charAt chars 2) fg bg None;;
  UI.put x1 y1 (charAt chars 4) fg bg None;;
  UI.put x0 y1 (charAt chars 6) fg bg None;;
  match callback with
  | Some callback =>
      UI.pushBoundingBox (x + 1) (y + 1) (width - 2) (height - 2);;
      callback;;
      UI.popBoundingBox
  | None => mret ()
  end.

(** The cells of the outline of the rectangle of the given size at
    [(x, y)]. *)
Definition onOutline (x y width height : Z) (cx cy : Z) : Prop :=
  (x ≤ cx ≤ x + width - 1 ∧ (cy = y ∨ cy = y + height - 1)) ∨
  (y ≤ cy ≤ y + height - 1 ∧ (cx = x ∨ cx = x + width - 1)).

(** [m], run with a current box, returns, and changes at most the back
    buffer of the terminal, there at most cells whose position in the
    current box satisfies [S]. *)
Definition drawsWithin (S : Z → Z → Prop) (m : UI.M unit) : Prop :=
  ∀ ui b, UI.sound ui → UI.box ui = Some b →
    ∃ back,
      m ui = UI.Ok () (UI.set_terminal
                         (Terminal.mk (Terminal.width (UI.terminal ui))
                            (Terminal.height (UI.terminal ui))
                            (Terminal.font (UI.terminal ui))
                            (Terminal.frontBuffer (UI.terminal ui)) back
                            (Terminal.gl (UI.terminal ui))) ui) ∧
      Buffer.wf back ∧
      Buffer.width back = Buffer.width (Terminal.backBuffer (UI.terminal ui)) ∧
      Buffer.height back = Buffer.height (Terminal.backBuffer (UI.terminal ui)) ∧
      ∀ cx cy,
        Buffer.inBounds (Terminal.backBuffer (UI.terminal ui)) cx cy = true →
        ¬ S (cx - Rect.x b) (cy - Rect.y b) →
        Buffer.cellAt back cx cy =
        Buffer.cellAt (Terminal.backBuffer (UI.terminal ui)) cx cy.

(** ** ui/components/button.js, ui/components/toggle.js *)

(** [Control] with a callback that leaves a value in a variable of the
    caller: the assignment in the closure is the callback's result here,
    and the caller gets it once the control has popped its box and id.
    [Control props (callback;; mret ())] is this with the value dropped
    (see [Control_ControlWith]). *)
Definition ControlWith {A} (props : Props.t) (callback : UI.M A) : UI.M A :=
  let x := default 0 (Props.x props) in
  let y := default 0 (Props.y props) in
  width ← UI.orBox (Props.width props) Rect.width;
  height ← UI.orBox (Props.height props) Rect.height;
  let disabled := default false (Props.disabled props) in
  UI.pushId (Props.id props);;
  UI.pushBoundingBox x y width height;;
  if isNullish (Props.id props) then UI.throw (JsError "Control must have an id!")
  else
    id ← UI.getId;
    modal ← UI.gets UI.isModal;
    (if negb disabled && negb modal then UI.interact id width height else mret ());;
    a ← callback;
    UI.popBoundingBox;;
    UI.popId;;
    mret a.

Module ButtonProps.

(** The properties of [Button]; [label] is a string, given by its code
    units. *)
Record t := mk {
  label : list Z;
  id : jsval;
  x : option Z;
  y : option Z;
  width : option Z;
  height : option Z;
  disabled : option bool;
  style : option Style.t;
  focusStyle : option Style.t;
  hoverStyle : option Style.t;
  activeStyle : option Style.t;
  disabledStyle : option Style.t;
}.

End ButtonProps.

(** The style a button is drawn with: [Object.assign] of the default
    style and of the hover, focus, active and disabled styles that
    apply, in this order. *)
Definition buttonStyles (props : ButtonProps.t) (hovered focused active : bool) : Style.t :=
  let style := default DefaultTheme.buttonDefault (ButtonProps.style props) in
  let focusStyle := default DefaultTheme.buttonFocus (ButtonProps.focusStyle props) in
  let hoverStyle := default DefaultTheme.buttonHover (ButtonProps.hoverStyle props) in
  let activeStyle := default DefaultTheme.buttonActive (ButtonProps.activeStyle props) in
  let disabledStyle := default DefaultTheme.buttonDisabled (ButtonProps.disabledStyle props) in
  let disabled := default false (ButtonProps.disabled props) in
  Style.assignIf disabled
    (Style.assignIf active
       (Style.assignIf focused (Style.assignIf hovered style hoverStyle) focusStyle)
       activeStyle)
    disabledStyle.

(** [Button({ label, id, x, y, width, height, disabled, ...styles })]:
    the value returned is [clicked]. *)
Definition Button (props : ButtonProps.t) : UI.M bool :=
  let label := ButtonProps.label props in
  let x := default 0 (ButtonProps.x props) in
  let y := default 0 (ButtonProps.y props) in
  let width := default (Z.of_nat (length label)) (ButtonProps.width props) in
  let height := default 1 (ButtonProps.height props) in
  let disabled := default false (ButtonProps.disabled props) in
  ControlWith
    (Props.mk (ButtonProps.id props) (Some x) (Some y) (Some width) (Some height)
       (Some disabled))
    (hovered ← UI.gets UI.isHovered;
     focused ← UI.gets UI.isFocused;
     active ← UI.gets UI.isActive;
     let styles := buttonStyles props hovered focused active in
     clicked ← UI.gets UI.isActive;
     (if decide (label = []) then mret ()
      else Text (stringItems label) None None None None None (Some styles));;
     mret clicked).

(** [Toggle({ id, value, x, y, width, height, disabled }, callback)]:
    the value returned is the one passed to the callback. *)
Definition Toggle (id : jsval) (value : bool) (x y width height : option Z)
    (disabled : option bool) (callback : bool → UI.M unit) : UI.M bool :=
  let x := default 0 x in
  let y := default 0 y in
  let width := default 1 width in
  let height := default 1 height in
  let disabled := default false disabled in
  ControlWith
    (Props.mk id (Some x) (Some y) (Some width) (Some height) (Some disabled))
    (active ← UI.gets UI.isActive;
     let value := if active : bool then negb value else value in
     callback value;;
     mret value).

(** The id a control with the given id has in a state: the ids on the
    stack and its own, joined. *)
Definition qualifiedId (ui : UI.t) (id : jsval) : jsval :=
  Str (join "/" (UI.idStack ui ++ [id])).

(** A button labelled OK with the id ok, everything else left to its
    default. *)
Definition okButton : ButtonProps.t :=
  ButtonProps.mk [79; 75] (Str "ok") None None None None None None None None None None.

(** ** ui/components/input.js: the editing helpers *)








(** ** color/index.js *)

Module Color.

(** [v << k] on integers: both operands are taken to 32 bits, the shift
    count to 5. *)
Definition shl (v k : Z) : Z := toInt32 (Z.shiftl (toInt32 v) (k mod 32)).

(** [RGBA(r, g, b, a = 0xFF)]:
    [((r << 24) | (g << 16) | (b << 8) | a) >>> 0]. *)
Definition RGBA (r g b : Z) (a : option Z) : Z :=
  let a := default 0xFF a in
  toUint32 (Z.lor (Z.lor (Z.lor (shl r 24) (shl g 16)) (shl b 8)) (toInt32 a)).

End Color.

(** ** ui/ui.js: the key-value store *)

(** How a template literal prints an id. *)
Definition templateString (v : jsval) : string :=
  match v with
  | Null => "null"
  | Undefined => "undefined"
  | Str s => s
  end.

(** [setValue(key, value)] on [ui.store], a [Map] keyed by strings. *)
Definition setValue {V} (key : string) (value : V) (store : gmap string V) :
    gmap string V :=
  <[key := value]> store.

(** [getValue(key, defaultValue)]. *)
Definition getValue {V} (key : string) (defaultValue : V) (store : gmap string V) : V :=
  match store !! key with
  | Some value => value
  | None => defaultValue
  end.

(** The key [`${this.currentId}:${key}`] of a local value. *)
Definition localKey (ui : UI.t) (key : string) : string :=
  templateString (UI.currentId ui) +:+ ":" +:+ key.

(** [setLocalValue(key, value)] and [getLocalValue(key, defaultValue)]. *)
Definition setLocalValue {V} (ui : UI.t) (key : string) (value : V)
    (store : gmap string V) : gmap string V :=
  setValue (localKey ui key) value store.

Definition getLocalValue {V} (ui : UI.t) (key : string) (defaultValue : V)
    (store : gmap string V) : V :=
  getValue (localKey ui key) defaultValue store.

(** The string holds a colon. *)
Fixpoint hasColon (s : string) : bool :=
  match s with
  | EmptyString => false
  | String c rest => bool_decide (String c EmptyString = ":") || hasColon rest
  end.

(** ** ui/ui.js: dispatching events *)

Module Pointer.

(** [ui.mouse.buttons], a set of button numbers, and [ui.mouse.down],
    which the constructor leaves undefined. *)
Record t := mk { buttons : gset Z; down : option bool }.

Definition new : t := mk ∅ None.

End Pointer.

Module DomEvent.

(** An event as the listeners of the UI get it: the event, for a mouse
    event the cell under the pointer (the floor of
    [terminal.screenToGrid(clientX, clientY)], which the layout of the
    canvas determines), and whether its default had been prevented. *)
Record t := mk { event : Event; cell : Z * Z; defaultPrevented : bool }.

End DomEvent.

(** [initialEventHandler(event)]: the value returned, with the mouse
    state it leaves. *)
Definition initialEventHandler (e : DomEvent.t) (ui : UI.t) (p : Pointer.t) :
    bool * UI.t * Pointer.t :=
  match DomEvent.event e with
  | MouseEvent type button =>
      if decide (type = "mousemove") then
        let x := (DomEvent.cell e).1 in
        let y := (DomEvent.cell e).2 in
        if decide (x = Mouse.x (UI.mouse ui) ∧ y = Mouse.y (UI.mouse ui))
        then (false, ui, p)
        else (true, UI.set_mouse (Mouse.mk x y) ui, p)
      else if decide (type = "mousedown") then
        (true, ui, Pointer.mk ({[button]} ∪ Pointer.buttons p) (Some true))
      else if decide (type = "mouseup") then
        (true, ui, Pointer.mk (Pointer.buttons p ∖ {[button]}) (Some false))
      else (true, ui, p)
  | _ => (true, ui, p)
  end.

(** [defaultEventHandler(event)]: Tab moves the focus and renders.  The
    call of [event.preventDefault()] acts on the event object only, which
    nothing reads afterwards. *)
Definition defaultEventHandler (e : DomEvent.t) : UI.M unit :=
  match DomEvent.event e with
  | KeyboardEvent type key shiftKey =>
      if decide (type = "keydown") then
        if decide (key = "Tab") then
          (if shiftKey then UI.focusPreviousControl else UI.focusNextControl);;
          UI.render
        else mret ()
      else mret ()
  | _ => mret ()
  end.

(** What [_dispatchEvent] does once the initial handler has asked for a
    render: the event is exposed, the UI is rendered, and an event that is
    still there, its default not prevented, is cleared and handed to the
    default handler. *)
Definition renderEvent (e : DomEvent.t) : UI.M unit :=
  UI.modify (UI.set_event (Some (DomEvent.event e)));;
  UI.render;;
  event ← UI.gets UI.event;
  match event with
  | Some _ =>
      if DomEvent.defaultPrevented e then mret ()
      else UI.modify (UI.set_event None);; defaultEventHandler e
  | None => mret ()
  end.

(** [_dispatchEvent(event)]. *)
Definition dispatchEvent (e : DomEvent.t) (ui : UI.t) (p : Pointer.t) :
    UI.Res unit * Pointer.t :=
  let '(shouldRender, ui, p) := initialEventHandler e ui p in
  if shouldRender : bool then (renderEvent e ui, p) else (UI.Ok () ui, p).

(** From a state without a current event to one without. *)
Definition staysWithoutEvent (s s' : UI.t) : Prop :=
  UI.event s = None → UI.event s' = None.

(** * Properties *)

(** ** The layered write *)

Section BufferFacts.

Import Buffer.

Lemma inBounds_spec (b : t) (x y : Z) :
  inBounds b x y = true ↔ 0 ≤ x ∧ 0 ≤ y ∧ x < width b ∧ y < height b.
Proof.
  unfold inBounds. rewrite !andb_true_iff, !bool_decide_eq_true. tauto.
Qed.

Lemma index_lt (b : t) (x y : Z) :
  wf b → inBounds b x y = true →
  (index b x y < Z.to_nat (width b * height b))%nat.
Proof.
  intros (Hw & Hh & _) (Hx & Hy & Hxw & Hyh)%inBounds_spec.
  unfold index. apply Z2Nat.inj_lt; nia.
Qed.

Lemma cellAt_defined (b : t) (x y : Z) :
  wf b → inBounds b x y = true → is_Some (cellAt b x y).
Proof.
  intros Hwf Hin. pose proof (index_lt b x y Hwf Hin) as Hlt.
  destruct Hwf as (_ & _ & Hc & Hf & Hg & Hl). unfold cellAt.
  destruct (lookup_lt_is_Some_2 (chars b) (index b x y)) as [c ->]; [lia|].
  destruct (lookup_lt_is_Some_2 (foreground b) (index b x y)) as [f ->]; [lia|].
  destruct (lookup_lt_is_Some_2 (background b) (index b x y)) as [g ->]; [lia|].
  destruct (lookup_lt_is_Some_2 (layers b) (index b x y)) as [l ->]; [lia|].
  simpl. eauto.
Qed.

Lemma cellAt_inv (b : t) (x y : Z) (c : cell) :
  cellAt b x y = Some c →
  chars b !! index b x y = Some (char c) ∧
  foreground b !! index b x y = Some (fg c) ∧
  background b !! index b x y = Some (bg c) ∧
  layers b !! index b x y = Some (layer c).
Proof.
  unfold cellAt. intros H.
  destruct (chars b !! index b x y); simpl in H; [|done].
  destruct (foreground b !! index b x y); simpl in H; [|done].
  destruct (background b !! index b x y); simpl in H; [|done].
  destruct (layers b !! index b x y); simpl in H; [|done].
  by simplify_eq.
Qed.

Lemma put_wf (b : t) (x y : Z) (char : charArg) (fg : Z) (bg layer : option Z) :
  wf b → wf (put b x y char fg bg layer).
Proof.
  intros Hwf. unfold put.
  destruct (inBounds b x y); [|done].
  destruct (layerWins _ _ _); [|done].
  destruct Hwf as (? & ? & ? & ? & ? & ?).
  unfold wf; simpl. destruct (truthy bg); rewrite ?length_insert; repeat split; assumption.
Qed.

Lemma put_inBounds (b : t) (x y x' y' : Z) char fg bg layer :
  inBounds (put b x y char fg bg layer) x' y' = inBounds b x' y'.
Proof.
  unfold put. destruct (inBounds b x y); [|done].
  by destruct (layerWins _ _ _).
Qed.

(** A write that is turned away leaves the buffer as it was. *)
Lemma put_loses (b : t) (x y : Z) (old : cell) char fg bg layer :
  cellAt b x y = Some old → default 0 layer < Buffer.layer old →
  put b x y char fg bg layer = b.
Proof.
  intros (_ & _ & _ & Hl)%cellAt_inv Hlt. unfold put, layerWins.
  rewrite Hl. rewrite bool_decide_eq_false_2 by lia.
  by destruct (inBounds b x y).
Qed.

(** A write that is let in stores its character, foreground and layer,
    and its background when that is truthy. *)
Lemma put_wins (b : t) (x y : Z) (old : cell) char fg bg layer :
  wf b → inBounds b x y = true →
  cellAt b x y = Some old → Buffer.layer old ≤ default 0 layer →
  cellAt (put b x y char fg bg layer) x y =
    Some (Cell (toUint32 (charCode char)) (toUint32 fg)
               (if truthy bg then toUint32 (default 0 bg) else Buffer.bg old)
               (toUint32 (default 0 layer))).
Proof.
  intros Hwf Hin Hold Hle. pose proof (index_lt b x y Hwf Hin) as Hlt.
  destruct (cellAt_inv _ _ _ _ Hold) as (Hc & Hf & Hg & Hl).
  destruct Hwf as (_ & _ & Lc & Lf & Lg & Ll).
  unfold put, layerWins. rewrite Hin, Hl.
  rewrite bool_decide_eq_true_2 by lia.
  unfold cellAt, index; simpl. fold (index b x y).
  rewrite !list_lookup_insert_eq by lia. simpl.
  destruct (truthy bg).
  - rewrite list_lookup_insert_eq by lia. done.
  - rewrite Hg. done.
Qed.

End BufferFacts.

(** C1. In a well-formed buffer, a write to an in-bounds cell replaces
    the cell's character, foreground, layer and (when truthy) background
    when its layer is at least the stored one, and otherwise leaves the
    whole buffer as it was.  Hence, after a write of a 32-bit layer [L1]
    that was let in, a write of [L2 >= L1] leaves its own content in the
    cell, and a write of [L2 < L1] changes nothing. *)
Theorem C1_put_replaces_iff_layer_not_lower (b : Buffer.t) (x y : Z) :
  Buffer.wf b → Buffer.inBounds b x y = true →
  ∃ old, Buffer.cellAt b x y = Some old ∧
    (∀ char fg bg layer,
       (Buffer.layer old ≤ default 0 layer →
        Buffer.cellAt (Buffer.put b x y char fg bg layer) x y =
          Some (Buffer.Cell (toUint32 (charCode char)) (toUint32 fg)
                  (if truthy bg then toUint32 (default 0 bg) else Buffer.bg old)
                  (toUint32 (default 0 layer)))) ∧
       (default 0 layer < Buffer.layer old →
        Buffer.put b x y char fg bg layer = b)) ∧
    (∀ char1 fg1 bg1 L1,
       0 ≤ L1 < 2 ^ 32 → Buffer.layer old ≤ L1 →
       let b1 := Buffer.put b x y char1 fg1 bg1 (Some L1) in
       ∃ first, Buffer.cellAt b1 x y = Some first ∧ Buffer.layer first = L1 ∧
         ∀ char2 fg2 bg2 L2,
           (L1 ≤ L2 →
            Buffer.cellAt (Buffer.put b1 x y char2 fg2 bg2 (Some L2)) x y =
              Some (Buffer.Cell (toUint32 (charCode char2)) (toUint32 fg2)
                      (if truthy bg2 then toUint32 (default 0 bg2) else Buffer.bg first)
                      (toUint32 L2))) ∧
           (L2 < L1 → Buffer.put b1 x y char2 fg2 bg2 (Some L2) = b1)).
Proof.
  intros Hwf Hin. destruct (cellAt_defined b x y Hwf Hin) as [old Hold].
  exists old. split; [done|]. split.
  - intros char fg bg layer. split; intros HL.
    + by apply put_wins.
    + by eapply put_loses.
  - intros char1 fg1 bg1 L1 HL1 Hle b1.
    pose proof (put_wins b x y old char1 fg1 bg1 (Some L1) Hwf Hin Hold Hle) as H1.
    fold b1 in H1. simpl in H1.
    assert (toUint32 L1 = L1) as EL by (unfold toUint32; apply Z.mod_small; lia).
    rewrite EL in H1. eexists. split; [exact H1|]. split; [done|].
    intros char2 fg2 bg2 L2.
    assert (Buffer.wf b1) as Hwf1 by by apply put_wf.
    assert (Buffer.inBounds b1 x y = true) as Hin1
      by (unfold b1; by rewrite put_inBounds).
    split; intros HL2.
    + by rewrite (put_wins b1 x y _ char2 fg2 bg2 (Some L2) Hwf1 Hin1 H1).
    + by apply (put_loses b1 x y _ char2 fg2 bg2 (Some L2) H1).
Qed.

Lemma C1_witness :
  ∃ old, Buffer.cellAt (Buffer.new 3 2) 2 1 = Some old ∧
    Buffer.put (Buffer.put (Buffer.new 3 2) 2 1 (CharCode 65) 1 None (Some 5))
      2 1 (CharCode 66) 2 None (Some 4)
    = Buffer.put (Buffer.new 3 2) 2 1 (CharCode 65) 1 None (Some 5).
Proof.
  assert (Buffer.wf (Buffer.new 3 2)) as Hwf by (vm_compute; repeat split; congruence).
  assert (Buffer.inBounds (Buffer.new 3 2) 2 1 = true) as Hin by reflexivity.
  destruct (C1_put_replaces_iff_layer_not_lower (Buffer.new 3 2) 2 1 Hwf Hin)
    as (old & Hold & _ & Htwo).
  exists old. split; [exact Hold|].
  assert (Buffer.layer old = 0) as E.
  { assert (Buffer.cellAt (Buffer.new 3 2) 2 1 = Some (Buffer.Cell 0 0 0 0)) as Hzero
      by reflexivity.
    rewrite Hzero in Hold. by injection Hold as <-. }
  destruct (Htwo (CharCode 65) 1 None 5) as (first & _ & _ & Hsecond); [lia|lia|].
  apply (Hsecond (CharCode 66) 2 None 4). lia.
Defined.

(** C8. For an in-bounds write that is let in, an omitted or zero
    background leaves the background array as it was while the character
    and the foreground are replaced; a non-zero background is stored. *)
Theorem C8_zero_background_is_kept
    (b : Buffer.t) (x y : Z) (old : Buffer.cell)
    (char : charArg) (fg : Z) (bg layer : option Z) :
  Buffer.wf b → Buffer.inBounds b x y = true →
  Buffer.cellAt b x y = Some old → Buffer.layer old ≤ default 0 layer →
  let b' := Buffer.put b x y char fg bg layer in
  (bg = None ∨ bg = Some 0 →
   Buffer.background b' = Buffer.background b ∧
   Buffer.cellAt b' x y =
     Some (Buffer.Cell (toUint32 (charCode char)) (toUint32 fg) (Buffer.bg old)
             (toUint32 (default 0 layer)))) ∧
  (∀ v, bg = Some v → v ≠ 0 →
   Buffer.cellAt b' x y =
     Some (Buffer.Cell (toUint32 (charCode char)) (toUint32 fg) (toUint32 v)
             (toUint32 (default 0 layer)))).
Proof.
  intros Hwf Hin Hold Hle b'.
  pose proof (put_wins b x y old char fg bg layer Hwf Hin Hold Hle) as Hcell.
  fold b' in Hcell. split.
  - intros Hbg. assert (truthy bg = false) as Hfalsy by (by destruct Hbg as [-> | ->]).
    rewrite Hfalsy in Hcell. split; [|done].
    destruct (cellAt_inv _ _ _ _ Hold) as (_ & _ & _ & Hl).
    unfold b', Buffer.put, Buffer.layerWins. rewrite Hin, Hl, Hfalsy.
    by rewrite bool_decide_eq_true_2 by lia.
  - intros v -> Hv. simpl in Hcell.
    by rewrite bool_decide_eq_true_2 in Hcell by done.
Qed.

Lemma C8_witness :
  Buffer.background (Buffer.put (Buffer.new 3 2) 2 1 (CharCode 65) 9 (Some 0) None)
  = Buffer.background (Buffer.new 3 2).
Proof.
  assert (Buffer.wf (Buffer.new 3 2)) as Hwf by (vm_compute; repeat split; congruence).
  assert (Buffer.inBounds (Buffer.new 3 2) 2 1 = true) as Hin by reflexivity.
  assert (Buffer.cellAt (Buffer.new 3 2) 2 1 = Some (Buffer.Cell 0 0 0 0)) as Hold
    by reflexivity.
  assert (Buffer.layer (Buffer.Cell 0 0 0 0) ≤ default 0 (None : option Z)) as Hle
    by (simpl; lia).
  destruct (C8_zero_background_is_kept (Buffer.new 3 2) 2 1 _ (CharCode 65) 9
              (Some 0) None Hwf Hin Hold Hle) as [Hzero _].
  apply Hzero. by right.
Defined.

(** ** The diffing flush *)

Section Counting.

(** Sums over index ranges: the column-by-column walk of the grid visits
    each linear index once. *)

Lemma sum_list_with_add {A} (f g : A → nat) (l : list A) :
  sum_list_with (λ a, f a + g a)%nat l = (sum_list_with f l + sum_list_with g l)%nat.
Proof. induction l as [|a l IH]; simpl; lia. Qed.

Lemma sum_list_with_ext {A} (f g : A → nat) (l : list A) :
  (∀ a, f a = g a) → sum_list_with f l = sum_list_with g l.
Proof. intros E. induction l as [|a l IH]; simpl; [done|]. by rewrite E, IH. Qed.

Lemma sum_list_with_seq_shift (g : nat → nat) (k n : nat) :
  sum_list_with g (seq k n) = sum_list_with (λ x, g (x + k)%nat) (seq 0 n).
Proof.
  revert k. induction n as [|n IH]; intros k; [done|].
  rewrite !seq_S, !sum_list_with_app; simpl.
  rewrite IH. f_equal. f_equal. f_equal. lia.
Qed.

Lemma sum_columns_rows (g : nat → nat) (W H : nat) :
  sum_list_with (λ x, sum_list_with (λ y, g (x + y * W)%nat) (seq 0 H)) (seq 0 W)
  = sum_list_with g (seq 0 (W * H)).
Proof.
  induction H as [|H IH].
  - rewrite Nat.mul_0_r; simpl. induction (seq 0 W); simpl; lia.
  - replace (W * S H)%nat with (W * H + W)%nat by lia.
    rewrite seq_app, sum_list_with_app, <- IH.
    rewrite (sum_list_with_seq_shift g (0 + W * H) W).
    rewrite <- sum_list_with_add. apply sum_list_with_ext; intros x.
    rewrite seq_S, sum_list_with_app. cbn [sum_list_with].
    replace (x + (0 + H) * W)%nat with (x + (0 + W * H))%nat by lia. lia.
Qed.

Lemma length_filter_sum {A} (P : A → Prop) `{∀ a, Decision (P a)} (l : list A) :
  length (filter P l) = sum_list_with (λ a, if decide (P a) then 1 else 0)%nat l.
Proof.
  induction l as [|a l IH]; [done|].
  rewrite filter_cons; simpl. destruct (decide (P a)); simpl; lia.
Qed.

End Counting.

Section TerminalFacts.

Import Terminal.

(** The loop skips a cell exactly when the two triples are equal. *)
Lemma unchanged_content (front back : Buffer.t) (i : nat) :
  unchanged front back i = true ↔ content back i = content front i.
Proof.
  unfold unchanged, content.
  rewrite !andb_true_iff, !bool_decide_eq_true. split.
  - intros [[-> ->] ->]. done.
  - intros E. by simplify_eq.
Qed.

Lemma changedCells_sum (t : Terminal.t) :
  changedCells t = sum_list_with (differs t) (seq 0 (Z.to_nat (width t * height t))).
Proof.
  unfold changedCells. rewrite length_filter_sum.
  apply sum_list_with_ext; intros i. unfold differs.
  pose proof (unchanged_content (frontBuffer t) (backBuffer t) i) as H.
  destruct (unchanged _ _ i); case_decide; try done.
  - exfalso. tauto.
  - destruct H as [_ H]. by specialize (H ltac:(assumption)).
Qed.

Lemma renderCell_count (t : Terminal.t) (f : Font.t) (x y : nat) (acc : Batch) :
  0 ≤ width t →
  vertexCount (renderCell t f (Z.of_nat x) (Z.of_nat y) acc) =
  vertexCount acc + 6 * Z.of_nat (differs t (x + y * Z.to_nat (width t))).
Proof.
  intros Hw. unfold renderCell, differs.
  replace (Z.to_nat (Z.of_nat x + Z.of_nat y * width t))
    with (x + y * Z.to_nat (width t))%nat by nia.
  destruct (unchanged _ _ _); simpl; lia.
Qed.

Lemma renderColumn_count (t : Terminal.t) (f : Font.t) (x : nat) (acc : Batch) :
  0 ≤ width t →
  vertexCount (renderColumn t f acc (Z.of_nat x)) =
  vertexCount acc +
  6 * Z.of_nat (sum_list_with (λ y, differs t (x + y * Z.to_nat (width t)))
                              (seq 0 (Z.to_nat (height t)))).
Proof.
  intros Hw. unfold renderColumn, seqZ. rewrite foldl_fmap.
  generalize (Z.to_nat (height t)) as H. intros H.
  induction H as [|H IH]; [simpl; lia|].
  rewrite seq_S, foldl_app, sum_list_with_app; simpl.
  rewrite Z.add_0_r, renderCell_count, IH by done. lia.
Qed.

Lemma buildBatch_count (t : Terminal.t) (f : Font.t) :
  0 ≤ width t → 0 ≤ height t →
  vertexCount (buildBatch t f) = 6 * Z.of_nat (changedCells t).
Proof.
  intros Hw Hh. rewrite changedCells_sum.
  replace (Z.to_nat (width t * height t))
    with (Z.to_nat (width t) * Z.to_nat (height t))%nat by nia.
  rewrite <- sum_columns_rows.
  unfold buildBatch, seqZ. rewrite foldl_fmap.
  generalize (Z.to_nat (width t)) at 1 3 as W. intros W.
  induction W as [|W IH]; [done|].
  rewrite seq_S, foldl_app, sum_list_with_app; simpl.
  rewrite Z.add_0_r, renderColumn_count, IH by done. lia.
Qed.

End TerminalFacts.

Section BatchFacts.

Import Terminal.

Lemma renderCell_wellShaped (t : Terminal.t) (f : Font.t) (x y : Z) (acc : Batch) :
  wellShaped acc → wellShaped (renderCell t f x y acc).
Proof.
  intros (H1 & H2 & H3 & H4). unfold renderCell.
  destruct (unchanged _ _ _); [done|].
  unfold wellShaped; simpl. rewrite !length_app; simpl. lia.
Qed.

Lemma foldl_invariant {A B} (P : A → Prop) (f : A → B → A) (l : list B) (a : A) :
  (∀ a b, P a → P (f a b)) → P a → P (foldl f a l).
Proof. intros Hf. revert a. induction l; simpl; auto. Qed.

Lemma buildBatch_wellShaped (t : Terminal.t) (f : Font.t) :
  wellShaped (buildBatch t f).
Proof.
  unfold buildBatch. apply foldl_invariant.
  - intros acc x Hacc. unfold renderColumn. apply foldl_invariant; [|done].
    intros; by apply renderCell_wellShaped.
  - unfold wellShaped; simpl; lia.
Qed.

Lemma foldl_ext_all {A B} (f g : A → B → A) (l : list B) (a : A) :
  (∀ a b, f a b = g a b) → foldl f a l = foldl g a l.
Proof. intros E. revert a. induction l as [|b l IH]; intros a; simpl; [done|]. by rewrite E, IH. Qed.

(** The batch is a function of the sizes and of the three content arrays
    of the two buffers: the layers are not read. *)
Lemma buildBatch_content (t t' : Terminal.t) (f : Font.t) :
  width t' = width t → height t' = height t →
  Buffer.chars (frontBuffer t') = Buffer.chars (frontBuffer t) →
  Buffer.foreground (frontBuffer t') = Buffer.foreground (frontBuffer t) →
  Buffer.background (frontBuffer t') = Buffer.background (frontBuffer t) →
  Buffer.chars (backBuffer t') = Buffer.chars (backBuffer t) →
  Buffer.foreground (backBuffer t') = Buffer.foreground (backBuffer t) →
  Buffer.background (backBuffer t') = Buffer.background (backBuffer t) →
  buildBatch t' f = buildBatch t f.
Proof.
  intros Hw Hh F1 F2 F3 B1 B2 B3. unfold buildBatch. rewrite Hw.
  apply foldl_ext_all; intros acc x. unfold renderColumn. rewrite Hh.
  apply foldl_ext_all; intros acc' y.
  unfold renderCell, unchanged. by rewrite Hw, F1, F2, F3, B1, B2, B3.
Qed.

Lemma changedCells_same (t : Terminal.t) :
  Buffer.chars (backBuffer t) = Buffer.chars (frontBuffer t) →
  Buffer.foreground (backBuffer t) = Buffer.foreground (frontBuffer t) →
  Buffer.background (backBuffer t) = Buffer.background (frontBuffer t) →
  changedCells t = 0%nat.
Proof.
  intros E1 E2 E3. rewrite changedCells_sum.
  induction (seq 0 _) as [|i l IH]; [done|]. simpl. rewrite IH.
  unfold differs, unchanged. rewrite E1, E2, E3.
  by rewrite !bool_decide_eq_true_2.
Qed.

End BatchFacts.

(** C2. With a font set, on a terminal whose two buffers have its size,
    the flush uploads a batch of exactly 6 vertices (12 coordinates, 12
    texture coordinates, 24 + 24 colour bytes) per cell whose character,
    foreground or background differs between the back and the front buffer;
    the batch has no vertex when the three arrays agree; and the batch is
    the same for any other layers in the two buffers. *)
Theorem C2_flush_emits_six_vertices_per_changed_cell
    (t : Terminal.t) (f : Font.t) :
  Terminal.wf t → Terminal.font t = Some f →
  let batch := Terminal.buildBatch t f in
  Terminal.gl (Terminal.render t) =
    Terminal.gl t ++ [Terminal.BufferData batch] ++
    (if bool_decide (0 < Terminal.vertexCount batch)
     then [Terminal.DrawArrays (Terminal.vertexCount batch)] else []) ∧
  Terminal.vertexCount batch = 6 * Z.of_nat (Terminal.changedCells t) ∧
  Terminal.wellShaped batch ∧
  (Buffer.chars (Terminal.backBuffer t) = Buffer.chars (Terminal.frontBuffer t) →
   Buffer.foreground (Terminal.backBuffer t) = Buffer.foreground (Terminal.frontBuffer t) →
   Buffer.background (Terminal.backBuffer t) = Buffer.background (Terminal.frontBuffer t) →
   Terminal.vertexCount batch = 0) ∧
  (∀ frontLayers backLayers : list Z,
     let relayer b layers :=
       Buffer.mk (Buffer.width b) (Buffer.height b) (Buffer.chars b)
                 (Buffer.foreground b) (Buffer.background b) layers in
     Terminal.buildBatch
       (Terminal.mk (Terminal.width t) (Terminal.height t) (Terminal.font t)
          (relayer (Terminal.frontBuffer t) frontLayers)
          (relayer (Terminal.backBuffer t) backLayers) (Terminal.gl t)) f
     = batch).
Proof.
  intros Hwf Hfont batch.
  assert (0 ≤ Terminal.width t ∧ 0 ≤ Terminal.height t) as [Hw Hh].
  { destruct Hwf as ((Hw & Hh & _) & _ & Ew & Eh & _). by rewrite <- Ew, <- Eh. }
  assert (Terminal.vertexCount batch = 6 * Z.of_nat (Terminal.changedCells t)) as Hcount
    by by apply buildBatch_count.
  split; [|split; [|split; [|split]]].
  - unfold Terminal.render. by rewrite Hfont.
  - done.
  - apply buildBatch_wellShaped.
  - intros E1 E2 E3. rewrite Hcount, changedCells_same by done. done.
  - intros frontLayers backLayers relayer. by apply buildBatch_content.
Qed.

Lemma C2_witness :
  Terminal.vertexCount
    (Terminal.buildBatch
       (Terminal.put sampleTerminal 1 0 (CharCode 65) 255 (Some 7) None)
       Font.default) = 6.
Proof.
  set (t := Terminal.put sampleTerminal 1 0 (CharCode 65) 255 (Some 7) None).
  assert (Terminal.wf t) as Hwf by (vm_compute; repeat split; congruence).
  assert (Terminal.font t = Some Font.default) as Hfont by reflexivity.
  destruct (C2_flush_emits_six_vertices_per_changed_cell t Font.default Hwf Hfont)
    as (_ & Hcount & _).
  rewrite Hcount. reflexivity.
Defined.

(** ** Focus cycling *)

Section FocusFacts.

Lemma indexOf_bounds (l : list jsval) (v : jsval) :
  -1 ≤ indexOf l v < Z.of_nat (length l).
Proof.
  induction l as [|w l IH]; simpl; [lia|].
  destruct (decide (w = v)); [lia|]. destruct (decide (indexOf l v = -1)); lia.
Qed.

Lemma indexOf_not_elem (l : list jsval) (v : jsval) :
  v ∉ l → indexOf l v = -1.
Proof.
  induction l as [|w l IH]; simpl; [done|].
  intros [Hne Hl]%not_elem_of_cons.
  rewrite decide_False by done. rewrite IH by done. by rewrite decide_True.
Qed.

Lemma indexOf_NoDup (l : list jsval) (i : nat) (v : jsval) :
  NoDup l → l !! i = Some v → indexOf l v = Z.of_nat i.
Proof.
  intros Hnd. revert i. induction Hnd as [|w l Hw Hnd IH]; intros i Hi; [done|].
  destruct i as [|i]; simpl in *.
  - simplify_eq. by rewrite decide_True.
  - rewrite decide_False.
    + rewrite (IH i Hi). rewrite decide_False by lia. lia.
    + intros ->. apply Hw. by eapply list_elem_of_lookup_2.
Qed.

Lemma at_lookup (l : list jsval) (i : nat) (v : jsval) :
  l !! i = Some v → at_ l (Z.of_nat i) = v.
Proof.
  intros H. unfold at_. rewrite decide_True by lia. by rewrite Nat2Z.id, H.
Qed.

End FocusFacts.

(** C6. When the focusable ids are pairwise distinct and the focus is the
    id at position [i], advancing moves the focus to the id at position
    [i + 1], or to the first id from the last position, and reversing
    moves it to the id at position [i - 1], or to the last id from the
    first position. *)
Theorem C6_focus_cycles_in_registration_order (ui : UI.t) (i : nat) :
  NoDup (UI.focusableControlIds ui) →
  UI.focusableControlIds ui !! i = Some (UI.focus ui) →
  let ids := UI.focusableControlIds ui in
  let n := length ids in
  ∃ next previous,
    ids !! ((i + 1) mod n)%nat = Some next ∧
    ids !! ((i + n - 1) mod n)%nat = Some previous ∧
    UI.focusNextControl ui = UI.Ok () (UI.set_focus next ui) ∧
    UI.focusPreviousControl ui = UI.Ok () (UI.set_focus previous ui).
Proof.
  intros Hnd Hi ids n.
  assert (i < n)%nat as Hlt by (by eapply lookup_lt_Some).
  destruct (lookup_lt_is_Some_2 ids ((i + 1) mod n)%nat) as [next Hnext].
  { apply Nat.mod_upper_bound; lia. }
  destruct (lookup_lt_is_Some_2 ids ((i + n - 1) mod n)%nat) as [previous Hprev].
  { apply Nat.mod_upper_bound; lia. }
  exists next, previous. split; [done|]. split; [done|].
  pose proof (indexOf_NoDup _ _ _ Hnd Hi) as Hidx.
  unfold UI.focusNextControl, UI.focusPreviousControl, UI.modify.
  rewrite Hidx. fold ids. fold n. split; do 2 f_equal.
  - destruct (decide (Z.of_nat i = Z.of_nat n - 1)) as [E|E].
    + replace ((i + 1) mod n)%nat with 0%nat in Hnext
        by (replace (i + 1)%nat with n by lia; by rewrite Nat.Div0.mod_same).
      by apply (at_lookup ids 0).
    + rewrite Nat.mod_small in Hnext by lia.
      replace (Z.of_nat i + 1) with (Z.of_nat (i + 1)) by lia. by apply at_lookup.
  - destruct (decide (Z.of_nat i = 0)) as [E|E].
    + replace ((i + n - 1) mod n)%nat with (n - 1)%nat in Hprev
        by (replace (i + n - 1)%nat with (n - 1)%nat by lia; rewrite Nat.mod_small; lia).
      replace (Z.of_nat n - 1) with (Z.of_nat (n - 1)) by lia. by apply at_lookup.
    + replace ((i + n - 1) mod n)%nat with (i - 1)%nat in Hprev.
      * replace (Z.of_nat i - 1) with (Z.of_nat (i - 1)) by lia. by apply at_lookup.
      * replace (i + n - 1)%nat with ((i - 1) + 1 * n)%nat by lia.
        rewrite Nat.Div0.mod_add. rewrite Nat.mod_small; lia.
Qed.

(** C10. When the focus is not among the registered ids and the list is
    not empty, advancing focuses the first id and reversing leaves the
    focus [undefined]. *)
Theorem C10_focus_from_unregistered (ui : UI.t) (first : jsval) (rest : list jsval) :
  UI.focusableControlIds ui = first :: rest →
  UI.focus ui ∉ UI.focusableControlIds ui →
  UI.focusNextControl ui = UI.Ok () (UI.set_focus first ui) ∧
  UI.focusPreviousControl ui = UI.Ok () (UI.set_focus Undefined ui).
Proof.
  intros Hids Hfocus.
  unfold UI.focusNextControl, UI.focusPreviousControl, UI.modify.
  rewrite (indexOf_not_elem _ _ Hfocus), Hids. simpl length.
  rewrite decide_False by lia. rewrite decide_False by lia. done.
Qed.

(** Ids registered [A, B, C]: from B advancing gives C, from C it gives
    A, and from A reversing gives C. *)
Lemma C6_witness :
  UI.focusNextControl (focusUI (Str "B")) = UI.Ok () (focusUI (Str "C")) ∧
  UI.focusNextControl (focusUI (Str "C")) = UI.Ok () (focusUI (Str "A")) ∧
  UI.focusPreviousControl (focusUI (Str "A")) = UI.Ok () (focusUI (Str "C")).
Proof.
  assert (NoDup [Str "A"; Str "B"; Str "C"]) as Hnd
    by (apply (bool_decide_unpack _); vm_compute; exact I).
  destruct (C6_focus_cycles_in_registration_order (focusUI (Str "B")) 1 Hnd eq_refl)
    as (nextB & prevB & HnB & _ & HnextB & _).
  destruct (C6_focus_cycles_in_registration_order (focusUI (Str "C")) 2 Hnd eq_refl)
    as (nextC & prevC & HnC & _ & HnextC & _).
  destruct (C6_focus_cycles_in_registration_order (focusUI (Str "A")) 0 Hnd eq_refl)
    as (nextA & prevA & _ & HpA & _ & HprevA).
  simpl in HnB, HnC, HpA.
  injection HnB as <-. injection HnC as <-. injection HpA as <-.
  rewrite HnextB, HnextC, HprevA. repeat split; reflexivity.
Defined.

(** With the ids A, B and C registered and nothing focused, advancing
    focuses A and reversing leaves the focus undefined. *)
Lemma C10_witness :
  UI.focus (UI.stateOf (UI.focusNextControl (focusUI Null))) = Str "A" ∧
  UI.focus (UI.stateOf (UI.focusPreviousControl (focusUI Null))) = Undefined.
Proof.
  assert (UI.focus (focusUI Null) ∉ UI.focusableControlIds (focusUI Null)) as Hfocus
    by (apply (bool_decide_unpack _); vm_compute; exact I).
  destruct (C10_focus_from_unregistered (focusUI Null) (Str "A") [Str "B"; Str "C"]
              eq_refl Hfocus) as [-> ->].
  split; reflexivity.
Defined.

(** ** What running widget code preserves *)

Section FrameFacts.

Import UI.

Lemma pending_app (l k : list Widget) :
  pending (l ++ k) = (pending l + pending k)%nat.
Proof. unfold pending. by rewrite sum_list_with_app. Qed.

Lemma Frame_intro (n : nat) (strict : bool) (s s' : t) :
  trace s' = trace s → isModal s' = isModal s → screens s' = screens s →
  afterRenderCallbacks s' = afterRenderCallbacks s →
  (strict = true → isModal s = true → interaction s' = interaction s) →
  (invalidated s = true → invalidated s' = true) →
  Frame n strict s s'.
Proof.
  intros Ht Hm Hs Hq Hi Hk. repeat split; try done.
  exists []. rewrite app_nil_r. repeat split; [done| |by constructor].
  unfold pending; simpl; lia.
Qed.

Lemma Frame_refl (n : nat) (strict : bool) (s : t) : Frame n strict s s.
Proof. by apply Frame_intro. Qed.

Lemma Frame_trans (n m : nat) (strict : bool) (s1 s2 s3 : t) :
  Frame n strict s1 s2 → Frame m strict s2 s3 → Frame (n + m) strict s1 s3.
Proof.
  intros (Ht & Hm & Hs & (a1 & Hq1 & Hp1 & Hv1) & Hi1 & Hk1)
         (Ht' & Hm' & Hs' & (a2 & Hq2 & Hp2 & Hv2) & Hi2 & Hk2).
  repeat split; try congruence; [| |auto].
  - exists (a1 ++ a2). rewrite Hq2, Hq1, <- app_assoc, pending_app.
    repeat split; [lia|]. intros Hstrict. apply Forall_app; auto.
  - intros Hstrict Hmodal. rewrite Hi2, Hi1; auto. congruence.
Qed.

Lemma Frame_weaken (n n' : nat) (strict strict' : bool) (s s' : t) :
  (n ≤ n')%nat → (strict' = true → strict = true) →
  Frame n strict s s' → Frame n' strict' s s'.
Proof.
  intros Hn Hstrict (Ht & Hm & Hs & (a & Hq & Hp & Hv) & Hi & Hk).
  repeat split; try done; [|auto].
  exists a. repeat split; [done|lia|auto].
Qed.

Lemma framed_weaken {A} (n n' : nat) (strict strict' : bool) (m : M A) :
  (n ≤ n')%nat → (strict' = true → strict = true) →
  framed n strict m → framed n' strict' m.
Proof. intros Hn Hs Hm ui. eapply Frame_weaken; eauto. Qed.

Lemma framed_ret {A} (n : nat) (strict : bool) (a : A) :
  framed n strict (mret a : M A).
Proof. intros ui. apply Frame_refl. Qed.

Lemma framed_throw {A} (n : nat) (strict : bool) (e : Error) :
  framed n strict (throw e : M A).
Proof. intros ui. apply Frame_refl. Qed.

Lemma framed_gets {A} (n : nat) (strict : bool) (f : t → A) :
  framed n strict (gets f).
Proof. intros ui. apply Frame_refl. Qed.

Lemma framed_bind {A B} (n k : nat) (strict : bool) (m : M A) (f : A → M B) :
  framed n strict m → (∀ a, framed k strict (f a)) →
  framed (n + k) strict (m ≫= f).
Proof.
  intros Hm Hf ui. unfold mbind, M_bind. specialize (Hm ui).
  destruct (m ui) as [a ui'|e ui']; simpl in *.
  - eapply Frame_trans; [exact Hm|apply Hf].
  - eapply Frame_weaken; [| |exact Hm]; [lia|done].
Qed.

(** Binding a step that queues nothing. *)
Lemma framed_bind0 {A B} (k : nat) (strict : bool) (m : M A) (f : A → M B) :
  framed 0 strict m → (∀ a, framed k strict (f a)) → framed k strict (m ≫= f).
Proof. intros Hm Hf. by apply (framed_bind 0 k). Qed.

Lemma framed_modify (n : nat) (strict : bool) (f : t → t) :
  (∀ s, Frame n strict s (f s)) → framed n strict (modify f).
Proof. intros Hf ui. apply Hf. Qed.

Ltac same_frame := intros; apply Frame_intro; simpl; try done.

Lemma framed_pushId n strict id : framed n strict (pushId id).
Proof. apply framed_modify. same_frame. Qed.

Lemma framed_popId n strict : framed n strict popId.
Proof. apply framed_modify. same_frame. Qed.

Lemma framed_pushBoundingBox n strict x y w h :
  framed n strict (pushBoundingBox x y w h).
Proof. apply framed_modify. same_frame. Qed.

Lemma framed_popBoundingBox n strict : framed n strict popBoundingBox.
Proof.
  intros ui. unfold popBoundingBox. case_bool_decide; simpl; by same_frame.
Qed.

Lemma framed_pushClipRect n strict x y w h :
  framed n strict (pushClipRect x y w h).
Proof. apply framed_modify. same_frame. Qed.

Lemma framed_popClipRect n strict : framed n strict popClipRect.
Proof. apply framed_modify. same_frame. Qed.

Lemma framed_put n strict x y char fg bg layer :
  framed n strict (put x y char fg bg layer).
Proof.
  intros ui. unfold put. destruct (box ui); [|apply Frame_refl].
  destruct (forallb _ _); simpl; by same_frame.
Qed.

Lemma framed_isMouseOver n strict x y w h :
  framed n strict (isMouseOver x y w h).
Proof. intros ui. unfold isMouseOver. destruct (box ui); apply Frame_refl. Qed.

Lemma framed_orBox n strict given dflt : framed n strict (orBox given dflt).
Proof.
  intros ui. unfold orBox. destruct given, (box ui); apply Frame_refl.
Qed.

Lemma framed_evalCond n strict c : framed n strict (evalCond c).
Proof.
  destruct c; simpl; auto using framed_gets, framed_isMouseOver.
Qed.

Lemma untouched_trans (s1 s2 s3 : t) :
  untouched s1 s2 → untouched s2 s3 → untouched s1 s3.
Proof.
  intros (? & ? & ? & ? & ?) (? & ? & ? & ? & ?). repeat split; congruence.
Qed.

Lemma handleEvent_untouched (id : jsval) (e : Event) (s : t) :
  untouched s (handleEvent id e s).
Proof.
  unfold handleEvent.
  repeat match goal with
         | |- context [if ?c then _ else _] => destruct c
         end; by repeat split.
Qed.

Lemma resolveHover_untouched (id : jsval) (w h : Z) (s : t) :
  untouched s (stateOf (resolveHover id w h s)).
Proof.
  unfold resolveHover, isMouseOver, mbind, M_bind, gets, modify.
  destruct (box s); [|by repeat split].
  destruct (_ && _); [by repeat split|].
  cbn [stateOf]. case_decide; by repeat split.
Qed.

Lemma interact_untouched (id : jsval) (w h : Z) (s : t) :
  untouched s (stateOf (interact id w h s)).
Proof.
  unfold interact, mbind, M_bind, gets, addFocusableControl, modify.
  set (s1 := set_focusableControlIds (focusableControlIds s ++ [id]) s).
  assert (untouched s s1) as H1 by by repeat split.
  pose proof (resolveHover_untouched id w h s1) as H2.
  destruct (resolveHover id w h s1) as [[] s2|e s2]; cbn [stateOf] in *.
  - destruct (event s); cbn [stateOf].
    + eapply untouched_trans; [|apply handleEvent_untouched].
      by eapply untouched_trans.
    + by eapply untouched_trans.
  - by eapply untouched_trans.
Qed.

(** Outside a modal pass, the interactive block is free to resolve
    interaction. *)
Lemma framed_interact (n : nat) (strict : bool) (id : jsval) (w h : Z) (s : t) :
  isModal s = false → Frame n strict s (stateOf (interact id w h s)).
Proof.
  intros Hmodal. destruct (interact_untouched id w h s) as (? & ? & ? & ? & ?).
  apply Frame_intro; try done; intros; congruence.
Qed.

Lemma framed_Control (n : nat) (strict : bool) (props : Props.t) (callback : M unit) :
  framed n strict callback → framed n strict (Control props callback).
Proof.
  intros Hcb. unfold Control.
  apply framed_bind0; [apply framed_orBox|]; intros width.
  apply framed_bind0; [apply framed_orBox|]; intros height.
  apply framed_bind0; [apply framed_pushId|]; intros _.
  apply framed_bind0; [apply framed_pushBoundingBox|]; intros _.
  destruct (isNullish _); [apply framed_throw|].
  apply framed_bind0; [apply framed_gets|]; intros id.
  intros s. unfold mbind at 1, M_bind at 1, gets at 1.
  assert (framed n strict (callback;; popBoundingBox;; popId)) as Hrest.
  { replace n with (n + 0)%nat by lia. apply framed_bind; [done|]; intros _.
    apply framed_bind0; [apply framed_popBoundingBox|]; intros _.
    apply framed_popId. }
  destruct (negb _ && negb (isModal s)) eqn:Hgo.
  - apply andb_true_iff in Hgo as [_ Hm%negb_true_iff].
    pose proof (framed_interact 0 strict id width height s Hm) as Hi.
    unfold mbind, M_bind in *.
    destruct (interact id width height s) as [[] s'|e s']; simpl in *.
    + replace n with (0 + n)%nat by lia. eapply Frame_trans; [exact Hi|apply Hrest].
    + eapply Frame_weaken; [| |exact Hi]; [lia|done].
  - apply (Hrest s).
Qed.

Lemma framed_View (n : nat) (strict : bool) x y w h (callback : M unit) :
  framed n strict callback → framed n strict (View x y w h callback).
Proof.
  intros Hcb. unfold View.
  apply framed_bind0; [apply framed_orBox|]; intros width.
  apply framed_bind0; [apply framed_orBox|]; intros height.
  apply framed_bind0; [apply framed_pushBoundingBox|]; intros _.
  replace n with (n + 0)%nat by lia. apply framed_bind; [done|]; intros _.
  apply framed_popBoundingBox.
Qed.

(** Running a program leaves the effects, the modal flag and the screens
    alone, queues callbacks within its [registrations], and, when it keeps
    to [viaControls], resolves no interaction behind a modal screen. *)
Lemma exec_framed (w : Widget) :
  framed (registrations w) (viaControls w) (exec w).
Proof.
  induction w; simpl;
    try (by auto using framed_ret, framed_pushId, framed_popId,
           framed_pushBoundingBox, framed_popBoundingBox, framed_pushClipRect,
           framed_popClipRect, framed_put, framed_Control, framed_View).
  - apply framed_bind.
    + eapply framed_weaken; [reflexivity| |exact IHw1].
      by intros [? ?]%andb_true_iff.
    + intros _. eapply framed_weaken; [reflexivity| |exact IHw2].
      by intros [? ?]%andb_true_iff.
  - apply framed_bind0; [apply framed_evalCond|]. intros [].
    + eapply framed_weaken; [| |exact IHw1]; [lia|by intros [? ?]%andb_true_iff].
    + eapply framed_weaken; [| |exact IHw2]; [lia|by intros [? ?]%andb_true_iff].
  - apply framed_modify. same_frame.
  - apply framed_modify. intros. apply Frame_intro; simpl; done.
  - apply framed_modify. intros. apply Frame_intro; simpl; done.
  - apply framed_modify. intros. apply Frame_intro; simpl; done.
  - apply framed_modify. same_frame.
  - apply framed_modify. intros s. repeat split; simpl; try done.
    exists [w]. repeat split; [|by intros; constructor].
    unfold pending; simpl; lia.
Qed.

End FrameFacts.

(** ** The after-render callbacks *)

Section CallbackFacts.

Import UI.

Lemma drop_lookup_cons {A} (l : list A) (i : nat) (x : A) :
  l !! i = Some x → drop i l = x :: drop (S i) l.
Proof.
  revert i. induction l as [|y l IH]; intros [|i] H; simpl in *; try done.
  - by simplify_eq.
  - by apply IH.
Qed.

(** The callbacks loop returns within the fuel that the queue calls for,
    and what it runs is framed like any widget code. *)
Lemma runCallbacksFrom_pending (fuel i : nat) (ui : t) :
  (pending (drop i (afterRenderCallbacks ui)) ≤ fuel)%nat →
  ∃ r, runCallbacksFrom fuel i ui = Some r ∧
    trace (stateOf r) = trace ui ∧
    isModal (stateOf r) = isModal ui ∧
    screens (stateOf r) = screens ui ∧
    (Forall (λ w, viaControls w = true) (drop i (afterRenderCallbacks ui)) →
     isModal ui = true → interaction (stateOf r) = interaction ui).
Proof.
  revert i ui. induction fuel as [|fuel IH]; intros i ui Hfuel.
  - simpl. destruct (afterRenderCallbacks ui !! i) as [cb|] eqn:Hi.
    + rewrite (drop_lookup_cons _ _ _ Hi) in Hfuel. unfold pending in Hfuel.
      simpl in Hfuel. lia.
    + eexists. split; [done|]. by simpl.
  - simpl. destruct (afterRenderCallbacks ui !! i) as [cb|] eqn:Hi.
    + rewrite (drop_lookup_cons _ _ _ Hi). rewrite (drop_lookup_cons _ _ _ Hi) in Hfuel.
      pose proof (exec_framed cb ui)
        as (Ht & Hm & Hs & (added & Hq & Hp & Hv) & Hin & Hk).
      destruct (exec cb ui) as [[] ui'|e ui']; simpl in *.
      * destruct (IH (S i) ui') as (r & Hr & Ht' & Hm' & Hs' & Hin').
        { rewrite Hq, drop_app_le, pending_app.
          - unfold pending in *. simpl in Hfuel. lia.
          - apply lookup_lt_Some in Hi. lia. }
        exists r. split; [done|]. repeat split; try congruence.
        intros Hall Hmodal. apply Forall_cons in Hall as [Hcb Hall].
        rewrite Hin', Hin; auto; [|congruence].
        rewrite Hq, drop_app_le by (apply lookup_lt_Some in Hi; lia).
        apply Forall_app; auto.
      * eexists. split; [done|]. simpl. repeat split; try done.
        intros Hall Hmodal. apply Forall_cons in Hall as [Hcb Hall]. auto.
    + eexists. split; [done|]. by simpl.
Qed.

Lemma runCallbacks_spec (ui : t) :
  ∃ r, runCallbacksFrom (pending (afterRenderCallbacks ui)) 0 ui = Some r ∧
    runCallbacks ui = r ∧
    trace (stateOf r) = trace ui ∧
    isModal (stateOf r) = isModal ui ∧
    screens (stateOf r) = screens ui ∧
    (Forall (λ w, viaControls w = true) (afterRenderCallbacks ui) →
     isModal ui = true → interaction (stateOf r) = interaction ui).
Proof.
  destruct (runCallbacksFrom_pending (pending (afterRenderCallbacks ui)) 0 ui)
    as (r & Hr & H); [by rewrite drop_0|].
  exists r. split; [done|]. unfold runCallbacks. rewrite Hr.
  rewrite drop_0 in H. by simpl.
Qed.

Lemma runCallbacks_trace (ui : t) :
  trace (stateOf (runCallbacks ui)) = trace ui.
Proof. destruct (runCallbacks_spec ui) as (r & _ & -> & H & _). done. Qed.

Lemma renderScreens_trace (tops : list Screen.t) (ui : t) :
  trace (stateOf (renderScreens tops ui)) = trace ui.
Proof.
  revert ui. induction tops as [|screen below IH]; intros ui; [done|].
  simpl. unfold mbind, M_bind.
  pose proof (exec_framed (Screen.render screen) ui) as (Ht & _).
  destruct (exec (Screen.render screen) ui) as [[] s|e s]; simpl in *; [|done].
  destruct (Screen.isOpaque screen); [done|].
  destruct (Screen.isModal screen); simpl; rewrite IH; done.
Qed.

Lemma renderScreensOfPass_trace (ui : t) :
  trace (stateOf (renderScreensOfPass ui)) = trace ui.
Proof.
  unfold renderScreensOfPass, beginPass, mbind, M_bind, modify, gets,
    pushBoundingBox; simpl.
  by rewrite renderScreens_trace.
Qed.

(** After a pass that settled, [render] flushes. *)
Lemma render_settled (ui s : t) :
  renderPass ui = Ok () s → invalidated s = false →
  render ui = flush s.
Proof.
  intros Hpass Hinv. unfold render, MAX_RENDERS_PER_FRAME. simpl renderLoop.
  unfold mbind, M_bind. rewrite Hpass. unfold gets. by rewrite Hinv.
Qed.

(** After a pass that invalidated the UI, [render] calls a method that
    the terminal does not have. *)
Lemma render_invalidated (ui s : t) :
  renderPass ui = Ok () s → invalidated s = true →
  render ui =
    Throw (TypeError "this.terminal.clearDrawingBuffer is not a function") s.
Proof.
  intros Hpass Hinv. unfold render, MAX_RENDERS_PER_FRAME. simpl renderLoop.
  unfold mbind, M_bind. rewrite Hpass. unfold gets. by rewrite Hinv.
Qed.

Lemma beginPass_ok (ui : t) : beginPass ui = Ok () (stateOf (beginPass ui)).
Proof. reflexivity. Qed.

End CallbackFacts.

(** ** What the render loop does *)

Section LoopFacts.

Import UI.

Lemma flushes_app (l k : list Effect) :
  flushes (l ++ k) = (flushes l + flushes k)%nat.
Proof.
  induction l as [|e l IH]; [done|]. destruct e; simpl; rewrite ?IH; done.
Qed.

Lemma runCallbacksFrom_keeps (fuel i : nat) (ui : t) (r : Res unit) :
  runCallbacksFrom fuel i ui = Some r →
  invalidated ui = true → invalidated (stateOf r) = true.
Proof.
  revert i ui. induction fuel as [|fuel IH]; intros i ui; simpl;
    destruct (afterRenderCallbacks ui !! i) as [cb|]; try done;
    try (intros; by simplify_eq).
  pose proof (exec_framed cb ui) as (_ & _ & _ & _ & _ & Hk).
  destruct (exec cb ui) as [[] ui'|e ui']; simpl in *.
  - intros Hr Hinv. eapply IH; eauto.
  - intros; simplify_eq; auto.
Qed.

Lemma runCallbacks_keeps (ui : t) :
  invalidated ui = true → invalidated (stateOf (runCallbacks ui)) = true.
Proof.
  destruct (runCallbacks_spec ui) as (r & Hr & <- & _).
  intros Hinv. by eapply runCallbacksFrom_keeps.
Qed.

(** Once the UI is invalidated, the rest of the loop over the screens
    leaves it so, and the screens are never changed. *)
Lemma renderScreens_keeps (tops : list Screen.t) (ui : t) :
  screens (stateOf (renderScreens tops ui)) = screens ui ∧
  (invalidated ui = true → invalidated (stateOf (renderScreens tops ui)) = true).
Proof.
  revert ui. induction tops as [|screen below IH]; intros ui; [done|].
  simpl. unfold mbind, M_bind.
  pose proof (exec_framed (Screen.render screen) ui) as (_ & _ & Hs & _ & _ & Hk).
  destruct (exec (Screen.render screen) ui) as [[] s|e s]; simpl in *; [|done].
  destruct (Screen.isOpaque screen); [done|].
  destruct (Screen.isModal screen); simpl.
  - destruct (IH (set_isModal true s)) as [-> Hk']. simpl. split; [done|auto].
  - destruct (IH s) as [-> Hk']. split; [done|auto].
Qed.

Lemma finishPass_keeps (s : t) :
  screens (stateOf (finishPass s)) = screens s ∧
  flushes (trace (stateOf (finishPass s))) = flushes (trace s) ∧
  (invalidated s = true → invalidated (stateOf (finishPass s)) = true).
Proof.
  destruct (decide (0 < length (boundingBoxStack s))%nat) as [Hpos|Hempty].
  - set (popped := set_box (last (removelast (boundingBoxStack s)))
                     (set_boundingBoxStack (removelast (boundingBoxStack s)) s)).
    set (checked := stateOf (checkBoundingBoxStack popped)).
    assert (finishPass s = runCallbacks checked) as ->.
    { unfold finishPass, mbind, M_bind, popBoundingBox.
      by rewrite bool_decide_eq_true_2. }
    assert (screens checked = screens s ∧
            flushes (trace checked) = flushes (trace s) ∧
            invalidated checked = invalidated s) as (Hs & Hf & Hi).
    { unfold checked, checkBoundingBoxStack, modify. cbn [stateOf].
      case_bool_decide; cbn [screens trace invalidated set_trace popped set_box
        set_boundingBoxStack]; rewrite ?flushes_app; simpl; auto with lia. }
    destruct (runCallbacks_spec checked) as (r & _ & Hr & Ht & _ & Hs' & _).
    pose proof (runCallbacks_keeps checked) as Hk. rewrite Hr in *.
    rewrite Ht, Hs', Hs, Hf. repeat split. intros Hinv. apply Hk. congruence.
  - assert (finishPass s = Throw (JsError "Cannot pop the root bounding box!") s) as ->.
    { unfold finishPass, mbind, M_bind, popBoundingBox.
      by rewrite bool_decide_eq_false_2. }
    simpl. auto.
Qed.

(** A pass changes no screen and flushes nothing. *)
Lemma renderPass_keeps (s : t) :
  screens (stateOf (renderPass s)) = screens s ∧
  flushes (trace (stateOf (renderPass s))) = flushes (trace s).
Proof.
  pose proof (renderScreensOfPass_trace s) as Ht.
  assert (screens (stateOf (renderScreensOfPass s)) = screens s) as Hs.
  { unfold renderScreensOfPass, mbind, M_bind. rewrite beginPass_ok.
    unfold gets. by destruct (renderScreens_keeps
      (reverse (screens (stateOf (beginPass s)))) (stateOf (beginPass s))) as [-> _]. }
  unfold renderPass, mbind, M_bind.
  destruct (renderScreensOfPass s) as [[] s1|e s1]; simpl in *.
  - destruct (finishPass_keeps s1) as (-> & -> & _). by rewrite Ht.
  - by rewrite Ht.
Qed.

Lemma invalidates_bind_l {A B} (n : nat) (strict : bool) (m : M A) (f : A → M B) :
  invalidates m → (∀ a, framed n strict (f a)) → invalidates (m ≫= f).
Proof.
  intros Hm Hf s. unfold mbind, M_bind. specialize (Hm s).
  destruct (m s) as [a s1|e s1]; [|done].
  destruct (Hf a s1) as (_ & _ & _ & _ & _ & Hk).
  destruct (f a s1); simpl in *; auto.
Qed.

Lemma invalidates_bind_r {A B} (m : M A) (f : A → M B) :
  (∀ a, invalidates (f a)) → invalidates (m ≫= f).
Proof.
  intros Hf s. unfold mbind, M_bind. destruct (m s) as [a s1|e s1]; [|done].
  apply Hf.
Qed.

(** A program that calls [invalidate()] on every path returns only with
    the UI invalidated. *)
Lemma exec_invalidates (w : Widget) :
  callsInvalidate w = true → invalidates (exec w).
Proof.
  induction w; simpl; try done.
  - intros [Ha|Hb]%orb_true_iff.
    + eapply invalidates_bind_l; [auto|]. intros _. apply exec_framed.
    + apply invalidates_bind_r. auto.
  - intros [Ha Hb]%andb_true_iff. apply invalidates_bind_r. intros []; auto.
  - intros Hcb. unfold Control.
    do 4 (apply invalidates_bind_r; intros ?).
    destruct (isNullish _); [by intros ?; cbv|].
    do 3 (apply invalidates_bind_r; intros ?).
    eapply (invalidates_bind_l 0 false); [auto|]. intros _.
    apply framed_bind0; [apply framed_popBoundingBox|]. intros _.
    apply framed_popId.
  - intros Hcb. unfold View.
    do 3 (apply invalidates_bind_r; intros ?).
    eapply (invalidates_bind_l 0 false); [auto|]. intros _.
    apply framed_popBoundingBox.
Qed.

(** When the topmost screen calls [invalidate()] on every path, a pass
    that returns leaves the UI invalidated. *)
Lemma renderPass_invalidated (s s' : t) (below : list Screen.t) (top : Screen.t) :
  screens s = below ++ [top] →
  callsInvalidate (Screen.render top) = true →
  renderPass s = Ok () s' → invalidated s' = true.
Proof.
  intros Hscreens Htop.
  unfold renderPass, renderScreensOfPass. unfold mbind at 1 2 3, M_bind at 1 2 3.
  rewrite beginPass_ok. unfold gets.
  assert (screens (stateOf (beginPass s)) = screens s) as -> by reflexivity.
  rewrite Hscreens, reverse_snoc. cbn [renderScreens].
  unfold mbind at 1, M_bind at 1.
  pose proof (exec_invalidates _ Htop (stateOf (beginPass s))) as Hinv.
  destruct (exec (Screen.render top) (stateOf (beginPass s))) as [[] s1|e s1];
    [|done].
  match goal with
  | |- match ?m s1 with _ => _ end = _ → _ =>
      assert (invalidated (stateOf (m s1)) = true) as Hloop
  end.
  { destruct (Screen.isOpaque top); [done|].
    unfold mbind, M_bind, modify.
    destruct (Screen.isModal top); simpl; by apply renderScreens_keeps. }
  match goal with
  | |- match ?m s1 with _ => _ end = _ → _ => destruct (m s1) as [[] s2|e s2]
  end; [|done].
  intros Hfinish. destruct (finishPass_keeps s2) as (_ & _ & Hk).
  rewrite Hfinish in Hk. auto.
Qed.

(** The loop flushes nothing; [render] flushes once when it returns, and
    not at all when it throws. *)
Lemma renderLoop_flushes (method : option (Terminal.t → Terminal.t)) (n : nat) (s : t) :
  flushes (trace (stateOf (renderLoop method n s))) = flushes (trace s).
Proof.
  revert s. induction n as [|n IH]; intros s; [done|].
  simpl. unfold mbind, M_bind, gets.
  destruct (renderPass_keeps s) as [_ Hf].
  destruct (renderPass s) as [[] s1|e s1]; simpl in *; [|done].
  destruct (invalidated s1); [|done].
  destruct method as [f|]; simpl; [|done].
  by rewrite IH.
Qed.

Lemma render_flushes_once (method : option (Terminal.t → Terminal.t)) (n : nat) (ui : t) :
  flushes (trace (stateOf ((renderLoop method n;; flush) ui))) =
  if isOk ((renderLoop method n;; flush) ui)
  then S (flushes (trace ui)) else flushes (trace ui).
Proof.
  unfold mbind, M_bind. pose proof (renderLoop_flushes method n ui) as Hf.
  destruct (renderLoop method n ui) as [[] s|e s]; simpl in *; [|done].
  rewrite flushes_app, Hf. simpl. lia.
Qed.

(** When the topmost screen calls [invalidate()] on every path, no pass
    settles: on a terminal with a [clearDrawingBuffer] method the loop
    runs all of its [n] passes, unless one of them throws. *)
Lemma renderLoop_never_settles
    (method : option (Terminal.t → Terminal.t)) (n : nat) (ui : t)
    (below : list Screen.t) (top : Screen.t) :
  screens ui = below ++ [top] →
  callsInvalidate (Screen.render top) = true →
  renderLoop method n ui = repeatPasses method n ui.
Proof.
  intros Hscreens Htop. revert ui Hscreens.
  induction n as [|n IH]; intros ui Hscreens; [done|].
  simpl. unfold mbind, M_bind, gets.
  pose proof (renderPass_invalidated ui) as Hinv.
  destruct (renderPass_keeps ui) as [Hs _].
  destruct (renderPass ui) as [[] s1|e s1]; simpl in *; [|done].
  rewrite (Hinv s1 below top) by done.
  destruct method as [f|]; simpl; [|done].
  apply IH. simpl. congruence.
Qed.

End LoopFacts.

(** ** The coordinate stacks *)

Lemma popBoundingBox_empty (ui : UI.t) :
  UI.boundingBoxStack ui = [] →
  UI.popBoundingBox ui = UI.Throw (JsError "Cannot pop the root bounding box!") ui.
Proof. intros E. unfold UI.popBoundingBox. by rewrite E. Qed.

Lemma popBoundingBox_top (ui : UI.t) (rest : list Rect.t) (top : Rect.t) :
  UI.boundingBoxStack ui = rest ++ [top] →
  UI.popBoundingBox ui =
    UI.Ok () (UI.set_box (last rest) (UI.set_boundingBoxStack rest ui)).
Proof.
  intros E. unfold UI.popBoundingBox. rewrite E, removelast_last.
  rewrite bool_decide_eq_true_2; [done|]. rewrite length_app; simpl; lia.
Qed.

Lemma popClipRect_empty (ui : UI.t) :
  UI.clipRectStack ui = [] →
  UI.popClipRect ui = UI.Ok () (UI.set_clip None (UI.set_clipRectStack [] ui)).
Proof. intros E. unfold UI.popClipRect, UI.modify. by rewrite E. Qed.

Lemma popClipRect_top (ui : UI.t) (rest : list Rect.t) (top : Rect.t) :
  UI.clipRectStack ui = rest ++ [top] →
  UI.popClipRect ui =
    UI.Ok () (UI.set_clip (last rest) (UI.set_clipRectStack rest ui)).
Proof.
  intros E. unfold UI.popClipRect, UI.modify. by rewrite E, removelast_last.
Qed.

(** What the two pops do: [popBoundingBox] on an empty stack throws
    "Cannot pop the root bounding box!" and changes nothing; [popClipRect]
    on an empty stack returns normally with the stack still empty and no
    current clip.  On a stack [rest ++ [top]] each removes [top] and makes
    the last entry of [rest], if any, the current box or clip. *)
Lemma pop_restores_previous_top (ui : UI.t) :
  (UI.boundingBoxStack ui = [] →
   UI.popBoundingBox ui = UI.Throw (JsError "Cannot pop the root bounding box!") ui) ∧
  (∀ rest top, UI.boundingBoxStack ui = rest ++ [top] →
   UI.popBoundingBox ui =
     UI.Ok () (UI.set_box (last rest) (UI.set_boundingBoxStack rest ui))) ∧
  (UI.clipRectStack ui = [] →
   UI.popClipRect ui = UI.Ok () (UI.set_clip None (UI.set_clipRectStack [] ui))) ∧
  (∀ rest top, UI.clipRectStack ui = rest ++ [top] →
   UI.popClipRect ui =
     UI.Ok () (UI.set_clip (last rest) (UI.set_clipRectStack rest ui))).
Proof.
  split; [apply popBoundingBox_empty|].
  split; [apply popBoundingBox_top|].
  split; [apply popClipRect_empty|apply popClipRect_top].
Qed.

(** C3 (what the code does). On a new UI, whose two stacks are empty,
    [popBoundingBox] throws "Cannot pop the root bounding box!" while
    [popClipRect] returns normally and leaves the UI as it was: the
    underflow of the clip stack is not reported. *)
Theorem C3_popClipRect_underflow_is_silent :
  UI.boundingBoxStack (UI.new sampleTerminal) = [] ∧
  UI.clipRectStack (UI.new sampleTerminal) = [] ∧
  UI.popBoundingBox (UI.new sampleTerminal) =
    UI.Throw (JsError "Cannot pop the root bounding box!") (UI.new sampleTerminal) ∧
  UI.popClipRect (UI.new sampleTerminal) = UI.Ok () (UI.new sampleTerminal).
Proof. repeat split; reflexivity. Qed.

(** ** The Control primitive without an id *)

(** C9. Called with a [null] or [undefined] id, where a box is current
    or both sizes are given, [Control] throws "Control must have an id!"
    after it has pushed the id and the control's box: at the throw the id
    stack and the bounding box stack are one entry longer than before, and
    the callback has not run. *)
Theorem C9_control_without_id_throws_after_pushing
    (ui : UI.t) (props : Props.t) (callback : UI.M unit) :
  isNullish (Props.id props) = true →
  is_Some (UI.box ui) ∨ (is_Some (Props.width props) ∧ is_Some (Props.height props)) →
  ∃ width height,
    let box := UI.relativeTo (UI.box ui) (default 0 (Props.x props))
                 (default 0 (Props.y props)) width height in
    let ids := UI.idStack ui ++ [Props.id props] in
    let ui' :=
      UI.set_box (Some box)
        (UI.set_boundingBoxStack (UI.boundingBoxStack ui ++ [box])
           (UI.set_currentId (Str (join "/" ids)) (UI.set_idStack ids ui))) in
    UI.Control props callback ui = UI.Throw (JsError "Control must have an id!") ui' ∧
    length (UI.idStack ui') = S (length (UI.idStack ui)) ∧
    length (UI.boundingBoxStack ui') = S (length (UI.boundingBoxStack ui)) ∧
    ui' ≠ ui.
Proof.
  intros Hid Hbox.
  assert (∃ width height,
            UI.orBox (Props.width props) Rect.width ui = UI.Ok width ui ∧
            UI.orBox (Props.height props) Rect.height ui = UI.Ok height ui)
    as (width & height & Hw & Hh).
  { unfold UI.orBox. destruct Hbox as [[b ->]|[[w ->] [h ->]]].
    - destruct (Props.width props), (Props.height props); eauto.
    - eauto. }
  exists width, height. intros box ids ui'.
  assert (length (UI.idStack ui') = S (length (UI.idStack ui))) as Hlen.
  { unfold ui', ids; simpl. rewrite length_app; simpl; lia. }
  repeat split.
  - unfold UI.Control, mbind, UI.M_bind. rewrite Hw, Hh. simpl. by rewrite Hid.
  - done.
  - unfold ui', ids; simpl. rewrite length_app; simpl; lia.
  - intros E. rewrite E in Hlen. lia.
Qed.

Lemma C9_witness :
  UI.isOk (UI.Control (Props.mk Undefined None None (Some 2) (Some 1) None)
             (mret ()) (UI.new sampleTerminal)) = false.
Proof.
  destruct (C9_control_without_id_throws_after_pushing (UI.new sampleTerminal)
              (Props.mk Undefined None None (Some 2) (Some 1) None) (mret ()))
    as (width & height & Hthrow & _).
  - reflexivity.
  - right. split; eexists; reflexivity.
  - rewrite Hthrow. reflexivity.
Defined.

(** ** The post-pass check and the flush *)

(** What the post-pass check does. When the screens of a pass have rendered
    and the bounding box stack then holds [rest ++ [top]], the pass pops
    [top] and, when [rest] is not empty, warns on the console and logs
    [rest], and in either case goes on to the after-render callbacks; the
    clip stack plays no part in this.  When the pass ends with the UI not
    invalidated, [render] flushes the terminal once. *)
Lemma unbalanced_boxes_are_reported
    (ui s : UI.t) (rest : list Rect.t) (top : Rect.t) :
  UI.renderScreensOfPass ui = UI.Ok () s →
  UI.boundingBoxStack s = rest ++ [top] →
  let popped := UI.set_box (last rest) (UI.set_boundingBoxStack rest s) in
  let report := [ConsoleWarn UI.stackWarning; ConsoleLog rest] in
  (rest ≠ [] →
   UI.renderPass ui = UI.runCallbacks (UI.set_trace (UI.trace ui ++ report) popped) ∧
   UI.trace (UI.stateOf (UI.renderPass ui)) = UI.trace ui ++ report) ∧
  (rest = [] →
   UI.renderPass ui = UI.runCallbacks popped ∧
   UI.trace (UI.stateOf (UI.renderPass ui)) = UI.trace ui) ∧
  (∀ s2, UI.renderPass ui = UI.Ok () s2 → UI.invalidated s2 = false →
   UI.render ui =
     UI.Ok () (UI.set_trace (UI.trace s2 ++ [TerminalRender])
                 (UI.set_terminal (Terminal.render (UI.terminal s2)) s2))).
Proof.
  intros Hscreens Hstack popped report.
  pose proof (renderScreensOfPass_trace ui) as Htrace.
  rewrite Hscreens in Htrace; simpl in Htrace.
  assert (UI.popBoundingBox s = UI.Ok () popped) as Hpop.
  { by apply (popBoundingBox_top s rest top). }
  assert (UI.renderPass ui = UI.runCallbacks (UI.stateOf (UI.checkBoundingBoxStack popped)))
    as Hpass.
  { unfold UI.renderPass, UI.finishPass, mbind, UI.M_bind.
    by rewrite Hscreens, Hpop. }
  split; [|split].
  - intros Hrest. rewrite Hpass.
    assert (UI.stateOf (UI.checkBoundingBoxStack popped)
            = UI.set_trace (UI.trace ui ++ report) popped) as ->.
    { unfold UI.checkBoundingBoxStack, UI.modify; simpl.
      rewrite bool_decide_eq_true_2 by (destruct rest; [done|simpl; lia]).
      by rewrite Htrace. }
    split; [done|]. by rewrite runCallbacks_trace.
  - intros ->. rewrite Hpass. simpl. split; [done|].
    by rewrite runCallbacks_trace.
  - intros s2 Hs2 Hinv. by rewrite (render_settled ui s2).
Qed.

(** C4 (what the code does). A screen that leaves a bounding box on
    the stack is reported on the console, and the frame is flushed; a
    screen that leaves a clip rect on the stack is rendered and flushed
    with no console output at all, and the rect is still on the clip stack
    when [render] returns. *)
Theorem C4_unmatched_clip_rect_is_not_reported :
  UI.trace (UI.stateOf (UI.render leftBoxUI)) =
    [ConsoleWarn UI.stackWarning; ConsoleLog [Rect.mk 0 0 3 2]; TerminalRender] ∧
  UI.isOk (UI.render leftClipUI) = true ∧
  UI.clipRectStack (UI.stateOf (UI.render leftClipUI)) = [Rect.mk 0 0 1 1] ∧
  UI.trace (UI.stateOf (UI.render leftClipUI)) = [TerminalRender].
Proof. repeat split; vm_compute; reflexivity. Qed.

(** ** The bounded render loop *)

(** C5 (what the code does). With one screen whose hook calls
    [invalidate()], the first pass ends invalidated and [render] throws a
    [TypeError] in the state that pass left: no further pass runs and the
    terminal is not flushed. *)
Theorem C5_render_throws_after_an_invalidated_pass :
  ∃ s, UI.renderPass invalidatingUI = UI.Ok () s ∧
    UI.invalidated s = true ∧
    UI.render invalidatingUI =
      UI.Throw (TypeError "this.terminal.clearDrawingBuffer is not a function") s ∧
    UI.flushes (UI.trace s) = 0%nat ∧
    Terminal.gl (UI.terminal s) = [].
Proof.
  eexists. split; [vm_compute; reflexivity|].
  repeat split; vm_compute; reflexivity.
Qed.

(** The bound of the loop itself: on a terminal object that had a
    [clearDrawingBuffer] method, whatever it did, a screen that leaves a
    box on the stack and invalidates in every pass would be rendered in
    exactly [MAX_RENDERS_PER_FRAME] passes (one warning each), followed by
    one flush. *)
Lemma renderLoop_with_method_is_bounded (method : Terminal.t → Terminal.t) :
  let hook := Seq (PushBoundingBox 0 0 1 1) Invalidate in
  let r := (UI.renderLoop (Some method) UI.MAX_RENDERS_PER_FRAME;; UI.flush)
             (sampleUI [Screen.mk hook false false]) in
  let isWarn e := match e with ConsoleWarn _ => true | _ => false end in
  let isFlush e := match e with TerminalRender => true | _ => false end in
  UI.isOk r = true ∧
  length (List.filter isWarn (UI.trace (UI.stateOf r))) = 10%nat ∧
  length (List.filter isFlush (UI.trace (UI.stateOf r))) = 1%nat ∧
  last (UI.trace (UI.stateOf r)) = Some TerminalRender.
Proof. repeat split; vm_compute; reflexivity. Qed.

(** ** Modal screens *)

Section ModalFacts.

Import UI.

(** Behind a modal screen, a program that keeps to [viaControls]
    resolves no interaction. *)
Lemma exec_behind_modal (w : Widget) (s : t) :
  viaControls w = true → isModal s = true →
  interaction (stateOf (exec w s)) = interaction s ∧
  isModal (stateOf (exec w s)) = true ∧
  ∃ added,
    afterRenderCallbacks (stateOf (exec w s)) = afterRenderCallbacks s ++ added ∧
    Forall (λ w, viaControls w = true) added.
Proof.
  intros Hw Hmodal.
  destruct (exec_framed w s) as (_ & Hm & _ & (added & Hq & _ & Hv) & Hi & _).
  rewrite Hw in *. repeat split; [auto|congruence|].
  exists added. auto.
Qed.

Lemma finishPass_behind_modal (s : t) :
  isModal s = true →
  Forall (λ w, viaControls w = true) (afterRenderCallbacks s) →
  interaction (stateOf (finishPass s)) = interaction s.
Proof.
  intros Hmodal Hqueue. unfold finishPass, mbind, M_bind.
  unfold popBoundingBox at 1. case_bool_decide; [|done].
  unfold checkBoundingBoxStack, modify.
  match goal with |- context [runCallbacks ?s'] => set (checked := s') end.
  destruct (runCallbacks_spec checked) as (r & _ & -> & _ & _ & _ & Hi).
  rewrite Hi.
  - unfold checked. by case_bool_decide.
  - unfold checked. by case_bool_decide.
  - unfold checked. by case_bool_decide.
Qed.

Lemma handleEvent_hover (id : jsval) (e : Event) (s : t) :
  hover (handleEvent id e s) = hover s ∧
  focusableControlIds (handleEvent id e s) = focusableControlIds s.
Proof.
  unfold handleEvent.
  repeat match goal with
         | |- context [if ?c then _ else _] => destruct c
         end; done.
Qed.

Lemma orBox_box (s : t) (b : Rect.t) (given : option Z) (dflt : Rect.t → Z) :
  box s = Some b → orBox given dflt s = Ok (default (dflt b) given) s.
Proof. intros E. unfold orBox. rewrite E. by destruct given. Qed.

(** With a current box [b], the interactive block returns normally,
    having registered the id and, when the pointer is inside the control
    and the cell is visible, claimed hover. *)
Lemma interact_resolves (id : jsval) (w h : Z) (s : t) (b : Rect.t) :
  box s = Some b →
  ∃ s', interact id w h s = Ok () s' ∧
    focusableControlIds s' = focusableControlIds s ++ [id] ∧
    (isPointInside (Mouse.x (mouse s)) (Mouse.y (mouse s))
       (Rect.x b) (Rect.y b) (Rect.x b + w - 1) (Rect.y b + h - 1) = true →
     isCellVisible s (Mouse.x (mouse s)) (Mouse.y (mouse s)) = true →
     hover s' = id).
Proof.
  intros Hbox.
  unfold interact, resolveHover, isMouseOver, addFocusableControl.
  unfold mbind, M_bind, gets, modify.
  cbn [box set_focusableControlIds mouse default from_option Datatypes.id].
  rewrite Hbox, !Z.add_0_r.
  unfold isCellVisible. cbn [clip set_focusableControlIds mouse].
  destruct (isPointInside _ _ _ _ _ _ && _) eqn:Hover.
  - destruct (event s) as [e|]; eexists; (split; [reflexivity|]).
    + match goal with |- context [handleEvent id e ?s'] =>
        destruct (handleEvent_hover id e s') as [-> ->] end. done.
    + done.
  - apply andb_false_iff in Hover.
    destruct (event s) as [e|]; eexists; (split; [reflexivity|]).
    + match goal with |- context [handleEvent id e ?s'] =>
        destruct (handleEvent_hover id e s') as [-> ->] end.
      split; [by case_decide|]. intros; destruct Hover; congruence.
    + split; [by case_decide|]. intros; destruct Hover; congruence.
Qed.

(** In a pass that is not modal, an enabled control with an id registers
    its qualified id and resolves hover before its callback runs. *)
Lemma Control_interactive (s : t) (props : Props.t) (callback : M unit) (b : Rect.t) :
  isModal s = false → box s = Some b →
  isNullish (Props.id props) = false → Props.disabled props ≠ Some true →
  let qid := Str (join "/" (idStack s ++ [Props.id props])) in
  let width := default (Rect.width b) (Props.width props) in
  let height := default (Rect.height b) (Props.height props) in
  let x0 := default 0 (Props.x props) + Rect.x b in
  let y0 := default 0 (Props.y props) + Rect.y b in
  ∃ resolved,
    Control props callback s = (callback;; popBoundingBox;; popId) resolved ∧
    focusableControlIds resolved = focusableControlIds s ++ [qid] ∧
    (isPointInside (Mouse.x (mouse s)) (Mouse.y (mouse s))
       x0 y0 (x0 + width - 1) (y0 + height - 1) = true →
     isCellVisible s (Mouse.x (mouse s)) (Mouse.y (mouse s)) = true →
     hover resolved = qid).
Proof.
  intros Hmodal Hbox Hid Hdisabled qid width height x0 y0.
  assert (default false (Props.disabled props) = false) as Hen.
  { destruct (Props.disabled props) as [[]|]; done. }
  unfold Control. unfold mbind at 1 2 3 4 5 6, M_bind at 1 2 3 4 5 6.
  rewrite !(orBox_box s b) by done. fold width height.
  unfold pushId, pushBoundingBox, modify. rewrite Hid.
  unfold getId, gets.
  set (entered :=
         set_box (Some (Rect.mk x0 y0 width height))
           (set_boundingBoxStack (boundingBoxStack s ++ [Rect.mk x0 y0 width height])
              (set_currentId qid (set_idStack (idStack s ++ [Props.id props]) s)))).
  assert (box entered = Some (Rect.mk x0 y0 width height)) as Hentered by done.
  destruct (interact_resolves qid width height entered _ Hentered)
    as (resolved & Hresolved & Hids & Hhover).
  exists resolved.
  match goal with
  | |- context [interact (currentId ?E) width height] =>
      assert (E = entered) as -> by (unfold entered; cbn; by rewrite Hbox)
  end.
  change (currentId entered) with qid.
  change (isModal entered) with (isModal s).
  rewrite Hmodal, Hen. cbn [negb andb]. cbv beta iota.
  unfold mbind at 1, M_bind at 1. rewrite Hresolved.
  split; [done|]. split; [done|]. exact Hhover.
Qed.

End ModalFacts.

(** C7. In a pass over the stack [base; dialog], where [dialog] is modal
    and not opaque and [base] reaches the focusable list and the focus
    only through [Control]: the pass starts with the modal flag off, and
    no widget code changes the flag, so that it is off for all of
    [dialog]'s hook and each of its enabled controls registers its id and
    resolves hover; if that hook throws,
    [base] is not rendered; otherwise [base]'s hook runs with the flag on
    and leaves focus, hover, active and the focusable list exactly as
    [dialog]'s hook left them, at the end of the loop over the screens and,
    when the callbacks [dialog] queued keep to [viaControls] as well, at
    the end of the pass. *)
Theorem C7_modal_screen_suppresses_controls_below
    (ui : UI.t) (base dialog : Screen.t) :
  UI.screens ui = [base; dialog] →
  Screen.isModal dialog = true → Screen.isOpaque dialog = false →
  UI.viaControls (Screen.render base) = true →
  let start := UI.stateOf (UI.beginPass ui) in
  let dialogRun := UI.exec (Screen.render dialog) start in
  UI.beginPass ui = UI.Ok () start ∧
  UI.isModal start = false ∧
  (∀ w s, UI.isModal (UI.stateOf (UI.exec w s)) = UI.isModal s) ∧
  (∀ s props callback b,
     UI.isModal s = false → UI.box s = Some b →
     isNullish (Props.id props) = false → Props.disabled props ≠ Some true →
     let qid := Str (join "/" (UI.idStack s ++ [Props.id props])) in
     let width := default (Rect.width b) (Props.width props) in
     let height := default (Rect.height b) (Props.height props) in
     let x0 := default 0 (Props.x props) + Rect.x b in
     let y0 := default 0 (Props.y props) + Rect.y b in
     ∃ resolved,
       UI.Control props callback s =
         (callback;; UI.popBoundingBox;; UI.popId) resolved ∧
       UI.focusableControlIds resolved = UI.focusableControlIds s ++ [qid] ∧
       (isPointInside (Mouse.x (UI.mouse s)) (Mouse.y (UI.mouse s))
          x0 y0 (x0 + width - 1) (y0 + height - 1) = true →
        UI.isCellVisible s (Mouse.x (UI.mouse s)) (Mouse.y (UI.mouse s)) = true →
        UI.hover resolved = qid)) ∧
  (∀ e s, dialogRun = UI.Throw e s → UI.renderScreensOfPass ui = UI.Throw e s) ∧
  (∀ s1, dialogRun = UI.Ok () s1 →
     let behind := UI.set_isModal true s1 in
     UI.isModal behind = true ∧
     UI.interaction (UI.stateOf (UI.exec (Screen.render base) behind))
       = UI.interaction s1 ∧
     UI.interaction (UI.stateOf (UI.renderScreensOfPass ui)) = UI.interaction s1 ∧
     (Forall (λ w, UI.viaControls w = true) (UI.afterRenderCallbacks s1) →
      UI.interaction (UI.stateOf (UI.renderPass ui)) = UI.interaction s1)).
Proof.
  intros Hscreens Hmodal Hopaque Hbase start dialogRun.
  assert (UI.renderScreensOfPass ui =
          UI.renderScreens [dialog; base] start) as Hpass.
  { unfold UI.renderScreensOfPass, mbind, UI.M_bind. rewrite beginPass_ok.
    fold start. unfold UI.gets.
    assert (UI.screens start = UI.screens ui) as -> by reflexivity.
    by rewrite Hscreens. }
  assert (UI.isModal start = false) as Hstart by reflexivity.
  split; [apply beginPass_ok|]. split; [done|]. split.
  { intros w s. by destruct (exec_framed w s) as (_ & -> & _). }
  split; [intros; by apply Control_interactive|]. split.
  - intros e s Hthrow. rewrite Hpass. simpl. unfold mbind, UI.M_bind.
    fold dialogRun. by rewrite Hthrow.
  - intros s1 Hs1 behind.
    destruct (exec_behind_modal (Screen.render base) behind Hbase eq_refl)
      as (Hinert & Hflag & added & Hqueue & Hadded).
    assert (UI.interaction (UI.stateOf (UI.exec (Screen.render base) behind))
            = UI.interaction s1) as Hinert' by (by rewrite Hinert).
    assert (∃ r, UI.renderScreensOfPass ui = r ∧
                 UI.interaction (UI.stateOf r) = UI.interaction s1 ∧
                 UI.isModal (UI.stateOf r) = true ∧
                 UI.afterRenderCallbacks (UI.stateOf r)
                   = UI.afterRenderCallbacks s1 ++ added)
      as (r & Hr & Hri & Hrm & Hrq).
    { eexists. split; [exact Hpass|]. cbn [UI.renderScreens].
      unfold mbind, UI.M_bind.
      fold dialogRun. rewrite Hs1, Hopaque, Hmodal. unfold UI.modify.
      fold behind.
      destruct (UI.exec (Screen.render base) behind) as [[] s2|e s2];
        cbn [UI.stateOf] in *; [|done].
      destruct (Screen.isOpaque base); [done|].
      destruct (Screen.isModal base); cbn [UI.stateOf mret UI.M_ret];
        repeat split; assumption. }
    split; [done|]. split; [done|]. split; [by rewrite Hr|].
    intros Hdialog. unfold UI.renderPass, mbind, UI.M_bind. rewrite Hr.
    destruct r as [[] s2|e s2]; simpl in *; [|done].
    rewrite finishPass_behind_modal; [done|done|].
    rewrite Hrq. by apply Forall_app.
Qed.

(** With the pointer pressed on a cell that a button of each screen
    covers, the dialog's button takes focus, hover and active and is the
    only focusable control. *)
Lemma C7_witness :
  UI.interaction
    (UI.stateOf
       (UI.renderPass
          (pressedUI [Screen.mk (sampleButton "base") false false;
                      Screen.mk (sampleButton "dialog") true false])))
  = (Str "dialog", Str "dialog", Str "dialog", [Str "dialog"]).
Proof.
  set (base := Screen.mk (sampleButton "base") false false).
  set (dialog := Screen.mk (sampleButton "dialog") true false).
  destruct (C7_modal_screen_suppresses_controls_below
              (pressedUI [base; dialog]) base dialog eq_refl eq_refl eq_refl eq_refl)
    as (_ & _ & _ & _ & _ & Hbehind).
  destruct (UI.exec (Screen.render dialog) (UI.stateOf (UI.beginPass (pressedUI [base; dialog]))))
    as [[] s1|e s1] eqn:Hs1; [|by vm_compute in Hs1].
  destruct (Hbehind s1 eq_refl) as (_ & _ & _ & Hpass).
  rewrite Hpass.
  - assert (UI.interaction (UI.stateOf (UI.exec (Screen.render dialog)
              (UI.stateOf (UI.beginPass (pressedUI [base; dialog])))))
            = (Str "dialog", Str "dialog", Str "dialog", [Str "dialog"])) as H
      by (vm_compute; reflexivity).
    by rewrite Hs1 in H.
  - assert (UI.afterRenderCallbacks (UI.stateOf (UI.exec (Screen.render dialog)
              (UI.stateOf (UI.beginPass (pressedUI [base; dialog]))))) = []) as H
      by (vm_compute; reflexivity).
    rewrite Hs1 in H. simpl in H. rewrite H. constructor.
Defined.

(** * Further properties of the code *)

(** ** Buffers: what a write touches, clearing and blitting *)

Section BufferMore.

Import Buffer.

Lemma index_inj (b : t) (x y x' y' : Z) :
  wf b → inBounds b x y = true → inBounds b x' y' = true →
  index b x y = index b x' y' → x = x' ∧ y = y'.
Proof.
  intros (Hw & Hh & _) (Hx & Hy & Hxw & Hyh)%inBounds_spec
    (Hx' & Hy' & Hxw' & Hyh')%inBounds_spec E.
  unfold index in E. apply Z2Nat.inj in E; [|nia..].
  assert (y = y') by nia. subst. split; lia.
Qed.

Lemma put_dims (b : t) (x y : Z) char fg bg layer :
  width (put b x y char fg bg layer) = width b ∧
  height (put b x y char fg bg layer) = height b.
Proof.
  unfold put. destruct (inBounds b x y); [|done].
  by destruct (layerWins _ _ _).
Qed.

Lemma put_index (b : t) (x y x' y' : Z) char fg bg layer :
  index (put b x y char fg bg layer) x' y' = index b x' y'.
Proof. unfold index. by destruct (put_dims b x y char fg bg layer) as [-> _]. Qed.

Lemma put_outside (b : t) (x y : Z) char fg bg layer :
  inBounds b x y = false → put b x y char fg bg layer = b.
Proof. intros E. unfold put. by rewrite E. Qed.

Lemma put_other_cell (b : t) (x y x' y' : Z) char fg bg layer :
  wf b → inBounds b x' y' = true → (x', y') ≠ (x, y) →
  cellAt (put b x y char fg bg layer) x' y' = cellAt b x' y'.
Proof.
  intros Hwf Hin' Hne. unfold cellAt. rewrite put_index.
  unfold put. destruct (inBounds b x y) eqn:Hin; [|done].
  destruct (layerWins _ _ _); [|done]. simpl.
  assert (index b x y ≠ index b x' y') as Hidx.
  { intros E. destruct (index_inj b x y x' y' Hwf Hin Hin' E). congruence. }
  destruct (truthy bg); by rewrite !list_lookup_insert_ne by done.
Qed.

(** What a write does at its own cell depends on the buffer only through
    that cell. *)
Lemma put_same_cell (b1 b2 : t) (x y : Z) char fg bg layer :
  wf b1 → wf b2 → width b2 = width b1 → height b2 = height b1 →
  inBounds b1 x y = true → cellAt b2 x y = cellAt b1 x y →
  cellAt (put b2 x y char fg bg layer) x y = cellAt (put b1 x y char fg bg layer) x y.
Proof.
  intros Hwf1 Hwf2 Ew Eh Hin1 Hcell.
  assert (inBounds b2 x y = true) as Hin2.
  { unfold inBounds in *. by rewrite Ew, Eh. }
  destruct (cellAt_defined b1 x y Hwf1 Hin1) as [old Hold].
  rewrite Hold in Hcell.
  destruct (decide (Buffer.layer old ≤ default 0 layer)) as [Hle|Hlt].
  - by rewrite (put_wins b1 x y old), (put_wins b2 x y old).
  - by rewrite (put_loses b1 x y old), (put_loses b2 x y old), Hold by (done || lia).
Qed.

Lemma new_wf (w h : Z) : 0 ≤ w → 0 ≤ h → wf (new w h).
Proof. intros. unfold wf, new; simpl. by rewrite !length_replicate. Qed.

Lemma clear_new (b : t) : wf b → clear b = new (width b) (height b).
Proof.
  intros (_ & _ & Hc & Hf & Hg & Hl). unfold clear, new. by rewrite Hc, Hf, Hg, Hl.
Qed.

Lemma new_cellAt (w h x y : Z) :
  0 ≤ w → 0 ≤ h → inBounds (new w h) x y = true →
  cellAt (new w h) x y = Some (Cell 0 0 0 0).
Proof.
  intros Hw Hh Hin. pose proof (index_lt _ _ _ (new_wf w h Hw Hh) Hin) as Hlt.
  unfold cellAt. simpl in *. rewrite !lookup_replicate_2 by done. done.
Qed.

(** Two well-formed buffers of one size that agree on every in-bounds
    cell are the same buffer. *)
Lemma cells_ext (b1 b2 : t) :
  wf b1 → wf b2 → width b2 = width b1 → height b2 = height b1 →
  (∀ x y, inBounds b1 x y = true → cellAt b2 x y = cellAt b1 x y) →
  b2 = b1.
Proof.
  intros Hwf1 Hwf2 Ew Eh Hcells.
  assert (∀ k : nat, (k < Z.to_nat (width b1 * height b1))%nat →
            chars b2 !! k = chars b1 !! k ∧ foreground b2 !! k = foreground b1 !! k ∧
            background b2 !! k = background b1 !! k ∧ layers b2 !! k = layers b1 !! k)
    as Hk.
  { intros k Hlt. pose proof Hwf1 as (Hw & Hh & _).
    assert (0 < width b1) as Hpos by nia.
    set (x := Z.of_nat k mod width b1). set (y := Z.of_nat k / width b1).
    assert (Z.of_nat k = x + y * width b1) as Ek.
    { unfold x, y. rewrite Z.mul_comm, Z.add_comm. apply Z.div_mod. lia. }
    assert (0 ≤ x < width b1) as Hx by (apply Z.mod_pos_bound; lia).
    assert (0 ≤ y) as Hy by (apply Z.div_pos; lia).
    assert (y < height b1) as Hyh.
    { apply Z.div_lt_upper_bound; [lia|]. nia. }
    assert (inBounds b1 x y = true) as Hin by (apply inBounds_spec; lia).
    specialize (Hcells x y Hin).
    assert (index b1 x y = k) as Hi1 by (unfold index; lia).
    assert (index b2 x y = k) as Hi2 by (unfold index; rewrite Ew; lia).
    destruct (cellAt_defined b1 x y Hwf1 Hin) as [c Hc].
    rewrite Hc in Hcells.
    apply cellAt_inv in Hc as (? & ? & ? & ?).
    apply cellAt_inv in Hcells as (? & ? & ? & ?).
    rewrite Hi1 in *. rewrite Hi2 in *. repeat split; congruence. }
  assert (∀ l1 l2 : list Z,
            length l1 = Z.to_nat (width b1 * height b1) →
            length l2 = Z.to_nat (width b1 * height b1) →
            (∀ k : nat, (k < Z.to_nat (width b1 * height b1))%nat → l2 !! k = l1 !! k) →
            l2 = l1) as Hext.
  { intros l1 l2 L1 L2 H. apply list_eq. intros k.
    destruct (decide (k < Z.to_nat (width b1 * height b1))%nat); [auto|].
    rewrite !lookup_ge_None_2 by lia. done. }
  destruct Hwf1 as (_ & _ & Lc1 & Lf1 & Lg1 & Ll1).
  destruct Hwf2 as (_ & _ & Lc2 & Lf2 & Lg2 & Ll2).
  rewrite Ew, Eh in *.
  destruct b1, b2; simpl in *. subst.
  f_equal; apply Hext; try done; intros k Hlt; by destruct (Hk k Hlt) as (? & ? & ? & ?).
Qed.

Lemma blitCell_keeps (buffer : t) (x y layer i j : Z) (b : t) :
  wf b →
  wf (blitCell buffer x y layer i b j) ∧
  width (blitCell buffer x y layer i b j) = width b ∧
  height (blitCell buffer x y layer i b j) = height b.
Proof.
  intros Hwf. unfold blitCell. destruct (readAt _ _); [|done].
  split; [by apply put_wf|apply put_dims].
Qed.

Lemma foldl_bind_list {A B C} (f : A → C → A) (g : B → list C) (l : list B) (a : A) :
  foldl f a (l ≫= g) = foldl (λ a x, foldl f a (g x)) a l.
Proof.
  revert a. induction l as [|x l IH]; intros a; [done|].
  rewrite bind_cons, foldl_app. simpl. by rewrite IH.
Qed.

(** The two loops as one walk over the offsets. *)
Lemma blit_offsets (b buffer : t) (x y w h layer : option Z) :
  blit b buffer x y w h layer =
  foldl (λ b p, blitCell buffer (default 0 x) (default 0 y) (default 0 layer)
                  p.1 b p.2)
        b (offsets (default (width buffer) w) (default (height buffer) h)).
Proof.
  unfold blit, offsets. rewrite foldl_bind_list.
  apply foldl_ext_all. intros acc i. by rewrite foldl_fmap.
Qed.

Lemma elem_of_offsets (w h i j : Z) :
  (i, j) ∈ offsets w h ↔ 0 ≤ i < w ∧ 0 ≤ j < h.
Proof.
  unfold offsets. rewrite list_elem_of_bind. split.
  - intros (i' & Hj & Hi). apply list_elem_of_fmap in Hj as (j' & E & Hj).
    simplify_eq. apply elem_of_seqZ in Hi, Hj. lia.
  - intros [Hi Hj]. exists i. split.
    + apply list_elem_of_fmap. exists j. split; [done|]. apply elem_of_seqZ. lia.
    + apply elem_of_seqZ. lia.
Qed.

Lemma NoDup_offsets (w h : Z) : NoDup (offsets w h).
Proof.
  unfold offsets. apply NoDup_bind.
  - intros i1 i2 [i j] _ _ H1 H2.
    apply list_elem_of_fmap in H1 as (? & ? & _), H2 as (? & ? & _). congruence.
  - intros i _. apply NoDup_fmap_2; [|apply NoDup_seqZ]. intros ???. congruence.
  - apply NoDup_seqZ.
Qed.

(** A walk over distinct offsets writes each target cell once, from the
    content that cell had before the walk. *)
Lemma blit_walk (buffer : t) (x y layer : Z) (cs : list (Z * Z)) (b : t) (ax ay : Z) :
  wf b → NoDup cs → inBounds b ax ay = true →
  let step b (p : Z * Z) := blitCell buffer x y layer p.1 b p.2 in
  cellAt (foldl step b cs) ax ay =
  if decide ((ax - x, ay - y) ∈ cs)
  then cellAt (step b (ax - x, ay - y)) ax ay
  else cellAt b ax ay.
Proof.
  intros Hwf Hnd Hin step. revert b Hwf Hin.
  induction Hnd as [|c cs Hc Hnd IH]; intros b Hwf Hin; cbn [foldl].
  { case_decide as H; [by apply not_elem_of_nil in H|done]. }
  destruct (blitCell_keeps buffer x y layer c.1 c.2 b Hwf) as (Hwf' & Ew & Eh).
  assert (inBounds (step b c) ax ay = true) as Hin'.
  { unfold inBounds, step in *. by rewrite Ew, Eh. }
  rewrite (IH (step b c) Hwf' Hin').
  assert (∀ p : Z * Z, p ≠ (ax - x, ay - y) →
            cellAt (step b p) ax ay = cellAt b ax ay) as Hother.
  { intros [i j] Hne. unfold step, blitCell; simpl.
    destruct (readAt _ _); [|done].
    apply put_other_cell; [done..|]. intros E. apply Hne. f_equal; simplify_eq; lia. }
  destruct (decide (c = (ax - x, ay - y))) as [->|Hne].
  - rewrite decide_False by done. rewrite decide_True by apply list_elem_of_here. done.
  - destruct (decide ((ax - x, ay - y) ∈ cs)) as [Hcs|Hcs].
    + rewrite decide_True by by apply list_elem_of_further.
      unfold step at 1 3, blitCell; simpl.
      destruct (readAt _ _); [|by apply Hother].
      replace (x + (ax - x)) with ax by lia. replace (y + (ay - y)) with ay by lia.
      apply put_same_cell; auto.
    + rewrite decide_False by (intros [?|?]%elem_of_cons; done). by apply Hother.
Qed.

Lemma blit_keeps (b buffer : t) (x y w h layer : option Z) :
  wf b →
  wf (blit b buffer x y w h layer) ∧
  width (blit b buffer x y w h layer) = width b ∧
  height (blit b buffer x y w h layer) = height b.
Proof.
  intros Hwf. rewrite blit_offsets.
  apply (foldl_invariant (λ b', wf b' ∧ width b' = width b ∧ height b' = height b));
    [|done].
  intros b' p (Hwf' & Ew & Eh).
  destruct (blitCell_keeps buffer (default 0 x) (default 0 y) (default 0 layer)
              p.1 p.2 b' Hwf') as (? & ? & ?).
  cbv beta. split; [done|]. split; congruence.
Qed.

Lemma blit_at (b buffer : t) (x y w h layer : option Z) (i j : Z) :
  wf b →
  0 ≤ i < default (width buffer) w →
  0 ≤ j < default (height buffer) h →
  inBounds b (default 0 x + i) (default 0 y + j) = true →
  cellAt (blit b buffer x y w h layer) (default 0 x + i) (default 0 y + j) =
  cellAt (blitCell buffer (default 0 x) (default 0 y) (default 0 layer) i b j)
    (default 0 x + i) (default 0 y + j).
Proof.
  intros Hwf Hi Hj Hin. rewrite blit_offsets.
  rewrite (blit_walk buffer (default 0 x) (default 0 y) (default 0 layer) _ b)
    by auto using NoDup_offsets.
  replace (default 0 x + i - default 0 x) with i by lia.
  replace (default 0 y + j - default 0 y) with j by lia.
  by rewrite decide_True by by apply elem_of_offsets.
Qed.

Lemma toUint32_small (v : Z) : 0 ≤ v < 2 ^ 32 → toUint32 v = v.
Proof. intros. unfold toUint32. by apply Z.mod_small. Qed.

Lemma blit_fresh (s : t) :
  wf s → inRange s →
  blit (new (width s) (height s)) s None None None None None = s.
Proof.
  intros Hwf (Rc & Rf & Rg & Rl). pose proof Hwf as (Hw & Hh & _).
  pose proof (new_wf _ _ Hw Hh) as Hnew.
  destruct (blit_keeps (new (width s) (height s)) s None None None None None Hnew)
    as (Hwf' & Ew & Eh).
  apply cells_ext; [done..|].
  intros x y Hin. pose proof Hin as (Hx & Hy & Hxw & Hyh)%inBounds_spec.
  assert (inBounds (new (width s) (height s)) x y = true) as Hin' by done.
  pose proof (blit_at (new (width s) (height s)) s None None None None None x y Hnew)
    as Hat. simpl in Hat. rewrite !Z.add_0_l in Hat.
  rewrite Hat by (done || lia). clear Hat.
  destruct (cellAt_defined s x y Hwf Hin) as [[c f g l] Hcell].
  rewrite Hcell. apply cellAt_inv in Hcell as (Hc & Hf & Hg & Hl). simpl in *.
  unfold index in *.
  assert (0 ≤ x + y * width s) by nia.
  unfold blitCell, readAt. rewrite !decide_True by done.
  rewrite Hc, Hf, Hg, Hl. simpl. rewrite !Z.add_0_l, Z.add_0_r.
  pose proof (proj1 (Forall_lookup _ _) Rc _ _ Hc).
  pose proof (proj1 (Forall_lookup _ _) Rf _ _ Hf).
  pose proof (proj1 (Forall_lookup _ _) Rg _ _ Hg).
  pose proof (proj1 (Forall_lookup _ _) Rl _ _ Hl).
  cbv beta in *.
  rewrite (put_wins _ x y (Cell 0 0 0 0)); simpl;
    [|done|done|by apply new_cellAt|lia].
  rewrite !toUint32_small by done.
  case_bool_decide as Hg0; [done|]. do 2 f_equal. lia.
Qed.

End BufferMore.

(** X1. A write changes at most the cell it addresses: out of bounds it
    changes nothing at all, and in bounds every other cell, the size and
    the well-formedness of the buffer are as before. *)
Theorem put_touches_one_cell
    (b : Buffer.t) (x y : Z) (char : charArg) (fg : Z) (bg layer : option Z) :
  Buffer.wf b →
  let b' := Buffer.put b x y char fg bg layer in
  Buffer.wf b' ∧ Buffer.width b' = Buffer.width b ∧ Buffer.height b' = Buffer.height b ∧
  (Buffer.inBounds b x y = false → b' = b) ∧
  (∀ x' y', Buffer.inBounds b x' y' = true → (x', y') ≠ (x, y) →
     Buffer.cellAt b' x' y' = Buffer.cellAt b x' y').
Proof.
  intros Hwf b'. split; [by apply put_wf|].
  destruct (put_dims b x y char fg bg layer) as [Ew Eh].
  split; [done|]. split; [done|]. split.
  - apply put_outside.
  - intros x' y' Hin Hne. by apply put_other_cell.
Qed.

Lemma put_touches_one_cell_witness :
  Buffer.cellAt (Buffer.put (Buffer.new 3 2) 2 1 (CharCode 65) 1 None None) 0 1
  = Some (Buffer.Cell 0 0 0 0).
Proof.
  assert (Buffer.wf (Buffer.new 3 2)) as Hwf by (vm_compute; repeat split; congruence).
  destruct (put_touches_one_cell (Buffer.new 3 2) 2 1 (CharCode 65) 1 None None Hwf)
    as (_ & _ & _ & _ & Hother).
  rewrite Hother; [reflexivity|reflexivity|congruence].
Defined.

(** X2. Clearing a well-formed buffer gives exactly the buffer its
    constructor makes for that size: every cell holds char 0, colours 0
    and layer 0. *)
Theorem clear_is_new (b : Buffer.t) :
  Buffer.wf b →
  Buffer.clear b = Buffer.new (Buffer.width b) (Buffer.height b) ∧
  Buffer.wf (Buffer.clear b) ∧
  (∀ x y, Buffer.inBounds b x y = true →
     Buffer.cellAt (Buffer.clear b) x y = Some (Buffer.Cell 0 0 0 0)).
Proof.
  intros Hwf. pose proof Hwf as (Hw & Hh & _).
  rewrite clear_new by done. split; [done|]. split; [by apply new_wf|].
  intros x y Hin. by apply new_cellAt.
Qed.

Lemma clear_is_new_witness :
  Buffer.clear (Buffer.put (Buffer.new 3 2) 2 1 (CharCode 65) 1 None None)
  = Buffer.new 3 2.
Proof.
  assert (Buffer.wf (Buffer.put (Buffer.new 3 2) 2 1 (CharCode 65) 1 None None)) as Hwf
    by (vm_compute; repeat split; congruence).
  destruct (clear_is_new _ Hwf) as [-> _]. reflexivity.
Defined.


(** X4. Blitting keeps the target buffer well formed and of its size, and
    leaves every cell outside the target rectangle as it was. *)
Theorem blit_stays_in_rectangle
    (b buffer : Buffer.t) (x y w h layer : option Z) :
  Buffer.wf b →
  let b' := Buffer.blit b buffer x y w h layer in
  Buffer.wf b' ∧ Buffer.width b' = Buffer.width b ∧ Buffer.height b' = Buffer.height b ∧
  (∀ ax ay, Buffer.inBounds b ax ay = true →
     ¬ (default 0 x ≤ ax < default 0 x + default (Buffer.width buffer) w ∧
        default 0 y ≤ ay < default 0 y + default (Buffer.height buffer) h) →
     Buffer.cellAt b' ax ay = Buffer.cellAt b ax ay).
Proof.
  intros Hwf b'. destruct (blit_keeps b buffer x y w h layer Hwf) as (? & ? & ?).
  split; [done|]. split; [done|]. split; [done|].
  intros ax ay Hin Hout. unfold b'. rewrite blit_offsets.
  rewrite (blit_walk buffer (default 0 x) (default 0 y) (default 0 layer) _ b)
    by auto using NoDup_offsets.
  rewrite decide_False; [done|]. rewrite elem_of_offsets. lia.
Qed.


Lemma blit_stays_in_rectangle_witness :
  Buffer.cellAt
    (Buffer.blit (Buffer.new 3 2)
       (Buffer.put (Buffer.new 2 1) 1 0 (CharCode 65) 7 (Some 9) (Some 2))
       (Some 1) (Some 1) None None (Some 3)) 2 0
  = Some (Buffer.Cell 0 0 0 0).
Proof.
  assert (Buffer.wf (Buffer.new 3 2)) as Hwf by (vm_compute; repeat split; congruence).
  destruct (blit_stays_in_rectangle (Buffer.new 3 2)
             (Buffer.put (Buffer.new 2 1) 1 0 (CharCode 65) 7 (Some 9) (Some 2))
             (Some 1) (Some 1) None None (Some 3) Hwf) as (_ & _ & _ & Hout).
  rewrite Hout; [vm_compute; reflexivity|vm_compute; reflexivity|].
  vm_compute. intros [_ [H _]]. by apply H.
Defined.

(** X5. Blitting a buffer into a fresh buffer of its size, with the
    default position, size and layer offset, gives a copy of it: the four
    arrays of the result equal those of the source (whose entries are
    32-bit unsigned values, as a [Uint32Array] holds them). *)
Theorem blit_into_fresh_buffer_copies (s : Buffer.t) :
  Buffer.wf s → Buffer.inRange s →
  Buffer.blit (Buffer.new (Buffer.width s) (Buffer.height s)) s
    None None None None None = s.
Proof. apply blit_fresh. Qed.

Lemma blit_into_fresh_buffer_copies_witness :
  let s := Buffer.put (Buffer.put (Buffer.new 2 2) 1 0 (CharCode 65) 7 (Some 9) (Some 2))
             0 1 (CharCode 66) 3 None None in
  Buffer.blit (Buffer.new (Buffer.width s) (Buffer.height s)) s
    None None None None None = s.
Proof.
  intros s. apply (blit_into_fresh_buffer_copies s).
  - vm_compute. repeat split; discriminate.
  - unfold Buffer.inRange.
    repeat split; apply (bool_decide_unpack _); vm_compute; exact I.
Defined.

(** ** The terminal between flushes *)

Section TerminalMore.

Import Terminal.

Lemma terminal_new_wf (w h : Z) (font : option Font.t) :
  0 ≤ w → 0 ≤ h → wf (new w h font).
Proof.
  intros Hw Hh. pose proof (new_wf w h Hw Hh). by unfold wf, new; simpl.
Qed.

Lemma terminal_put_wf (t : Terminal.t) x y char fg bg layer :
  wf t → wf (put t x y char fg bg layer).
Proof.
  intros (Hf & Hb & E1 & E2 & E3 & E4). unfold wf, put; simpl.
  destruct (put_dims (backBuffer t) x y char fg bg (Some (default 0 layer))) as [-> ->].
  split; [done|]. split; [by apply put_wf|done].
Qed.

Lemma terminal_blit_wf (t : Terminal.t) buffer x y w h layer :
  wf t → wf (blit t buffer x y w h layer).
Proof.
  intros (Hf & Hb & E1 & E2 & E3 & E4). unfold wf, blit; simpl.
  destruct (blit_keeps (backBuffer t) buffer x y w h layer Hb) as (? & -> & ->).
  done.
Qed.

Lemma terminal_render_wf (t : Terminal.t) : wf t → wf (render t).
Proof.
  intros Hwf. pose proof Hwf as (Hf & Hb & E1 & E2 & E3 & E4).
  unfold render. destruct (font t); [|done].
  unfold wf; simpl. rewrite clear_new by done.
  pose proof Hf as (Hw & Hh & _).
  split; [done|]. split; [by apply new_wf|done].
Qed.

Lemma render_buffers (t : Terminal.t) (f : Font.t) :
  wf t → font t = Some f →
  frontBuffer (render t) = backBuffer t ∧
  backBuffer (render t) = Buffer.new (width t) (height t) ∧
  width (render t) = width t ∧ height (render t) = height t ∧
  font (render t) = Some f.
Proof.
  intros (Hf & Hb & E1 & E2 & E3 & E4) Hfont. unfold render. rewrite Hfont; simpl.
  by rewrite clear_new, E1, E2.
Qed.

Lemma content_new (w h : Z) (i : nat) :
  (i < Z.to_nat (w * h))%nat → content (Buffer.new w h) i = (Some 0, Some 0, Some 0).
Proof.
  intros Hi. unfold content, Buffer.new; simpl.
  by rewrite !lookup_replicate_2 by done.
Qed.

Lemma filter_ext_elem {A} (P Q : A → Prop)
    `{∀ a, Decision (P a)} `{∀ a, Decision (Q a)} (l : list A) :
  (∀ a, a ∈ l → P a ↔ Q a) → filter P l = filter Q l.
Proof.
  induction l as [|a l IH]; intros E; [done|].
  rewrite !filter_cons.
  rewrite IH by (intros b Hb; apply E; by apply list_elem_of_further).
  pose proof (E a (list_elem_of_here _ _)).
  destruct (decide (P a)), (decide (Q a)); tauto || done.
Qed.

Lemma changedCells_after_render (t : Terminal.t) (f : Font.t) :
  wf t → font t = Some f → changedCells (render t) = nonBlankCells (backBuffer t).
Proof.
  intros Hwf Hfont.
  destruct (render_buffers t f Hwf Hfont) as (Ef & Eb & Ew & Eh & _).
  destruct Hwf as (_ & _ & _ & _ & E3 & E4).
  unfold changedCells, nonBlankCells. rewrite Ef, Eb, Ew, Eh, E3, E4.
  f_equal. apply filter_ext_elem. intros i Hi.
  apply elem_of_seq in Hi. rewrite content_new by lia. split; congruence.
Qed.

Lemma empty_batch (b : Batch) :
  wellShaped b → vertexCount b = 0 → b = mkBatch 0 [] [] [] [].
Proof.
  destruct b as [n vs ts fs bs]. intros (H1 & H2 & H3 & H4) E; simpl in *. subst n.
  destruct vs, ts, fs, bs; simpl in *; try lia. done.
Qed.

End TerminalMore.

(** X6. The constructor gives, and [put], [blit] and [render] keep, a
    terminal whose two buffers are well formed and of the terminal's
    size. *)
Theorem terminal_buffers_stay_well_formed :
  (∀ w h font, 0 ≤ w → 0 ≤ h → Terminal.wf (Terminal.new w h font)) ∧
  (∀ t x y char fg bg layer,
     Terminal.wf t → Terminal.wf (Terminal.put t x y char fg bg layer)) ∧
  (∀ t buffer x y w h layer,
     Terminal.wf t → Terminal.wf (Terminal.blit t buffer x y w h layer)) ∧
  (∀ t, Terminal.wf t → Terminal.wf (Terminal.render t)).
Proof.
  split; [|split; [|split]].
  - apply terminal_new_wf.
  - intros. by apply terminal_put_wf.
  - intros. by apply terminal_blit_wf.
  - apply terminal_render_wf.
Qed.

Lemma terminal_buffers_stay_well_formed_witness :
  Terminal.wf
    (Terminal.render (Terminal.put (Terminal.new 3 2 (Some Font.default))
                        1 0 (CharCode 65) 255 (Some 7) None)).
Proof.
  destruct terminal_buffers_stay_well_formed as (Hnew & Hput & _ & Hrender).
  apply Hrender, Hput, Hnew; lia.
Defined.

(** X7. Drawing is immediate-mode.  After a flush the front buffer is
    the frame just drawn and the back buffer is blank, so a second flush
    with nothing written in between redraws exactly the cells of that
    frame that were not blank (6 vertices each), and a third one uploads
    an empty batch and makes no draw call. *)
Theorem frame_not_redrawn_is_erased (t : Terminal.t) (f : Font.t) :
  Terminal.wf t → Terminal.font t = Some f →
  let t1 := Terminal.render t in
  let t2 := Terminal.render t1 in
  let t3 := Terminal.render t2 in
  Terminal.frontBuffer t1 = Terminal.backBuffer t ∧
  Terminal.backBuffer t1 = Buffer.new (Terminal.width t) (Terminal.height t) ∧
  Terminal.vertexCount (Terminal.buildBatch t1 f)
    = 6 * Z.of_nat (Terminal.nonBlankCells (Terminal.backBuffer t)) ∧
  Terminal.gl t3 = Terminal.gl t2 ++ [Terminal.BufferData (Terminal.mkBatch 0 [] [] [] [])].
Proof.
  intros Hwf Hfont t1 t2 t3.
  pose proof (terminal_render_wf t Hwf) as Hwf1. fold t1 in Hwf1.
  pose proof (terminal_render_wf t1 Hwf1) as Hwf2. fold t2 in Hwf2.
  destruct (render_buffers t f Hwf Hfont) as (Ef & Eb & Ew & Eh & Hfont1).
  fold t1 in Ef, Eb, Ew, Eh, Hfont1.
  destruct (render_buffers t1 f Hwf1 Hfont1) as (Ef2 & Eb2 & Ew2 & Eh2 & Hfont2).
  fold t2 in Ef2, Eb2, Ew2, Eh2, Hfont2.
  assert (0 ≤ Terminal.width t ∧ 0 ≤ Terminal.height t) as [Hw Hh].
  { destruct Hwf as ((Hw & Hh & _) & _ & E1 & E2 & _). by rewrite <- E1, <- E2. }
  split; [done|]. split; [done|]. split.
  - rewrite buildBatch_count by (rewrite ?Ew, ?Eh; done).
    unfold t1. by rewrite (changedCells_after_render t f).
  - assert (Terminal.buildBatch t2 f = Terminal.mkBatch 0 [] [] [] []) as Hempty.
    { apply empty_batch; [apply buildBatch_wellShaped|].
      rewrite buildBatch_count by (rewrite ?Ew2, ?Eh2, ?Ew, ?Eh; done).
      rewrite changedCells_same; [done|..]; by rewrite Ef2, Eb2, Eb, Ew, Eh. }
    unfold t3, Terminal.render at 1. rewrite Hfont2, Hempty. done.
Qed.

Lemma frame_not_redrawn_is_erased_witness :
  let t := Terminal.put sampleTerminal 1 0 (CharCode 65) 255 (Some 7) None in
  Terminal.vertexCount (Terminal.buildBatch (Terminal.render t) Font.default) = 6.
Proof.
  intros t.
  assert (Terminal.wf t) as Hwf by (vm_compute; repeat split; congruence).
  assert (Terminal.font t = Some Font.default) as Hfont by reflexivity.
  destruct (frame_not_redrawn_is_erased t Font.default Hwf Hfont) as (_ & _ & Hcount & _).
  rewrite Hcount. vm_compute. reflexivity.
Defined.

(** ** Relations that widget code respects *)

Section Respects.

Import UI.

Context (R : t → t → Prop) `{!PreOrder R}.

Lemma respects_ret {A} (a : A) : respects R (mret a : M A).
Proof. intros ui. reflexivity. Qed.

Lemma respects_throw {A} (e : Error) : respects R (throw e : M A).
Proof. intros ui. reflexivity. Qed.

Lemma respects_gets {A} (f : t → A) : respects R (gets f).
Proof. intros ui. reflexivity. Qed.

Lemma respects_modify (f : t → t) : (∀ ui, R ui (f ui)) → respects R (modify f).
Proof. intros Hf ui. apply Hf. Qed.

Lemma respects_bind {A B} (m : M A) (f : A → M B) :
  respects R m → (∀ a, respects R (f a)) → respects R (m ≫= f).
Proof.
  intros Hm Hf ui. unfold mbind, M_bind. specialize (Hm ui).
  destruct (m ui) as [a ui'|e ui']; simpl in *; [|done].
  etrans; [exact Hm|apply Hf].
Qed.

Lemma respects_orBox given dflt : respects R (orBox given dflt).
Proof. intros ui. unfold orBox. destruct given, (box ui); reflexivity. Qed.

Lemma respects_isMouseOver x y w h : respects R (isMouseOver x y w h).
Proof. intros ui. unfold isMouseOver. destruct (box ui); reflexivity. Qed.

Lemma respects_evalCond c : respects R (evalCond c).
Proof. destruct c; simpl; auto using respects_gets, respects_isMouseOver. Qed.

(** The primitives respect what the stack methods, their interactive
    block and their callback respect. *)
Lemma respects_View x y w h (callback : M unit) :
  (∀ x y w h, respects R (pushBoundingBox x y w h)) →
  respects R popBoundingBox →
  respects R callback → respects R (View x y w h callback).
Proof.
  intros Hpush Hpop Hcb. unfold View.
  repeat (apply respects_bind; [auto using respects_orBox|]; intros ?).
  done.
Qed.

Lemma respects_Control (props : Props.t) (callback : M unit) :
  (∀ id, respects R (pushId id)) → respects R popId →
  (∀ x y w h, respects R (pushBoundingBox x y w h)) →
  respects R popBoundingBox →
  (default false (Props.disabled props) = false →
   ∀ id w h ui, isModal ui = false → R ui (stateOf (interact id w h ui))) →
  respects R callback → respects R (Control props callback).
Proof.
  intros HpushId HpopId Hpush Hpop Hinteract Hcb. unfold Control.
  apply respects_bind; [apply respects_orBox|]; intros width.
  apply respects_bind; [apply respects_orBox|]; intros height.
  apply respects_bind; [done|]; intros _.
  apply respects_bind; [done|]; intros _.
  destruct (isNullish _); [apply respects_throw|].
  apply respects_bind; [apply respects_gets|]; intros id.
  intros s. unfold mbind at 1, M_bind at 1, gets at 1.
  assert (respects R (callback;; popBoundingBox;; popId)) as Hrest.
  { repeat (apply respects_bind; [done|]; intros _). done. }
  destruct (negb _ && negb (isModal s)) eqn:Hgo.
  - apply andb_true_iff in Hgo as [Hd%negb_true_iff Hm%negb_true_iff].
    pose proof (Hinteract Hd id width height s Hm) as Hi.
    unfold mbind, M_bind in *.
    destruct (interact id width height s) as [[] s'|e s']; simpl in *; [|done].
    etrans; [exact Hi|apply Hrest].
  - apply (Hrest s).
Qed.

(** Running a program respects [R] when its single calls, the stack
    methods and the interactive block of its controls do. *)
Lemma respects_exec (ok : Widget → bool) :
  (∀ w p, ok w = true → p ∈ parts w → ok p = true) →
  (∀ w, ok w = true → leaf w = true → respects R (exec w)) →
  (∀ id, respects R (pushId id)) → respects R popId →
  (∀ x y w h, respects R (pushBoundingBox x y w h)) →
  respects R popBoundingBox →
  (∀ props callback, ok (ControlW props callback) = true →
     default false (Props.disabled props) = false →
     ∀ id w h ui, isModal ui = false → R ui (stateOf (interact id w h ui))) →
  ∀ w, ok w = true → respects R (exec w).
Proof.
  intros Hparts Hleaf HpushId HpopId Hpush Hpop Hinteract.
  induction w; intros Hok; try (by apply Hleaf).
  - simpl. apply respects_bind; [|intros _].
    + apply IHw1, (Hparts _ _ Hok). set_solver.
    + apply IHw2, (Hparts _ _ Hok). set_solver.
  - simpl. apply respects_bind; [apply respects_evalCond|]. intros [].
    + apply IHw1, (Hparts _ _ Hok). set_solver.
    + apply IHw2, (Hparts _ _ Hok). set_solver.
  - simpl. apply respects_Control; try done.
    + by apply (Hinteract _ _ Hok).
    + apply IHw, (Hparts _ _ Hok). set_solver.
  - simpl. apply respects_View; try done.
    apply IHw, (Hparts _ _ Hok). set_solver.
Qed.

(** The same for the loops of a render pass. *)
Lemma respects_renderScreens (tops : list Screen.t) :
  (∀ w, respects R (exec w)) → (∀ ui, R ui (set_isModal true ui)) →
  respects R (renderScreens tops).
Proof.
  intros Hexec Hmodal. induction tops as [|screen below IH]; simpl.
  - apply respects_ret.
  - apply respects_bind; [apply Hexec|]; intros _.
    destruct (Screen.isOpaque screen); [apply respects_ret|].
    apply respects_bind; [|done].
    destruct (Screen.isModal screen); [by apply respects_modify|apply respects_ret].
Qed.

Lemma respects_runCallbacksFrom (fuel i : nat) (ui : t) (r : Res unit) :
  (∀ w, respects R (exec w)) →
  runCallbacksFrom fuel i ui = Some r → R ui (stateOf r).
Proof.
  intros Hexec. revert i ui.
  induction fuel as [|fuel IH]; intros i ui; simpl;
    destruct (afterRenderCallbacks ui !! i) as [cb|]; try done;
    try (intros; simplify_eq; reflexivity).
  pose proof (Hexec cb ui) as Hcb.
  destruct (exec cb ui) as [[] ui'|e ui']; simpl in *.
  - intros Hr. etrans; [exact Hcb|]. by eapply IH.
  - intros; by simplify_eq.
Qed.

Lemma respects_runCallbacks :
  (∀ w, respects R (exec w)) → respects R runCallbacks.
Proof.
  intros Hexec ui. destruct (runCallbacks_spec ui) as (r & Hr & <- & _).
  by eapply respects_runCallbacksFrom.
Qed.

Lemma respects_renderPass :
  (∀ w, respects R (exec w)) →
  (∀ x y w h, respects R (pushBoundingBox x y w h)) →
  respects R popBoundingBox →
  (∀ ui, R ui (set_afterRenderCallbacks [] ui)) →
  (∀ ui, R ui (set_invalidated false ui)) →
  (∀ ui, R ui (set_focusableControlIds [] ui)) →
  (∀ ui b, R ui (set_isModal b ui)) →
  (∀ ui effects, R ui (set_trace effects ui)) →
  respects R renderPass.
Proof.
  intros Hexec Hpush Hpop Hq Hi Hf Hm Ht.
  unfold renderPass, renderScreensOfPass, beginPass, finishPass,
    checkBoundingBoxStack.
  repeat (apply respects_bind; [|intros ?]);
    auto using respects_modify, respects_gets, respects_renderScreens,
      respects_runCallbacks.
  apply respects_modify. intros ui. case_bool_decide; [apply Ht|reflexivity].
Qed.

Lemma respects_render :
  respects R renderPass →
  (∀ ui, R ui (set_terminal (Terminal.render (terminal ui)) ui)) →
  (∀ ui effects, R ui (set_trace effects ui)) →
  respects R render.
Proof.
  intros Hpass Hterm Ht. unfold render.
  apply respects_bind; [|intros _].
  - generalize MAX_RENDERS_PER_FRAME. intros n.
    induction n as [|n IH]; simpl; [apply respects_ret|].
    apply respects_bind; [done|]; intros _.
    apply respects_bind; [apply respects_gets|]; intros [|]; [|apply respects_ret].
    apply respects_bind; [|done]. apply respects_throw.
  - apply respects_modify. intros ui. etrans; [apply Hterm|apply Ht].
Qed.

End Respects.

#[global] Instance keeps_preorder (P : UI.t → Prop) : PreOrder (UI.keeps P).
Proof.
  split; [intros s H; exact H|intros s1 s2 s3 H1 H2 H; exact (H2 (H1 H))].
Qed.

Section Invariants.

Import UI.

(** The interactive block of a control writes four fields: the focus,
    the hover, the active id and the list of focusable ids. *)
Lemma handleEvent_shape (id : jsval) (e : Event) (s : t) :
  ∃ f a, handleEvent id e s = set_focus f (set_active a s).
Proof.
  destruct s. unfold handleEvent.
  repeat match goal with
         | |- context [if ?c then _ else _] => destruct c
         end; do 2 eexists; cbv; reflexivity.
Qed.

Lemma interact_shape (id : jsval) (w h : Z) (s : t) :
  ∃ f hv a l, stateOf (interact id w h s) =
    set_focus f (set_hover hv (set_active a (set_focusableControlIds l s))).
Proof.
  unfold interact, resolveHover, isMouseOver, addFocusableControl,
    mbind, M_bind, gets, modify.
  destruct s as [tm sc bbs [b|] crs cl ids cid md ev fcs fo ho ac mo inv cbs tr];
    cbn; [|do 4 eexists; cbv; reflexivity].
  destruct (_ && _); cbn; [|case_decide; cbn];
    (destruct ev as [e|]; cbn;
     [edestruct handleEvent_shape as (f & a & ->)|]);
    do 4 eexists; cbv; reflexivity.
Qed.

Lemma coherent_snoc_box (s : t) (b : Rect.t) :
  coherent s →
  coherent (set_box (Some b) (set_boundingBoxStack (boundingBoxStack s ++ [b]) s)).
Proof. intros [_ Hc]. split; simpl; [by rewrite last_snoc|done]. Qed.

Lemma sound_pushBoundingBox x y w h :
  respects (keeps sound) (pushBoundingBox x y w h).
Proof.
  intros s [Hc Hw]. unfold pushBoundingBox, modify; cbn [stateOf].
  split; [by apply coherent_snoc_box|done].
Qed.

Lemma sound_popBoundingBox : respects (keeps sound) popBoundingBox.
Proof.
  intros s [[Hb Hc] Hw]. unfold popBoundingBox.
  case_bool_decide; cbn [stateOf]; (split; [split; simpl; done|done]).
Qed.

Lemma sound_leaf (w : Widget) : leaf w = true → respects (keeps sound) (exec w).
Proof.
  destruct w; try done; intros _; simpl;
    try apply sound_pushBoundingBox; try apply sound_popBoundingBox;
    try (intros s [[Hb Hc] Hw]; (split; [split|]); simpl; rewrite ?last_snoc; done).
  intros s Hs. unfold put.
  destruct (box s); [|exact Hs]. destruct (forallb _ _); [|exact Hs].
  destruct Hs as [[Hb Hc] Hw]. split; [split; simpl; done|]. simpl. by apply terminal_put_wf.
Qed.

Lemma sound_exec (w : Widget) : respects (keeps sound) (exec w).
Proof.
  apply (respects_exec _ (λ _, true)); try done.
  - intros w' _. apply sound_leaf.
  - intros id. apply (sound_leaf (PushId id)). done.
  - apply (sound_leaf PopId). done.
  - apply sound_pushBoundingBox.
  - apply sound_popBoundingBox.
  - intros _ _ _ _ id width height s _ Hs.
    destruct (interact_shape id width height s) as (f & hv & a & l & ->). done.
Qed.

Lemma sound_render : respects (keeps sound) render.
Proof.
  apply (respects_render (keeps sound));
    [apply (respects_renderPass (keeps sound))|..];
    auto using sound_exec, sound_pushBoundingBox, sound_popBoundingBox;
    intros; unfold keeps; intros [[Hb Hc] Hw]; (split; [split|]); simpl;
    auto using terminal_render_wf.
Qed.

End Invariants.

(** X8. In every state that the constructor, widget code and [render]
    produce, [ui.box] is the top of the bounding-box stack and [ui.clip]
    the top of the clip-rect stack, and the terminal's buffers keep the
    terminal's size: the constructor gives such a state on a well-formed
    terminal, and running a program or a whole render keeps it, whether
    the call returns or throws. *)
Theorem stacks_and_buffers_stay_sound :
  (∀ terminal, Terminal.wf terminal → UI.sound (UI.new terminal)) ∧
  (∀ w ui, UI.sound ui → UI.sound (UI.stateOf (UI.exec w ui))) ∧
  (∀ ui, UI.sound ui → UI.sound (UI.stateOf (UI.render ui))).
Proof.
  split; [|split].
  - intros terminal Hwf. split; [by split|done].
  - intros w ui. apply sound_exec.
  - intros ui. apply sound_render.
Qed.

Lemma stacks_and_buffers_stay_sound_witness :
  UI.sound (UI.stateOf (UI.render leftBoxUI)).
Proof.
  destruct stacks_and_buffers_stay_sound as (Hnew & _ & Hrender).
  apply Hrender. apply (Hnew sampleTerminal).
  vm_compute; repeat split; congruence.
Defined.

Section Restoring.

Import UI.

Lemma bind_Ok {A B} (m : M A) (f : A → M B) (ui ui' : t) (b : B) :
  (m ≫= f) ui = Ok b ui' → ∃ a u1, m ui = Ok a u1 ∧ f a u1 = Ok b ui'.
Proof.
  unfold mbind, M_bind. destruct (m ui) as [a u1|e u1]; [|done]. eauto.
Qed.

Lemma stacks_coherent (s s' : t) : stacks s' = stacks s → coherent s → coherent s'.
Proof. unfold stacks, coherent. intros E [Hb Hc]. simplify_eq. split; congruence. Qed.

Lemma restores_ret {A} (a : A) : restores (mret a : M A).
Proof. intros ui a' ui' _ E. by inversion E. Qed.

Lemma restores_bind {A B} (m : M A) (f : A → M B) :
  restores m → (∀ a, restores (f a)) → restores (m ≫= f).
Proof.
  intros Hm Hf ui b ui' Hc (a & u1 & H1 & H2)%bind_Ok.
  pose proof (Hm _ _ _ Hc H1) as E1.
  rewrite (Hf a u1 b ui'); [done| |done]. by eapply stacks_coherent.
Qed.

Lemma restores_modify (f : t → t) :
  (∀ ui, stacks (f ui) = stacks ui) → restores (modify f).
Proof. intros Hf ui a ui' _ E. inversion E. apply Hf. Qed.

Lemma restores_evalCond c : restores (evalCond c).
Proof.
  intros ui a ui' _. destruct c; simpl; unfold gets, isMouseOver;
    try destruct (box ui); intros E; by inversion E.
Qed.

Lemma restores_orBox given dflt : restores (orBox given dflt).
Proof.
  intros ui a ui' _. unfold orBox.
  destruct given, (box ui); intros E; by inversion E.
Qed.

Lemma interact_stacks (id : jsval) (w h : Z) (s : t) :
  stacks (stateOf (interact id w h s)) = stacks s.
Proof. destruct (interact_shape id w h s) as (f & hv & a & l & ->). done. Qed.

Lemma restores_View x y w h (callback : M unit) :
  restores callback → restores (View x y w h callback).
Proof.
  intros Hcb ui [] ui' Hc. unfold View.
  intros (width & u0 & H0 & (height & u1 & H1 & H)%bind_Ok)%bind_Ok.
  assert (u0 = ui) as -> by (unfold orBox in H0; destruct w, (box ui); by inversion H0).
  assert (u1 = ui) as -> by (unfold orBox in H1; destruct h, (box ui); by inversion H1).
  apply bind_Ok in H as ([] & s1 & Hpush & ([] & s2 & Hrun & Hpop)%bind_Ok).
  inversion Hpush as [E1]. clear Hpush.
  set (r := relativeTo (box ui) (default 0 x) (default 0 y) width height) in *.
  assert (coherent s1) as Hc1 by (subst s1; by apply coherent_snoc_box).
  pose proof (Hcb _ _ _ Hc1 Hrun) as E2. rewrite <- E1 in E2.
  unfold stacks in E2; simpl in E2.
  injection E2 as Ebbs Ebox Ecrs Eclip Eids.
  unfold popBoundingBox in Hpop. rewrite Ebbs in Hpop.
  rewrite length_app, bool_decide_eq_true_2 in Hpop by (simpl; lia).
  inversion Hpop. unfold stacks; simpl.
  rewrite removelast_last. destruct Hc as [-> _]. congruence.
Qed.

Lemma restores_Control (props : Props.t) (callback : M unit) :
  restores callback → restores (Control props callback).
Proof.
  intros Hcb ui [] ui' Hc. unfold Control.
  intros (width & u0 & H0 & (height & u1 & H1 & H)%bind_Ok)%bind_Ok.
  assert (u0 = ui) as ->
    by (unfold orBox in H0; destruct (Props.width props), (box ui); by inversion H0).
  assert (u1 = ui) as ->
    by (unfold orBox in H1; destruct (Props.height props), (box ui); by inversion H1).
  apply bind_Ok in H as ([] & s1 & HpushId & ([] & s2 & Hpush & H)%bind_Ok).
  destruct (isNullish _); [done|].
  apply bind_Ok in H as (id & s2' & Hid & (modal & s2'' & Hmodal & H)%bind_Ok).
  inversion Hid; subst s2' id. inversion Hmodal; subst s2'' modal. clear Hid Hmodal.
  apply bind_Ok in H as ([] & s3 & Hint & ([] & s4 & Hrun & H)%bind_Ok).
  apply bind_Ok in H as ([] & s5 & Hpop & HpopId).
  inversion HpushId as [E1]. inversion Hpush as [E2]. clear HpushId Hpush.
  set (r := relativeTo (box s1) (default 0 (Props.x props)) (default 0 (Props.y props))
              width height) in *.
  assert (coherent s2) as Hc2.
  { subst s2. apply coherent_snoc_box. subst s1. exact Hc. }
  assert (stacks s3 = stacks s2) as E3.
  { destruct (negb _ && negb _).
    - pose proof (interact_stacks (currentId s2) width height s2) as Hs.
      by rewrite Hint in Hs.
    - by inversion Hint. }
  assert (stacks s4 = stacks s3) as E4.
  { eapply Hcb; [|exact Hrun]. by eapply stacks_coherent. }
  rewrite E3 in E4. rewrite <- E2, <- E1 in E4. unfold stacks in E4; simpl in E4.
  injection E4 as Ebbs Ebox Ecrs Eclip Eids.
  unfold popBoundingBox in Hpop. rewrite Ebbs in Hpop.
  rewrite length_app, bool_decide_eq_true_2 in Hpop by (simpl; lia).
  inversion Hpop as [E5]. inversion HpopId as [E6]. unfold stacks; simpl.
  rewrite <- E5; simpl. rewrite Eids, !removelast_last.
  destruct Hc as [-> _]. congruence.
Qed.

(** A program that moves the stacks only through [Control] and [View]
    returns with the stacks as they were. *)
Lemma restores_exec (w : Widget) : structured w = true → restores (exec w).
Proof.
  induction w; simpl; try done; intros Hs;
    try (by apply restores_ret);
    try (apply restores_modify; by intros []).
  - apply andb_true_iff in Hs as [H1 H2]. apply restores_bind; auto.
  - apply andb_true_iff in Hs as [H1 H2].
    apply restores_bind; [apply restores_evalCond|]. intros []; auto.
  - intros ui [] ui' _. unfold put. destruct (box ui); [|done].
    destruct (forallb _ _); intros E; by inversion E.
  - apply restores_Control; auto.
  - apply restores_View; auto.
Qed.

End Restoring.

(** ** Balanced passes *)

Section Balanced.

Import UI.

Lemma structuredQueue_exec (w : Widget) :
  structured w = true → respects (keeps structuredQueue) (exec w).
Proof.
  apply (respects_exec (keeps structuredQueue) (λ w, structured w)); try done.
  - intros w' p Hok Hp. destruct w'; simpl in Hp, Hok;
      repeat match goal with
             | H : _ && _ = true |- _ => apply andb_true_iff in H as [? ?]
             end;
      repeat (apply elem_of_cons in Hp as [->|Hp]; [done|]);
      by apply elem_of_nil in Hp.
  - intros []; try done; simpl; intros Hs _ s Hq; try exact Hq.
    + unfold put. destruct (box s); [|exact Hq]. by destruct (forallb _ _).
    + apply Forall_app. split; [exact Hq|]. by apply Forall_singleton.
  - intros id s Hq. exact Hq.
  - intros s Hq. exact Hq.
  - intros x y w' h s Hq. exact Hq.
  - intros s Hq. unfold popBoundingBox. by case_bool_decide.
  - intros _ _ _ _ id w' h s _ Hq.
    destruct (interact_shape id w' h s) as (f & hv & a & l & ->). exact Hq.
Qed.

Lemma renderScreens_restores (tops : list Screen.t) :
  Forall (λ s, structured (Screen.render s) = true) tops →
  restores (renderScreens tops) ∧ respects (keeps structuredQueue) (renderScreens tops).
Proof.
  induction 1 as [|screen below Hs Hbelow [IH1 IH2]]; simpl.
  - split; [apply restores_ret|apply (respects_ret (keeps structuredQueue))].
  - split.
    + apply restores_bind; [by apply restores_exec|]; intros _.
      destruct (Screen.isOpaque screen); [apply restores_ret|].
      apply restores_bind; [|done].
      destruct (Screen.isModal screen); [by apply restores_modify|apply restores_ret].
    + apply (respects_bind (keeps structuredQueue));
        [by apply structuredQueue_exec|]; intros _.
      destruct (Screen.isOpaque screen); [apply (respects_ret (keeps structuredQueue))|].
      apply (respects_bind (keeps structuredQueue)); [|done].
      destruct (Screen.isModal screen);
        [apply (respects_modify (keeps structuredQueue)); intros s Hq; exact Hq
        |apply (respects_ret (keeps structuredQueue))].
Qed.

Lemma runCallbacksFrom_restores (fuel i : nat) (ui ui' : t) :
  coherent ui → structuredQueue ui →
  runCallbacksFrom fuel i ui = Some (Ok () ui') → stacks ui' = stacks ui.
Proof.
  revert i ui. induction fuel as [|fuel IH]; intros i ui Hc Hq; simpl;
    destruct (afterRenderCallbacks ui !! i) as [cb|] eqn:Hi; try done;
    try (intros; by simplify_eq).
  assert (structured cb = true) as Hcb.
  { unfold structuredQueue in Hq. rewrite Forall_lookup in Hq. by eapply Hq. }
  pose proof (restores_exec cb Hcb ui) as Hr.
  pose proof (structuredQueue_exec cb Hcb ui Hq) as Hq'.
  destruct (exec cb ui) as [[] u1|e u1]; [|done].
  intros Hrun. specialize (Hr () u1 Hc eq_refl).
  rewrite <- Hr. apply (IH (S i)); [by eapply stacks_coherent|exact Hq'|exact Hrun].
Qed.

Lemma runCallbacks_restores : ∀ ui, structuredQueue ui →
  ∀ ui', coherent ui → runCallbacks ui = Ok () ui' → stacks ui' = stacks ui.
Proof.
  intros ui Hq ui' Hc Hrun.
  destruct (runCallbacks_spec ui) as (r & Hr & E & _). rewrite Hrun in E. subst r.
  by eapply runCallbacksFrom_restores.
Qed.

(** A pass over screens that move the stacks only through [Control] and
    [View], started with no bounding box on the stack, returns with every
    stack as it was and with nothing printed. *)
Lemma renderPass_balanced (ui ui' : t) :
  coherent ui → boundingBoxStack ui = [] →
  Forall (λ s, structured (Screen.render s) = true) (screens ui) →
  renderPass ui = Ok () ui' →
  stacks ui' = stacks ui ∧ trace ui' = trace ui.
Proof.
  intros Hc Hempty Hscreens.
  unfold renderPass, renderScreensOfPass.
  intros ([] & s1 & (([] & s0 & Hbegin & (scs & s0' & Hget & Hloop)%bind_Ok)%bind_Ok
            & Hfinish))%bind_Ok.
  inversion Hget; subst s0' scs. clear Hget.
  assert (s0 = stateOf (beginPass ui)) as Es0 by (by rewrite Hbegin).
  assert (screens s0 = screens ui) as Escreens by (by subst s0).
  assert (coherent s0 ∧ structuredQueue s0 ∧
          boundingBoxStack s0 =
            [Rect.mk 0 0 (Terminal.width (terminal ui)) (Terminal.height (terminal ui))] ∧
          clipRectStack s0 = clipRectStack ui ∧ clip s0 = clip ui ∧
          idStack s0 = idStack ui ∧ trace s0 = trace ui)
    as (Hc0 & Hq0 & Ebbs0 & Ecrs0 & Eclip0 & Eids0 & Et0).
  { destruct Hc as [Hb Hcl]. subst s0. rewrite Hempty in Hb. cbn in Hb.
    unfold beginPass, mbind, M_bind, modify, gets, pushBoundingBox, relativeTo,
      coherent, structuredQueue. cbn. rewrite Hb, Hempty. cbn.
    repeat split; done. }
  rewrite Escreens in Hloop.
  destruct (renderScreens_restores (reverse (screens ui))) as [Hres Hkeep];
    [by apply Forall_reverse|].
  pose proof (Hres _ _ _ Hc0 Hloop) as E1.
  pose proof (Hkeep s0 Hq0) as Hq1. rewrite Hloop in Hq1. cbn [stateOf] in Hq1.
  pose proof (renderScreens_trace (reverse (screens ui)) s0) as Et1.
  rewrite Hloop in Et1. cbn [stateOf] in Et1.
  unfold stacks in E1. injection E1 as Ebbs1 Ebox1 Ecrs1 Eclip1 Eids1.
  unfold finishPass in Hfinish.
  apply bind_Ok in Hfinish as ([] & s2 & Hpop & ([] & s3 & Hcheck & Hrun)%bind_Ok).
  unfold popBoundingBox in Hpop. rewrite Ebbs1, Ebbs0 in Hpop. cbn in Hpop.
  inversion Hpop as [E2]. clear Hpop.
  unfold checkBoundingBoxStack, modify in Hcheck. rewrite <- E2 in Hcheck.
  cbn in Hcheck. inversion Hcheck as [E3]. clear Hcheck. rewrite E2 in E3. subst s3.
  assert (coherent s2) as Hc2.
  { subst s2. split; cbn; [done|]. rewrite Eclip1, Ecrs1. by destruct Hc0. }
  assert (structuredQueue s2) as Hq2 by (by subst s2).
  pose proof (runCallbacks_restores s2 Hq2 ui' Hc2 Hrun) as E4.
  pose proof (runCallbacks_trace s2) as Et4. rewrite Hrun in Et4. cbn [stateOf] in Et4.
  split.
  - rewrite E4. subst s2. unfold stacks; cbn.
    destruct Hc as [Hb _]. rewrite Hempty in *. cbn in Hb.
    rewrite Hb, Ecrs1, Eclip1, Eids1, Ecrs0, Eclip0, Eids0. done.
  - rewrite Et4. subst s2. cbn. congruence.
Qed.

Lemma render_Ok (ui ui' : t) :
  render ui = Ok () ui' →
  ∃ s, renderPass ui = Ok () s ∧ invalidated s = false ∧ flush s = Ok () ui'.
Proof.
  intros Hrender. destruct (renderPass ui) as [[] s|e s] eqn:Hpass.
  - destruct (invalidated s) eqn:Hinv.
    + by rewrite (render_invalidated ui s) in Hrender.
    + rewrite (render_settled ui s) in Hrender by done. eauto.
  - unfold render, MAX_RENDERS_PER_FRAME in Hrender. simpl renderLoop in Hrender.
    unfold mbind, M_bind in Hrender. by rewrite Hpass in Hrender.
Qed.

End Balanced.

(** X9. [Control] and [View] are balanced: a program that moves the
    bounding-box, clip-rect and id stacks only through them (drawing,
    testing, invalidating and queueing callbacks besides), run in a state
    whose current box and clip are the tops of their stacks, returns with
    the three stacks, the current box and the current clip as they were
    before. *)
Theorem control_and_view_restore_the_stacks (w : Widget) (ui ui' : UI.t) :
  UI.structured w = true → UI.coherent ui →
  UI.exec w ui = UI.Ok () ui' →
  UI.stacks ui' = UI.stacks ui.
Proof. intros Hs Hc Hrun. by eapply restores_exec. Qed.

(** X10. A render of screens whose hooks move the stacks only through
    [Control] and [View], on a UI with no bounding box left on the stack,
    prints nothing on the console: when it returns, the effects it added
    are the one flush, and the stacks are as they were (the bounding-box
    stack empty again). *)
Theorem balanced_render_reports_nothing (ui ui' : UI.t) :
  UI.coherent ui → UI.boundingBoxStack ui = [] →
  Forall (λ s, UI.structured (Screen.render s) = true) (UI.screens ui) →
  UI.render ui = UI.Ok () ui' →
  UI.stacks ui' = UI.stacks ui ∧
  UI.trace ui' = UI.trace ui ++ [TerminalRender].
Proof.
  intros Hc Hempty Hscreens (s & Hpass & _ & Hflush)%render_Ok.
  destruct (renderPass_balanced ui s Hc Hempty Hscreens Hpass) as [Es Et].
  inversion Hflush. unfold UI.stacks in *; cbn. by rewrite Et.
Qed.

Lemma control_and_view_restore_the_stacks_witness :
  UI.stacks (UI.stateOf (UI.exec sampleForm (boxedUI []))) = UI.stacks (boxedUI []).
Proof.
  apply (control_and_view_restore_the_stacks sampleForm (boxedUI [])).
  - reflexivity.
  - split; reflexivity.
  - vm_compute. reflexivity.
Defined.

Lemma balanced_render_reports_nothing_witness :
  UI.trace (UI.stateOf (UI.render (sampleUI [Screen.mk sampleForm false false])))
  = [TerminalRender].
Proof.
  set (ui := sampleUI [Screen.mk sampleForm false false]).
  destruct (balanced_render_reports_nothing ui (UI.stateOf (UI.render ui)))
    as [_ Htrace].
  - split; reflexivity.
  - reflexivity.
  - repeat constructor.
  - vm_compute. reflexivity.
  - exact Htrace.
Defined.

(** ** The end of the callback loop *)

Section CallbackLoop.

Import UI.


End CallbackLoop.



(** ** Drawing through boxes and clip rects *)

Section Drawing.

Import UI.

Lemma View_put (ui : t) (b : Rect.t) (x y w h : option Z) (a c : Z)
    (char : charArg) (fg : Z) (bg layer : option Z) :
  coherent ui → box ui = Some b →
  View x y w h (put a c char fg bg layer) ui =
  put (default 0 x + a) (default 0 y + c) char fg bg layer ui.
Proof.
  intros [Hb _] Hbox. rewrite Hbox in Hb.
  unfold View, orBox, mbind, M_bind, pushBoundingBox, modify, put, popBoundingBox,
    relativeTo.
  destruct ui as [tm sc bbs bx crs cl ids cid md ev fcs fo ho ac mo inv cbs tr].
  cbn in *. subst bx.
  assert (∀ r : Rect.t, bool_decide (0 < length (bbs ++ [r]))%nat = true) as Hlen.
  { intros r. apply bool_decide_eq_true. rewrite length_app; simpl; lia. }
  destruct w as [w|], h as [h|]; cbn;
    replace (default 0 x + Rect.x b + a) with (Rect.x b + (default 0 x + a)) by lia;
    replace (default 0 y + Rect.y b + c) with (Rect.y b + (default 0 y + c)) by lia;
    (destruct (forallb _ crs); cbn; rewrite Hlen; cbn;
     rewrite removelast_last, <- Hb; reflexivity).
Qed.

Lemma isMouseOver_rect (ui : t) (b : Rect.t) (x y w h : option Z) :
  box ui = Some b →
  isMouseOver x y w h ui =
  Ok (isPointInRect (Mouse.x (mouse ui)) (Mouse.y (mouse ui))
        (relativeTo (Some b) (default 0 x) (default 0 y)
           (default (Rect.width b) w) (default (Rect.height b) h))) ui.
Proof.
  intros Hbox. unfold isMouseOver. rewrite Hbox. f_equal.
  unfold isPointInside, isPointInRect, relativeTo; simpl.
  repeat case_bool_decide; simpl; try done; lia.
Qed.

Lemma forallb_last {A} (f : A → bool) (l : list A) (x : A) :
  forallb f l = true → last l = Some x → f x = true.
Proof.
  intros Hall Hlast. rewrite forallb_forall in Hall. apply Hall.
  apply list_elem_of_In. by apply last_Some_elem_of.
Qed.

End Drawing.

(** X11. Bounding boxes translate and never clip.  In a state whose
    current box is the top of its stack, a [put] at [(a, c)] made inside a
    [View] at [(x, y)] is the [put] at [(x + a, y + c)] made outside it,
    whatever the width and height of the view: the same result and the
    same state, stacks included. *)
Theorem view_translates_and_never_clips
    (ui : UI.t) (b : Rect.t) (x y w h : option Z) (a c : Z)
    (char : charArg) (fg : Z) (bg layer : option Z) :
  UI.coherent ui → UI.box ui = Some b →
  UI.exec (ViewW x y w h (Put a c char fg bg layer)) ui =
  UI.exec (Put (default 0 x + a) (default 0 y + c) char fg bg layer) ui.
Proof. intros Hc Hbox. simpl. by eapply View_put. Qed.

Lemma view_translates_and_never_clips_witness :
  UI.exec (ViewW (Some 1) (Some 1) (Some 1) (Some 1) (Put 1 0 (CharCode 65) 255 None None))
    (boxedUI [])
  = UI.exec (Put 2 1 (CharCode 65) 255 None None) (boxedUI []).
Proof.
  apply (view_translates_and_never_clips (boxedUI []) (Rect.mk 0 0 3 2)
           (Some 1) (Some 1) (Some 1) (Some 1) 1 0).
  - split; reflexivity.
  - reflexivity.
Defined.

(** X12. The hit test is the rectangle test.  With a current box,
    [isMouseOver(x, y, width, height)], which compares against the
    inclusive corners [x0 + width - 1] and [y0 + height - 1], gives on
    whole cells what [isPointInRect] gives for the rectangle of that size
    placed at [(x, y)] in the current box, the far edges excluded; the
    defaults are the origin and the size of the current box. *)
Theorem mouse_over_is_the_rectangle_test
    (ui : UI.t) (b : Rect.t) (x y w h : option Z) :
  UI.box ui = Some b →
  UI.isMouseOver x y w h ui =
  UI.Ok (isPointInRect (Mouse.x (UI.mouse ui)) (Mouse.y (UI.mouse ui))
           (UI.relativeTo (Some b) (default 0 x) (default 0 y)
              (default (Rect.width b) w) (default (Rect.height b) h))) ui.
Proof. apply isMouseOver_rect. Qed.

Lemma mouse_over_is_the_rectangle_test_witness :
  UI.isMouseOver None None None None (UI.set_mouse (Mouse.mk 2 1) (boxedUI []))
  = UI.Ok true (UI.set_mouse (Mouse.mk 2 1) (boxedUI [])).
Proof.
  rewrite (mouse_over_is_the_rectangle_test _ (Rect.mk 0 0 3 2)) by reflexivity.
  reflexivity.
Defined.

(** X13. A [put] through the UI draws at most one cell, and only inside
    every clip rect.  With a current box [b], [put(x, y, ...)] returns, and
    the state it leaves differs from the one before at most in the
    terminal's back buffer, there at most at the cell
    [(b.x + x, b.y + y)]; nothing at all changes when that cell lies
    outside some rect of the clip-rect stack, in particular (the current
    clip being the top of the stack) when [isCellVisible] is false for
    it. *)
Theorem put_draws_one_cell_inside_every_clip_rect
    (ui : UI.t) (b : Rect.t) (x y : Z) (char : charArg) (fg : Z) (bg layer : option Z) :
  UI.sound ui → UI.box ui = Some b →
  let ax := Rect.x b + x in
  let ay := Rect.y b + y in
  ∃ back,
    UI.put x y char fg bg layer ui =
      UI.Ok () (UI.set_terminal
                  (Terminal.mk (Terminal.width (UI.terminal ui))
                     (Terminal.height (UI.terminal ui)) (Terminal.font (UI.terminal ui))
                     (Terminal.frontBuffer (UI.terminal ui)) back
                     (Terminal.gl (UI.terminal ui))) ui) ∧
    (∀ x' y', Buffer.inBounds (Terminal.backBuffer (UI.terminal ui)) x' y' = true →
       (x', y') ≠ (ax, ay) →
       Buffer.cellAt back x' y' =
       Buffer.cellAt (Terminal.backBuffer (UI.terminal ui)) x' y') ∧
    (Exists (λ rect, isPointInRect ax ay rect = false) (UI.clipRectStack ui) →
     back = Terminal.backBuffer (UI.terminal ui)) ∧
    (UI.isCellVisible ui ax ay = false →
     back = Terminal.backBuffer (UI.terminal ui)).
Proof.
  intros [[_ Hclip] (_ & Hwf & _)] Hbox ax ay.
  unfold UI.put. rewrite Hbox. fold ax ay.
  destruct (forallb (isPointInRect ax ay) (UI.clipRectStack ui)) eqn:Hall.
  - eexists. split; [reflexivity|]. split; [|split].
    + intros x' y' Hin Hne. by apply put_other_cell.
    + intros (rect & Hrect & Hout)%Exists_exists.
      rewrite forallb_forall in Hall. apply list_elem_of_In in Hrect.
      rewrite (Hall rect Hrect) in Hout. done.
    + unfold UI.isCellVisible. rewrite Hclip.
      destruct (last (UI.clipRectStack ui)) as [rect|] eqn:Hlast; [|done].
      intros Hout. by rewrite (forallb_last _ _ rect Hall Hlast) in Hout.
  - exists (Terminal.backBuffer (UI.terminal ui)). split; [|done].
    by destruct ui as [[] ?].
Qed.

Lemma put_draws_one_cell_inside_every_clip_rect_witness :
  let ui := UI.stateOf (UI.pushClipRect 0 0 1 1 (boxedUI [])) in
  UI.put 2 1 (CharCode 65) 255 None None ui = UI.Ok () ui.
Proof.
  intros ui.
  destruct (put_draws_one_cell_inside_every_clip_rect ui (Rect.mk 0 0 3 2) 2 1
              (CharCode 65) 255 None None) as (back & Hput & _ & _ & Hhidden).
  - split; [split; reflexivity|vm_compute; repeat split; congruence].
  - reflexivity.
  - rewrite Hput, Hhidden; reflexivity.
Defined.

(** ** Events and interaction *)

#[global] Instance withoutEvent_preorder : PreOrder UI.withoutEvent.
Proof.
  split; [by intros s|].
  intros s1 s2 s3 H1 H2 H. destruct (H1 H) as (E & F & A).
  destruct (H2 E) as (E' & F' & A'). repeat split; congruence.
Qed.

#[global] Instance sameInteraction_preorder : PreOrder UI.sameInteraction.
Proof.
  split; [by intros s|]. unfold UI.sameInteraction.
  intros s1 s2 s3 H1 H2. congruence.
Qed.

Section Interaction.

Import UI.

Lemma parts_closed (ok : Widget → bool) :
  (∀ a b, ok (Seq a b) = ok a && ok b) →
  (∀ c a b, ok (If c a b) = ok a && ok b) →
  (∀ props cb, ok (ControlW props cb) = true → ok cb = true) →
  (∀ x y w h cb, ok (ViewW x y w h cb) = ok cb) →
  ∀ w p, ok w = true → p ∈ parts w → ok p = true.
Proof.
  intros HSeq HIf HControl HView w p Hok Hp.
  destruct w; simpl in Hp;
    rewrite ?HSeq, ?HIf, ?HView in Hok;
    repeat match goal with
           | H : _ && _ = true |- _ => apply andb_true_iff in H as [? ?]
           end;
    repeat (apply elem_of_cons in Hp as [->|Hp]; [by eauto|]);
    by apply elem_of_nil in Hp.
Qed.

Lemma interact_withoutEvent (id : jsval) (w h : Z) (s : t) :
  withoutEvent s (stateOf (interact id w h s)).
Proof.
  intros Hev. unfold interact, resolveHover, isMouseOver, addFocusableControl,
    mbind, M_bind, gets, modify.
  destruct s as [tm sc bbs [b|] crs cl ids cid md ev fcs fo ho ac mo inv cbs tr];
    cbn in *; subst ev; [|done].
  destruct (_ && _); cbn; [done|]. by case_decide.
Qed.

Lemma withoutEvent_exec (w : Widget) :
  viaControls w = true → respects withoutEvent (exec w).
Proof.
  apply (respects_exec withoutEvent viaControls);
    try (by intros; intros ? Hev; cbn; auto).
  - by apply parts_closed.
  - intros []; try done; simpl; intros _ _ s Hev;
      unfold put, popBoundingBox; repeat case_match; by cbn; auto.
  - intros s Hev. unfold popBoundingBox. case_bool_decide; by cbn; auto.
  - intros _ _ _ _ id w' h s _. apply interact_withoutEvent.
Qed.

Lemma sameInteraction_exec (w : Widget) :
  inert w = true → respects sameInteraction (exec w).
Proof.
  apply (respects_exec sameInteraction inert); try (by intros; intros ?).
  - apply parts_closed; try done. by intros props cb [_ ?]%andb_true_iff.
  - intros []; try done; simpl; intros _ _ s;
      unfold put, popBoundingBox; repeat case_match; done.
  - intros s. unfold popBoundingBox. by case_bool_decide.
  - intros props cb [Hd%bool_decide_eq_true _]%andb_true_iff Hen. by rewrite Hd in Hen.
Qed.

Lemma renderScreens_opaque (pre post : list Screen.t) (s : Screen.t) :
  Screen.isOpaque s = true →
  renderScreens (pre ++ s :: post) = renderScreens (pre ++ [s]).
Proof.
  intros Hopaque. induction pre as [|top pre IH]; simpl.
  - by rewrite Hopaque.
  - by rewrite IH.
Qed.

End Interaction.

(** X14. Without a current event, none dispatched or one consumed by
    [stopEventPropagation], widget code that reaches the focus only
    through [Control] moves neither the focus nor the active id, and
    leaves the UI without an event; so what runs after
    [stopEventPropagation] in a pass does not react to the event. *)
Theorem no_event_moves_no_focus (w : Widget) (ui : UI.t) :
  UI.viaControls w = true → UI.event ui = None →
  let ui' := UI.stateOf (UI.exec w ui) in
  UI.event ui' = None ∧ UI.focus ui' = UI.focus ui ∧ UI.active ui' = UI.active ui.
Proof. intros Hw Hev. by apply (withoutEvent_exec w Hw ui). Qed.

Lemma no_event_moves_no_focus_witness :
  let ui := UI.stateOf (UI.stopEventPropagation
                          (UI.set_mouse (Mouse.mk 1 0)
                             (UI.set_event (Some (MouseEvent "mousedown" 0)) (boxedUI [])))) in
  UI.active (UI.stateOf (UI.exec (sampleButton "ok") ui)) = Null.
Proof.
  intros ui.
  destruct (no_event_moves_no_focus (sampleButton "ok") ui) as (_ & _ & ->);
    reflexivity.
Defined.

(** X15. A disabled control is inert: a program whose controls are all
    disabled (and that does not call the focus methods itself) registers
    no focusable id and leaves the focus, the hover and the active id as
    they were, whatever the event and wherever the pointer is, whether it
    returns or throws. *)
Theorem disabled_controls_are_inert (w : Widget) (ui : UI.t) :
  UI.inert w = true →
  UI.interaction (UI.stateOf (UI.exec w ui)) = UI.interaction ui.
Proof. intros Hw. apply (sameInteraction_exec w Hw ui). Qed.

Lemma disabled_controls_are_inert_witness :
  let ui := UI.set_mouse (Mouse.mk 1 0)
              (UI.set_event (Some (MouseEvent "mousedown" 0)) (boxedUI [])) in
  let w := ControlW (Props.mk (Str "ok") (Some 0) (Some 0) (Some 2) (Some 1) (Some true)) Skip in
  UI.interaction (UI.stateOf (UI.exec w ui)) = (Null, Null, Null, []).
Proof.
  intros ui w. rewrite (disabled_controls_are_inert w ui); reflexivity.
Defined.

(** X16. What an event does to a control (the four [if] statements of
    [Control]).  The hover is never changed by them, and a control that
    is neither hovered, active nor focused ignores every event.  A
    mousedown on the hovered control makes it active and focused; a
    mouseup releases the active control; Enter pressed on the focused
    control makes it active and Enter released on the active control
    releases it. *)
Theorem control_event_lifecycle (id : jsval) (e : Event) (s : UI.t) :
  let s' := UI.handleEvent id e s in
  UI.hover s' = UI.hover s ∧
  (UI.hover s ≠ id → UI.active s ≠ id → UI.focus s ≠ id → s' = s) ∧
  (UI.hover s = id → isMouseEvent "mousedown" e = true →
   UI.active s' = id ∧ UI.focus s' = id) ∧
  (UI.active s = id → isMouseEvent "mouseup" e = true →
   UI.active s' = Null ∧ UI.focus s' = UI.focus s) ∧
  (UI.focus s = id → isKeyboardEvent "keydown" e = true → hasKey "Enter" e = true →
   UI.active s' = id ∧ UI.focus s' = id) ∧
  (UI.active s = id → isKeyboardEvent "keyup" e = true → hasKey "Enter" e = true →
   UI.active s' = Null ∧ UI.focus s' = UI.focus s).
Proof.
  intros s'. split; [apply handleEvent_hover|].
  split; [|split; [|split; [|split]]].
  - intros Hh Ha Hf. unfold s', UI.handleEvent.
    rewrite (bool_decide_eq_false_2 (UI.hover s = id)) by done. cbn.
    rewrite (bool_decide_eq_false_2 (UI.active s = id)) by done. cbn.
    rewrite (bool_decide_eq_false_2 (UI.focus s = id)) by done. cbn.
    rewrite (bool_decide_eq_false_2 (UI.active s = id)) by done. done.
  - intros Hh He. destruct e as [ty bt| |]; try done.
    apply bool_decide_eq_true in He. subst ty.
    unfold s', UI.handleEvent. cbn.
    repeat (case_bool_decide; cbn); done.
  - intros Ha He. destruct e as [ty bt| |]; try done.
    apply bool_decide_eq_true in He. subst ty.
    unfold s', UI.handleEvent. cbn.
    repeat (case_bool_decide; cbn); done.
  - intros Hf He Hk. destruct e as [|ty key sh|]; try done.
    apply bool_decide_eq_true in He, Hk. subst ty key.
    unfold s', UI.handleEvent. cbn.
    repeat (case_bool_decide; cbn); done.
  - intros Ha He Hk. destruct e as [|ty key sh|]; try done.
    apply bool_decide_eq_true in He, Hk. subst ty key.
    unfold s', UI.handleEvent. cbn.
    repeat (case_bool_decide; cbn); done.
Qed.

Lemma control_event_lifecycle_witness :
  let pressed := UI.handleEvent (Str "ok") (MouseEvent "mousedown" 0)
                   (UI.set_hover (Str "ok") (boxedUI [])) in
  UI.active pressed = Str "ok" ∧
  UI.active (UI.handleEvent (Str "ok") (MouseEvent "mouseup" 0) pressed) = Null.
Proof.
  intros pressed. split.
  - destruct (control_event_lifecycle (Str "ok") (MouseEvent "mousedown" 0)
                (UI.set_hover (Str "ok") (boxedUI []))) as (_ & _ & Hdown & _).
    by destruct Hdown.
  - destruct (control_event_lifecycle (Str "ok") (MouseEvent "mouseup" 0) pressed)
      as (_ & _ & _ & Hup & _).
    by destruct Hup.
Defined.

(** X17. An opaque screen hides the screens below it: the loop over the
    screens of a stack in which some screen is opaque does what it does
    for the stack without the screens below that one; their hooks are not
    run. *)
Theorem opaque_screen_hides_the_screens_below
    (below above : list Screen.t) (s : Screen.t) (ui : UI.t) :
  Screen.isOpaque s = true →
  UI.renderScreens (reverse (below ++ s :: above)) ui =
  UI.renderScreens (reverse (s :: above)) ui.
Proof.
  intros Hopaque. rewrite reverse_app, !reverse_cons, <- app_assoc. simpl.
  by rewrite renderScreens_opaque.
Qed.

Lemma opaque_screen_hides_the_screens_below_witness :
  UI.renderScreens (reverse [Screen.mk Invalidate false false; Screen.mk Skip false true])
    (boxedUI [])
  = UI.Ok () (boxedUI []).
Proof.
  rewrite (opaque_screen_hides_the_screens_below [Screen.mk Invalidate false false] []
             (Screen.mk Skip false true)); reflexivity.
Defined.

(** ** Moving the focus back and forth *)

Section FocusMore.

Import UI.

Lemma focusNext_step (ui : t) (i j : nat) (v : jsval) :
  NoDup (focusableControlIds ui) →
  focusableControlIds ui !! i = Some (focus ui) →
  j = (if decide (S i = length (focusableControlIds ui)) then 0 else S i)%nat →
  focusableControlIds ui !! j = Some v →
  focusNextControl ui = Ok () (set_focus v ui).
Proof.
  intros Hnd Hi -> Hj. unfold focusNextControl, modify.
  rewrite (indexOf_NoDup _ _ _ Hnd Hi). do 2 f_equal.
  case_decide; case_decide; try lia.
  - by apply (at_lookup _ 0).
  - replace (Z.of_nat i + 1) with (Z.of_nat (S i)) by lia. by apply at_lookup.
Qed.

Lemma focusPrevious_step (ui : t) (i j : nat) (v : jsval) :
  NoDup (focusableControlIds ui) →
  focusableControlIds ui !! i = Some (focus ui) →
  j = (if decide (i = 0) then length (focusableControlIds ui) - 1 else i - 1)%nat →
  focusableControlIds ui !! j = Some v →
  focusPreviousControl ui = Ok () (set_focus v ui).
Proof.
  intros Hnd Hi -> Hj. unfold focusPreviousControl, modify.
  rewrite (indexOf_NoDup _ _ _ Hnd Hi). do 2 f_equal.
  pose proof (lookup_lt_Some _ _ _ Hi) as Hlt.
  case_decide; case_decide; try lia.
  - replace (Z.of_nat (length (focusableControlIds ui)) - 1)
      with (Z.of_nat (length (focusableControlIds ui) - 1)) by lia.
    by apply at_lookup.
  - replace (Z.of_nat i - 1) with (Z.of_nat (i - 1)) by lia. by apply at_lookup.
Qed.

Lemma set_focus_same (ui : t) : set_focus (focus ui) ui = ui.
Proof. by destruct ui. Qed.

Lemma set_focus_twice (v v' : jsval) (ui : t) :
  set_focus v (set_focus v' ui) = set_focus v ui.
Proof. by destruct ui. Qed.

End FocusMore.

(** X18. Moving the focus forward and then backward, or backward and
    then forward, brings the UI back to the state it was in, when the
    focusable ids are pairwise distinct and the focus is one of them. *)
Theorem focus_next_and_previous_are_inverse (ui : UI.t) :
  NoDup (UI.focusableControlIds ui) →
  UI.focus ui ∈ UI.focusableControlIds ui →
  (UI.focusNextControl;; UI.focusPreviousControl) ui = UI.Ok () ui ∧
  (UI.focusPreviousControl;; UI.focusNextControl) ui = UI.Ok () ui.
Proof.
  intros Hnd [i Hi]%list_elem_of_lookup.
  pose proof (lookup_lt_Some _ _ _ Hi) as Hlt.
  set (ids := UI.focusableControlIds ui) in *.
  set (n := length ids) in *.
  split.
  - set (j := (if decide (S i = n) then 0 else S i)%nat).
    destruct (lookup_lt_is_Some_2 ids j) as [v Hj].
    { unfold j. case_decide; lia. }
    unfold mbind, UI.M_bind.
    rewrite (focusNext_step ui i j v Hnd Hi eq_refl Hj).
    rewrite (focusPrevious_step (UI.set_focus v ui) j i (UI.focus ui) Hnd Hj); [| |done].
    + by rewrite set_focus_twice, set_focus_same.
    + simpl. fold ids n. unfold j. repeat case_decide; lia.
  - set (j := (if decide (i = 0) then n - 1 else i - 1)%nat).
    destruct (lookup_lt_is_Some_2 ids j) as [v Hj].
    { unfold j. case_decide; lia. }
    unfold mbind, UI.M_bind.
    rewrite (focusPrevious_step ui i j v Hnd Hi eq_refl Hj).
    rewrite (focusNext_step (UI.set_focus v ui) j i (UI.focus ui) Hnd Hj); [| |done].
    + by rewrite set_focus_twice, set_focus_same.
    + simpl. fold ids n. unfold j. repeat case_decide; lia.
Qed.

Lemma focus_next_and_previous_are_inverse_witness :
  (UI.focusNextControl;; UI.focusPreviousControl) (focusUI (Str "C"))
  = UI.Ok () (focusUI (Str "C")).
Proof.
  apply (focus_next_and_previous_are_inverse (focusUI (Str "C"))).
  - apply (bool_decide_unpack _). vm_compute. exact I.
  - apply (bool_decide_unpack _). vm_compute. exact I.
Defined.

(** ** Text and frames *)

Section TextFacts.

Import UI.

Lemma put_box (x y : Z) char fg bg layer (ui : t) :
  box (stateOf (put x y char fg bg layer ui)) = box ui.
Proof.
  unfold put. destruct (box ui) eqn:E; [|done]. by destruct (forallb _ _).
Qed.

Lemma textFrom_box (value : list charArg) (cx cy : Z) (style : Style.t) (ui : t) :
  box (stateOf (textFrom value cx cy style ui)) = box ui.
Proof.
  revert cx cy ui. induction value as [|char rest IH]; intros cx cy ui; [done|].
  simpl. destruct (isNewline char); [apply IH|].
  unfold mbind, M_bind.
  pose proof (put_box cx cy char (default 0 (Style.fg style)) (Style.bg style) None ui)
    as Hput.
  destruct (put _ _ _ _ _ _ ui) as [[] s|e s]; simpl in *; [|done].
  by rewrite IH.
Qed.

Lemma textFrom_app (line rest : list charArg) (cx cy : Z) (style : Style.t) (ui : t) :
  Forall (λ c, isNewline c = false) line →
  textFrom (line ++ rest) cx cy style ui =
  (textFrom line cx cy style;;
   textFrom rest (cx + Z.of_nat (length line)) cy style) ui.
Proof.
  intros Hline. revert cx ui.
  induction Hline as [|char line Hchar Hline IH]; intros cx ui.
  - simpl. unfold mbind, M_bind, mret, M_ret. by rewrite Z.add_0_r.
  - simpl. rewrite Hchar. unfold mbind, M_bind in *.
    destruct (put _ _ _ _ _ _ ui) as [[] s|e s]; [|done].
    rewrite IH.
    replace (cx + Z.of_nat (S (length line)))
      with (cx + 1 + Z.of_nat (length line)) by lia.
    done.
Qed.

Lemma Text_newline (line rest : list charArg) (x y width height : option Z)
    (style : option Style.t) (ui : t) :
  Forall (λ c, isNewline c = false) line →
  Text (line ++ CharStr [10] :: rest) x y width height None style ui =
  (Text line x y width height None style;;
   Text rest (Some 0) (Some (default 0 y + 1)) width height None style) ui.
Proof.
  intros Hline. unfold Text. simpl default.
  unfold mbind, M_bind.
  destruct (orBox width _ ui) as [w s|e s] eqn:Hw; [|done].
  assert (s = ui) as -> by (unfold orBox in Hw; destruct width, (box ui); by simplify_eq).
  destruct (orBox height _ ui) as [h s|e s] eqn:Hh; [|done].
  assert (s = ui) as -> by (unfold orBox in Hh; destruct height, (box ui); by simplify_eq).
  rewrite textFrom_app by done. simpl textFrom.
  unfold mbind, M_bind.
  pose proof (textFrom_box line (default 0 x) (default 0 y)
                (default DefaultTheme.text style) ui) as Hbox.
  destruct (textFrom line _ _ _ ui) as [[] s|e s]; simpl in Hbox; [|done].
  assert (∀ f, ∃ w', orBox width f s = Ok w' s) as Hw'.
  { intros f. unfold orBox in *. rewrite Hbox.
    destruct width, (box ui); try done; eauto. }
  assert (∀ f, ∃ h', orBox height f s = Ok h' s) as Hh'.
  { intros f. unfold orBox in *. rewrite Hbox.
    destruct height, (box ui); try done; eauto. }
  destruct (Hw' (λ b, Rect.width b - 0)) as [w' ->].
  destruct (Hh' (λ b, Rect.height b - (default 0 y + 1))) as [h' ->].
  done.
Qed.

End TextFacts.

(** X20. Text layout.  Without wrapping, the characters of a line are
    put one cell apart from [(x, y)] on, and after a newline the text
    goes on at column 0 of the current box, not at [x], one row down:
    drawing [line ++ newline ++ rest] at [(x, y)] does what drawing
    [line] at [(x, y)] and then [rest] at [(0, y + 1)] does, the newline
    itself drawing nothing. *)
Theorem text_continues_at_column_zero_after_a_newline
    (line rest : list charArg) (x y width height : option Z)
    (style : option Style.t) (ui : UI.t) :
  Forall (λ c, isNewline c = false) line →
  Text (line ++ CharStr [10] :: rest) x y width height None style ui =
  (Text line x y width height None style;;
   Text rest (Some 0) (Some (default 0 y + 1)) width height None style) ui.
Proof. apply Text_newline. Qed.

Lemma text_continues_at_column_zero_after_a_newline_witness :
  Text (stringItems [72; 10; 105]) (Some 1) (Some 0) None None None None (boxedUI [])
  = (UI.put 1 0 (CharStr [72]) 4294967295 None None;;
     UI.put 0 1 (CharStr [105]) 4294967295 None None) (boxedUI []).
Proof.
  refine (eq_trans
    (text_continues_at_column_zero_after_a_newline
       (stringItems [72]) (stringItems [105]) (Some 1) (Some 0) None None None
       (boxedUI []) _) _).
  - by repeat constructor.
  - vm_compute. reflexivity.
Defined.

Section DrawingWithin.

Import UI.

Lemma drawsWithin_ret (S : Z → Z → Prop) : drawsWithin S (mret ()).
Proof.
  intros ui b [_ (_ & Hback & _)] _. exists (Terminal.backBuffer (terminal ui)).
  split; [by destruct ui as [[] ?]|].
  split; [exact Hback|]. split; [done|]. split; [done|]. done.
Qed.

Lemma drawsWithin_put (S : Z → Z → Prop) (x y : Z) char fg bg layer :
  S x y → drawsWithin S (put x y char fg bg layer).
Proof.
  intros HS ui b [_ (_ & Hback & _)] Hbox. unfold put. rewrite Hbox.
  destruct (forallb _ _).
  - eexists. split; [reflexivity|]. split; [by apply put_wf|].
    destruct (put_dims (Terminal.backBuffer (terminal ui)) (Rect.x b + x) (Rect.y b + y)
                char fg bg (Some (default 0 layer))) as [Ew Eh].
    split; [done|]. split; [done|].
    intros cx cy Hin Hout. apply put_other_cell; [done..|].
    intros E. apply Hout. simplify_eq.
    by replace (Rect.x b + x - Rect.x b) with x by lia;
       replace (Rect.y b + y - Rect.y b) with y by lia.
  - exists (Terminal.backBuffer (terminal ui)).
    split; [by destruct ui as [[] ?]|].
  split; [exact Hback|]. split; [done|]. split; [done|]. done.
Qed.

Lemma drawsWithin_bind (S : Z → Z → Prop) (m k : M unit) :
  drawsWithin S m → drawsWithin S k → drawsWithin S (m;; k).
Proof.
  intros Hm Hk ui b Hsound Hbox.
  destruct (Hm ui b Hsound Hbox) as (back1 & E1 & Hwf1 & Ew1 & Eh1 & Hcells1).
  unfold mbind, M_bind. rewrite E1.
  set (ui1 := set_terminal _ ui).
  assert (sound ui1) as Hsound1.
  { destruct Hsound as [Hc (Hf & Hb & F1 & F2 & B1 & B2)].
    split; [exact Hc|]. unfold ui1, Terminal.wf; simpl.
    split; [done|]. split; [done|]. split; [done|]. split; [done|].
    split; congruence. }
  destruct (Hk ui1 b Hsound1 Hbox) as (back2 & E2 & Hwf2 & Ew2 & Eh2 & Hcells2).
  exists back2. split; [by rewrite E2|]. simpl in *.
  split; [done|]. split; [congruence|]. split; [congruence|].
  intros cx cy Hin Hout. rewrite Hcells2, Hcells1; try done.
  unfold Buffer.inBounds in *. by rewrite Ew1, Eh1.
Qed.

Lemma drawsWithin_forEach {A} (S : Z → Z → Prop) (values : list A) (body : A → M unit) :
  (∀ a, a ∈ values → drawsWithin S (body a)) →
  drawsWithin S (forEach values body).
Proof.
  induction values as [|a rest IH]; intros Hbody; simpl.
  - apply drawsWithin_ret.
  - apply drawsWithin_bind.
    + apply Hbody. by left.
    + apply IH. intros a' Ha'. apply Hbody. by right.
Qed.

Lemma drawsWithin_mono (S S' : Z → Z → Prop) (m : M unit) :
  (∀ cx cy, S cx cy → S' cx cy) → drawsWithin S m → drawsWithin S' m.
Proof.
  intros Hsub Hm ui b Hsound Hbox.
  destruct (Hm ui b Hsound Hbox) as (back & E & Hwf & Ew & Eh & Hcells).
  exists back. repeat (split; [done|]). intros cx cy Hin Hout. apply Hcells; auto.
Qed.

Lemma textFrom_row (line : list charArg) (cx cy : Z) (style : Style.t) :
  Forall (λ c, isNewline c = false) line →
  drawsWithin (λ px py, py = cy ∧ cx ≤ px < cx + Z.of_nat (length line))
    (textFrom line cx cy style).
Proof.
  intros Hline. revert cx. induction Hline as [|char line Hchar Hline IH]; intros cx.
  - apply drawsWithin_ret.
  - simpl textFrom. rewrite Hchar. apply drawsWithin_bind.
    + apply drawsWithin_put. cbn [length]. lia.
    + eapply drawsWithin_mono; [|apply (IH (cx + 1))].
      intros px py. cbv beta. cbn [length]. lia.
Qed.

Lemma Text_row (line : list charArg) (x y : Z) (width height : option Z)
    (style : option Style.t) :
  Forall (λ c, isNewline c = false) line →
  drawsWithin (λ px py, py = y ∧ x ≤ px < x + Z.of_nat (length line))
    (Text line (Some x) (Some y) width height None style).
Proof.
  intros Hline ui b Hsound Hbox.
  assert (Text line (Some x) (Some y) width height None style ui =
          textFrom line x y (default DefaultTheme.text style) ui) as ->.
  { unfold Text, orBox, mbind, M_bind. rewrite Hbox.
    by destruct width, height; simpl; rewrite ?Hbox. }
  by apply textFrom_row.
Qed.

End DrawingWithin.

Lemma Frame_outline (x y width height : Z) chars fg bg :
  1 ≤ width → 1 ≤ height →
  drawsWithin (onOutline x y width height)
    (Frame (Some x) (Some y) (Some width) (Some height) chars fg bg None).
Proof.
  intros Hw Hh. unfold Frame, UI.orBox. simpl default.
  unfold mbind at 1 2, UI.M_bind at 1 2.
  repeat apply drawsWithin_bind; try apply drawsWithin_ret.
  - apply drawsWithin_forEach. intros i Hi%elem_of_seqZ.
    apply drawsWithin_bind; apply drawsWithin_put; unfold onOutline; lia.
  - apply drawsWithin_forEach. intros j Hj%elem_of_seqZ.
    apply drawsWithin_bind; apply drawsWithin_put; unfold onOutline; lia.
  - apply drawsWithin_put; unfold onOutline; lia.
  - apply drawsWithin_put; unfold onOutline; lia.
  - apply drawsWithin_put; unfold onOutline; lia.
  - apply drawsWithin_put; unfold onOutline; lia.
Qed.


(** X21. A line of text stays on its row and is not clipped to the
    rectangle it is given.  With a current box, [Text] of a string of [n]
    characters without a newline, at [(x, y)], returns and changes at most
    the back buffer of the terminal, there at most the [n] cells from
    [(x, y)] to [(x + n - 1, y)] of the current box, whatever [width] and
    [height] are: the two properties are not used to cut the text. *)
Theorem text_line_stays_on_its_row
    (line : list charArg) (x y : Z) (width height : option Z)
    (style : option Style.t) :
  Forall (λ c, isNewline c = false) line →
  drawsWithin (λ px py, py = y ∧ x ≤ px < x + Z.of_nat (length line))
    (Text line (Some x) (Some y) width height None style).
Proof. apply Text_row. Qed.

Lemma text_line_stays_on_its_row_witness :
  ∃ back,
    Text (stringItems [72; 105]) (Some 1) (Some 0) (Some 1) (Some 1) None None (boxedUI []) =
      UI.Ok () (UI.set_terminal
                  (Terminal.mk 3 2 (Some Font.default) (Buffer.new 3 2) back []) (boxedUI [])) ∧
    Buffer.cellAt back 0 0 = Some (Buffer.Cell 0 0 0 0).
Proof.
  destruct (text_line_stays_on_its_row (stringItems [72; 105]) 1 0 (Some 1) (Some 1) None
              ltac:(by repeat constructor) (boxedUI []) (Rect.mk 0 0 3 2))
    as (back & E & _ & _ & _ & Hcells).
  - split; [split; reflexivity|vm_compute; repeat split; congruence].
  - reflexivity.
  - exists back. split; [exact E|].
    rewrite (Hcells 0 0); [reflexivity|reflexivity|].
    vm_compute. intros [_ [H _]]. by apply H.
Defined.

(** X22. A frame draws its outline and nothing else.  With a current
    box, [Frame] without a callback, for a rectangle of at least one cell
    each way, returns and changes at most the back buffer of the
    terminal; every cell that is not on the outline of the rectangle
    (the rows [y] and [y + height - 1] between the columns [x] and
    [x + width - 1], and those two columns between the two rows, in the
    current box) keeps its content. *)
Theorem frame_draws_only_its_outline
    (x y width height : Z) (chars : option (list charArg)) (fg bg : option Z) :
  1 ≤ width → 1 ≤ height →
  drawsWithin (onOutline x y width height)
    (Frame (Some x) (Some y) (Some width) (Some height) chars fg bg None).
Proof. apply Frame_outline. Qed.

Lemma frame_draws_only_its_outline_witness :
  ∃ back,
    Frame (Some 0) (Some 0) (Some 3) (Some 2) None None None None (boxedUI []) =
      UI.Ok () (UI.set_terminal
                  (Terminal.mk 3 2 (Some Font.default) (Buffer.new 3 2) back []) (boxedUI [])).
Proof.
  destruct (frame_draws_only_its_outline 0 0 3 2 None None None ltac:(lia) ltac:(lia)
              (boxedUI []) (Rect.mk 0 0 3 2)) as (back & E & _).
  - split; [split; reflexivity|vm_compute; repeat split; congruence].
  - reflexivity.
  - exists back. exact E.
Defined.

(** ** Buttons and toggles *)

Section ButtonFacts.

Import UI.

Lemma put_terminal (x y : Z) char fg bg layer (s : t) :
  ∃ tm, stateOf (put x y char fg bg layer s) = set_terminal tm s.
Proof.
  unfold put. destruct (box s); [destruct (forallb _ _)|]; simpl; eauto;
    exists (terminal s); by destruct s.
Qed.

Lemma textFrom_terminal (value : list charArg) (cx cy : Z) (style : Style.t) (s : t) :
  ∃ tm, stateOf (textFrom value cx cy style s) = set_terminal tm s.
Proof.
  revert cx cy s. induction value as [|char rest IH]; intros cx cy s.
  - exists (terminal s). by destruct s.
  - simpl. destruct (isNewline char); [apply IH|].
    unfold mbind, M_bind.
    destruct (put_terminal cx cy char (default 0 (Style.fg style)) (Style.bg style)
                None s) as [tm1 E1].
    destruct (put _ _ _ _ _ _ s) as [[] s1|e s1]; simpl in E1; subst s1; [|eauto].
    destruct (IH (cx + 1) cy (set_terminal tm1 s)) as [tm2 ->].
    exists tm2. by destruct s.
Qed.

Lemma Text_terminal value x y width height wrap style (s : t) :
  ∃ tm, stateOf (Text value x y width height wrap style s) = set_terminal tm s.
Proof.
  assert (∃ tm, s = set_terminal tm s) as Hsame by (exists (terminal s); by destruct s).
  unfold Text, orBox, mbind, M_bind.
  destruct (box s) eqn:Hb, width, height; simpl; rewrite ?Hb; simpl;
    try exact Hsame;
    (destruct (default false wrap); [exact Hsame|apply textFrom_terminal]).
Qed.

(** [Control] is [ControlWith] with the value dropped. *)
Lemma Control_ControlWith {A} (props : Props.t) (callback : M A) (s : t) :
  Control props (callback ≫= λ _, mret ()) s =
  (ControlWith props callback ≫= λ _, mret ()) s.
Proof.
  unfold Control, ControlWith, mbind, M_bind.
  destruct (orBox (Props.width props) Rect.width s) as [w s0|]; [|done].
  destruct (orBox (Props.height props) Rect.height s0) as [h s1|]; [|done].
  destruct (pushId (Props.id props) s1) as [[] s2|]; [|done].
  destruct (pushBoundingBox _ _ w h s2) as [[] s3|]; [|done].
  destruct (isNullish _); [done|].
  destruct (getId s3) as [id s4|]; [|done].
  destruct (gets isModal s4) as [modal s5|]; [|done].
  destruct ((if negb _ && negb modal then interact id w h else mret ()) s5)
    as [[] s6|]; [|done].
  destruct (callback s6) as [a s7|]; [|done]. unfold mret, M_ret.
  destruct (popBoundingBox s7) as [[] s8|]; [|done].
  by destruct (popId s8) as [[] s9|].
Qed.

(** The state in which the callback of a control runs, and what the
    control does after it: the interaction fields at the start of the
    callback are those of the caller when the control is disabled, the
    current id is the qualified id, and the pops leave the interaction
    fields of the callback's final state. *)
Lemma ControlWith_Ok {A} (props : Props.t) (callback : M A) (s s' : t) (a : A) :
  ControlWith props callback s = Ok a s' →
  ∃ s1 s2,
    callback s1 = Ok a s2 ∧
    currentId s1 = qualifiedId s (Props.id props) ∧
    (default false (Props.disabled props) = true → interaction s1 = interaction s) ∧
    interaction s' = interaction s2.
Proof.
  unfold ControlWith.
  intros (w & u0 & H0 & (h & u1 & H1 & H)%bind_Ok)%bind_Ok.
  assert (u0 = s) as ->
    by (unfold orBox in H0; destruct (Props.width props), (box s); by inversion H0).
  assert (u1 = s) as ->
    by (unfold orBox in H1; destruct (Props.height props), (box s); by inversion H1).
  apply bind_Ok in H as ([] & p1 & HpushId & ([] & p2 & Hpush & H)%bind_Ok).
  destruct (isNullish _); [done|].
  apply bind_Ok in H as (id & p2' & Hid & (modal & p2'' & Hmodal & H)%bind_Ok).
  inversion Hid; subst p2' id. inversion Hmodal; subst p2'' modal. clear Hid Hmodal.
  apply bind_Ok in H as ([] & s1 & Hint & (a' & s2 & Hrun & H)%bind_Ok).
  apply bind_Ok in H as ([] & p5 & Hpop & ([] & p6 & HpopId & Hret)%bind_Ok).
  inversion Hret; subst a' p6. clear Hret.
  inversion HpushId as [E1]. inversion Hpush as [E2]. clear HpushId Hpush.
  exists s1, s2. split; [done|].
  assert (currentId p2 = qualifiedId s (Props.id props)) as Hcur by (by subst p2 p1).
  assert (interaction p2 = interaction s) as Hsame by (by subst p2 p1).
  split; [|split].
  - destruct (negb _ && negb _).
    + destruct (interact_shape (currentId p2) w h p2) as (f & hv & ac & l & E).
      rewrite Hint in E. simpl in E. subst s1. exact Hcur.
    + inversion Hint. by subst s1.
  - intros Hd. rewrite Hd in Hint. simpl in Hint. inversion Hint. by subst s1.
  - unfold popBoundingBox in Hpop. case_bool_decide; [|done].
    inversion Hpop as [E5]. inversion HpopId as [E6]. by subst p5.
Qed.

End ButtonFacts.

(** X23. What a button returns.  [Button] returns [true] exactly when,
    as it returns, the active id is its own qualified id (the ids on the
    stack and its own, joined): on the render of a press on it and on
    every later render until the release.  A disabled button changes no
    interaction field, and still returns [true] while its id is the
    active one. *)
Theorem button_returns_whether_it_is_active
    (props : ButtonProps.t) (ui ui' : UI.t) (clicked : bool) :
  Button props ui = UI.Ok clicked ui' →
  clicked = bool_decide (qualifiedId ui (ButtonProps.id props) = UI.active ui') ∧
  (ButtonProps.disabled props = Some true →
   UI.interaction ui' = UI.interaction ui ∧
   clicked = bool_decide (qualifiedId ui (ButtonProps.id props) = UI.active ui)).
Proof.
  unfold Button. intros (s1 & s2 & Hrun & Hcur & Hdis & Hafter)%ControlWith_Ok.
  simpl in Hcur, Hdis.
  unfold mbind, UI.M_bind, UI.gets in Hrun.
  set (styles := buttonStyles _ _ _ _) in Hrun.
  assert (∃ tm, s2 = UI.set_terminal tm s1 ∧ clicked = UI.isActive s1)
    as (tm & -> & ->).
  { destruct (decide (ButtonProps.label props = [])).
    - inversion Hrun. exists (UI.terminal s2). split; [by destruct s2|done].
    - destruct (Text_terminal (stringItems (ButtonProps.label props)) None None None None
                  None (Some styles) s1) as [tm E].
      destruct (Text _ _ _ _ _ _ _ s1) as [[] s|e s]; [|done].
      simpl in E. inversion Hrun. subst. eauto. }
  assert (UI.active ui' = UI.active s1) as Hactive.
  { unfold UI.interaction in Hafter. simpl in Hafter. by simplify_eq. }
  unfold UI.isActive. rewrite Hcur, Hactive. split; [done|].
  intros Hd. rewrite Hd in Hdis. specialize (Hdis eq_refl).
  split; [by rewrite Hafter|].
  unfold UI.interaction in Hdis. injection Hdis as _ _ -> _. done.
Qed.

Lemma button_returns_whether_it_is_active_witness :
  let ui := UI.set_mouse (Mouse.mk 1 0)
              (UI.set_event (Some (MouseEvent "mousedown" 0)) (boxedUI [])) in
  bool_decide (qualifiedId ui (Str "ok") = UI.active (UI.stateOf (Button okButton ui)))
  = true.
Proof.
  intros ui.
  destruct (button_returns_whether_it_is_active okButton ui
              (UI.stateOf (Button okButton ui)) true) as [H _].
  - vm_compute. reflexivity.
  - symmetry. exact H.
Defined.



(** X25. What a toggle returns.  [Toggle] passes to its callback, and
    returns, the negation of the value it is given when its qualified id
    is the active id, and the value itself otherwise (for a callback that
    leaves the active id alone): the value flips on every render between
    the press and the release, not once per click. *)
Theorem toggle_flips_while_active
    (id : jsval) (value : bool) (x y width height : option Z) (disabled : option bool)
    (callback : bool → UI.M unit) (ui ui' : UI.t) (returned : bool) :
  (∀ v s, UI.active (UI.stateOf (callback v s)) = UI.active s) →
  Toggle id value x y width height disabled callback ui = UI.Ok returned ui' →
  returned =
    (if bool_decide (qualifiedId ui id = UI.active ui') then negb value else value).
Proof.
  intros Hcb. unfold Toggle.
  intros (s1 & s2 & Hrun & Hcur & _ & Hafter)%ControlWith_Ok. simpl in Hcur.
  unfold mbind, UI.M_bind, UI.gets in Hrun.
  specialize (Hcb (if UI.isActive s1 then negb value else value) s1).
  destruct (callback _ s1) as [[] s|e s]; [|done]. simpl in Hcb.
  inversion Hrun. subst s.
  assert (UI.active ui' = UI.active s1) as ->.
  { unfold UI.interaction in Hafter. injection Hafter as _ _ -> _. done. }
  unfold UI.isActive. by rewrite Hcur.
Qed.

Lemma toggle_flips_while_active_witness :
  let ui := UI.set_mouse (Mouse.mk 0 0)
              (UI.set_event (Some (MouseEvent "mousedown" 0)) (boxedUI [])) in
  let run := Toggle (Str "t") false None None None None None (λ _, mret ()) ui in
  (if bool_decide (qualifiedId ui (Str "t") = UI.active (UI.stateOf run))
   then negb false else false) = true.
Proof.
  intros ui run. symmetry.
  apply (toggle_flips_while_active (Str "t") false None None None None None
           (λ _, mret ()) ui (UI.stateOf run) true).
  - intros v s. reflexivity.
  - vm_compute. reflexivity.
Defined.

(** ** Editing a value *)

Section InputFacts.







End InputFacts.


(** ** Colours *)

Section ColorFacts.

Lemma toUint32_land (v : Z) : toUint32 v = Z.land v (Z.ones 32).
Proof. unfold toUint32. by rewrite Z.land_ones by lia. Qed.

Lemma toUint32_lor (x y : Z) :
  toUint32 (Z.lor x y) = Z.lor (toUint32 x) (toUint32 y).
Proof. rewrite !toUint32_land. apply Z.land_lor_distr_l. Qed.

Lemma toUint32_toInt32 (v : Z) : toUint32 (toInt32 v) = toUint32 v.
Proof.
  unfold toInt32. case_decide.
  - unfold toUint32. by rewrite Z.mod_mod by lia.
  - unfold toUint32.
    replace (v mod 2 ^ 32 - 2 ^ 32) with (v mod 2 ^ 32 + (-1) * 2 ^ 32) by lia.
    rewrite Z.mod_add by lia. by rewrite Z.mod_mod by lia.
Qed.

Lemma toInt32_byte (v : Z) : 0 ≤ v < 256 → toInt32 v = v.
Proof.
  intros Hv. unfold toInt32, toUint32.
  rewrite Z.mod_small by lia. rewrite decide_True by lia. done.
Qed.

Lemma toUint32_shl (v k : Z) :
  0 ≤ v < 256 → 0 ≤ k ≤ 24 → toUint32 (Color.shl v k) = v * 2 ^ k.
Proof.
  intros Hv Hk. unfold Color.shl.
  rewrite toUint32_toInt32, toInt32_byte by done.
  rewrite (Z.mod_small k) by lia. rewrite Z.shiftl_mul_pow2 by lia.
  unfold toUint32. apply Z.mod_small.
  assert (2 ^ k ≤ 2 ^ 24) by (apply Z.pow_le_mono_r; lia).
  assert (0 < 2 ^ k) by (apply Z.pow_pos_nonneg; lia). nia.
Qed.

Lemma lor_disjoint (hi lo k : Z) :
  0 ≤ k → 0 ≤ lo < 2 ^ k → Z.lor (hi * 2 ^ k) lo = hi * 2 ^ k + lo.
Proof.
  intros Hk Hlo. symmetry. apply Z.add_nocarry_lor.
  rewrite <- (Z.mod_small lo (2 ^ k)) by done.
  rewrite <- Z.land_ones by done.
  rewrite (Z.land_comm lo), Z.land_assoc, Z.land_ones by done.
  rewrite Z.mod_mul by lia. apply Z.land_0_l.
Qed.

Lemma RGBA_sum (r g b a : Z) :
  0 ≤ r < 256 → 0 ≤ g < 256 → 0 ≤ b < 256 → 0 ≤ a < 256 →
  Color.RGBA r g b (Some a) = r * 2 ^ 24 + g * 2 ^ 16 + b * 2 ^ 8 + a.
Proof.
  intros Hr Hg Hb Ha. unfold Color.RGBA. simpl default.
  rewrite !toUint32_lor, !toUint32_shl, toUint32_toInt32 by lia.
  rewrite (toUint32_small a) by lia.
  rewrite (lor_disjoint r (g * 2 ^ 16) 24) by lia.
  replace (r * 2 ^ 24 + g * 2 ^ 16) with ((r * 2 ^ 8 + g) * 2 ^ 16) by lia.
  rewrite (lor_disjoint _ (b * 2 ^ 8) 16) by lia.
  replace ((r * 2 ^ 8 + g) * 2 ^ 16 + b * 2 ^ 8)
    with ((r * 2 ^ 16 + g * 2 ^ 8 + b) * 2 ^ 8) by lia.
  rewrite (lor_disjoint _ a 8) by lia. lia.
Qed.

Lemma uint32Bytes_sum (r g b a : Z) :
  0 ≤ r < 256 → 0 ≤ g < 256 → 0 ≤ b < 256 → 0 ≤ a < 256 →
  Terminal.uint32Bytes (r * 2 ^ 24 + g * 2 ^ 16 + b * 2 ^ 8 + a) = [r; g; b; a].
Proof.
  intros Hr Hg Hb Ha. unfold Terminal.uint32Bytes.
  rewrite toUint32_small by lia.
  change 255 with (Z.ones 8). rewrite !Z.land_ones, !Z.shiftr_div_pow2 by lia.
  assert ((r * 2 ^ 24 + g * 2 ^ 16 + b * 2 ^ 8 + a) `div` 2 ^ 24 = r) as ->
    by (symmetry; apply (Z.div_unique_pos _ _ _ (g * 2 ^ 16 + b * 2 ^ 8 + a)); lia).
  assert ((r * 2 ^ 24 + g * 2 ^ 16 + b * 2 ^ 8 + a) `div` 2 ^ 16 = r * 2 ^ 8 + g) as ->
    by (symmetry; apply (Z.div_unique_pos _ _ _ (b * 2 ^ 8 + a)); lia).
  assert ((r * 2 ^ 24 + g * 2 ^ 16 + b * 2 ^ 8 + a) `div` 2 ^ 8
          = r * 2 ^ 16 + g * 2 ^ 8 + b) as ->
    by (symmetry; apply (Z.div_unique_pos _ _ _ a); lia).
  f_equal; [|f_equal; [|f_equal; [|f_equal]]].
  - apply Z.mod_small; lia.
  - symmetry. apply (Z.mod_unique_pos _ _ r); lia.
  - symmetry. apply (Z.mod_unique_pos _ _ (r * 2 ^ 8 + g)); lia.
  - symmetry. apply (Z.mod_unique_pos _ _ (r * 2 ^ 16 + g * 2 ^ 8 + b)); lia.
Qed.

End ColorFacts.

(** X27. The bytes of a colour.  For components between 0 and 255,
    [RGBA(r, g, b, a)] is the number [r * 2^24 + g * 2^16 + b * 2^8 + a],
    between 0 and [2^32 - 1] also when the red component is 128 or more
    (the signed result of the shifts is made unsigned), and the four
    bytes that the renderer uploads for it as the colour of a vertex are
    [r], [g], [b], [a] in this order; the alpha defaults to 255. *)
Theorem rgba_packs_the_bytes_the_renderer_uploads (r g b a : Z) :
  0 ≤ r < 256 → 0 ≤ g < 256 → 0 ≤ b < 256 → 0 ≤ a < 256 →
  Color.RGBA r g b (Some a) = r * 2 ^ 24 + g * 2 ^ 16 + b * 2 ^ 8 + a ∧
  0 ≤ Color.RGBA r g b (Some a) < 2 ^ 32 ∧
  Terminal.uint32Bytes (Color.RGBA r g b (Some a)) = [r; g; b; a] ∧
  Color.RGBA r g b None = Color.RGBA r g b (Some 255).
Proof.
  intros Hr Hg Hb Ha. rewrite RGBA_sum by done.
  split; [done|]. split; [lia|]. split; [by apply uint32Bytes_sum|done].
Qed.

Lemma rgba_packs_the_bytes_the_renderer_uploads_witness :
  Terminal.uint32Bytes (Color.RGBA 255 0 128 (Some 64)) = [255; 0; 128; 64].
Proof.
  apply (rgba_packs_the_bytes_the_renderer_uploads 255 0 128 64); lia.
Defined.

(** ** Dispatching events *)

#[global] Instance staysWithoutEvent_preorder : PreOrder staysWithoutEvent.
Proof.
  split; [by intros s|]. unfold staysWithoutEvent. intros s1 s2 s3 H1 H2 H. auto.
Qed.

Section Dispatch.

Import UI.

Lemma staysWithoutEvent_exec (w : Widget) : respects staysWithoutEvent (exec w).
Proof.
  apply (respects_exec staysWithoutEvent (λ _, true)); try done;
    try (by intros; intros ? Hev; cbn; auto).
  - intros [] _; try done; intros _ s Hev; simpl;
      unfold put, popBoundingBox; repeat case_match; by cbn; auto.
  - intros s Hev. unfold popBoundingBox. case_bool_decide; by cbn; auto.
  - intros _ _ _ _ id w' h s _ Hev.
    destruct (interact_shape id w' h s) as (f & hv & a & l & ->). exact Hev.
Qed.

Lemma staysWithoutEvent_render : respects staysWithoutEvent render.
Proof.
  apply (respects_render staysWithoutEvent);
    [apply (respects_renderPass staysWithoutEvent)|..];
    auto using staysWithoutEvent_exec;
    unfold respects, staysWithoutEvent; intros;
    unfold pushBoundingBox, popBoundingBox, modify; repeat case_match; by cbn; auto.
Qed.

Lemma render_flushes (ui : t) :
  flushes (trace (stateOf (render ui))) =
  if isOk (render ui) then S (flushes (trace ui)) else flushes (trace ui).
Proof. apply render_flushes_once. Qed.

End Dispatch.

(** X28. A mouse move that stays in the cell the pointer is in renders
    nothing: the event is not exposed, no pass is made, nothing is
    flushed, and the UI and the state of the buttons are as before. *)
Theorem mouse_move_within_a_cell_renders_nothing
    (e : DomEvent.t) (button : Z) (ui : UI.t) (p : Pointer.t) :
  DomEvent.event e = MouseEvent "mousemove" button →
  DomEvent.cell e = (Mouse.x (UI.mouse ui), Mouse.y (UI.mouse ui)) →
  dispatchEvent e ui p = (UI.Ok () ui, p).
Proof.
  intros Hev Hcell. unfold dispatchEvent, initialEventHandler.
  rewrite Hev, Hcell. simpl. rewrite decide_True by done. done.
Qed.

Lemma mouse_move_within_a_cell_renders_nothing_witness :
  dispatchEvent (DomEvent.mk (MouseEvent "mousemove" 0) (-1, -1) false)
    (sampleUI [Screen.mk sampleForm false false]) Pointer.new
  = (UI.Ok () (sampleUI [Screen.mk sampleForm false false]), Pointer.new).
Proof.
  by apply (mouse_move_within_a_cell_renders_nothing _ 0).
Defined.

(** X29. Tab traversal.  For a keydown of Tab whose default was not
    prevented, when the render of the event returns: if a control
    consumed the event during the render, nothing more happens and the
    focus is where the render left it; otherwise the event is cleared,
    the focus moves to the next focusable id registered by that render
    (the previous one with Shift), and the UI is rendered a second time,
    without a current event.  The dispatch then has flushed the terminal
    twice when the second render returns, and the state of the buttons is
    untouched. *)
Theorem tab_moves_the_focus_and_renders_again
    (e : DomEvent.t) (shift : bool) (ui s : UI.t) (p : Pointer.t) :
  DomEvent.event e = KeyboardEvent "keydown" "Tab" shift →
  DomEvent.defaultPrevented e = false →
  UI.render (UI.set_event (Some (DomEvent.event e)) ui) = UI.Ok () s →
  let r := dispatchEvent e ui p in
  r.2 = p ∧
  (UI.event s = None → r.1 = UI.Ok () s) ∧
  (UI.event s ≠ None →
   r.1 = ((if shift then UI.focusPreviousControl else UI.focusNextControl);;
          UI.render) (UI.set_event None s) ∧
   UI.event (UI.stateOf r.1) = None ∧
   UI.flushes (UI.trace (UI.stateOf r.1)) =
     ((if UI.isOk r.1 then 2 else 1) + UI.flushes (UI.trace ui))%nat).
Proof.
  intros Hev Hprevent Hrender r.
  assert (r = (renderEvent e ui, p)) as -> by (unfold r, dispatchEvent, initialEventHandler; by rewrite Hev).
  split; [done|]. cbn [fst snd].
  unfold renderEvent, mbind, UI.M_bind, UI.modify, UI.gets.
  rewrite Hrender, Hprevent.
  pose proof (render_flushes (UI.set_event (Some (DomEvent.event e)) ui)) as Hflush1.
  rewrite Hrender in Hflush1. simpl in Hflush1.
  split.
  - intros ->. done.
  - intros Hsome. destruct (UI.event s) as [ev|] eqn:Hevent; [|done].
    unfold defaultEventHandler. rewrite Hev. simpl.
    set (moved := UI.stateOf ((if shift then UI.focusPreviousControl
                               else UI.focusNextControl) (UI.set_event None s))).
    assert ((if shift then UI.focusPreviousControl else UI.focusNextControl)
              (UI.set_event None s) = UI.Ok () moved) as Hmove by (by destruct shift).
    unfold mbind, UI.M_bind. rewrite Hmove.
    assert (UI.event moved = None ∧ UI.trace moved = UI.trace s) as [Hnone Htrace]
      by (unfold moved; by destruct shift).
    split; [done|]. split.
    + by apply staysWithoutEvent_render.
    + rewrite render_flushes, Htrace, Hflush1. by destruct (UI.isOk _).
Qed.

Lemma tab_moves_the_focus_and_renders_again_witness :
  let ui := sampleUI [Screen.mk (Seq (sampleButton "A") (sampleButton "B")) false false] in
  UI.focus (UI.stateOf (dispatchEvent
                          (DomEvent.mk (KeyboardEvent "keydown" "Tab" false) (0, 0) false)
                          ui Pointer.new).1)
  = Str "A".
Proof.
  intros ui.
  set (e := DomEvent.mk (KeyboardEvent "keydown" "Tab" false) (0, 0) false).
  set (s := UI.stateOf (UI.render (UI.set_event (Some (DomEvent.event e)) ui))).
  destruct (tab_moves_the_focus_and_renders_again e false ui s Pointer.new)
    as (_ & _ & Hmoved).
  - reflexivity.
  - reflexivity.
  - vm_compute. reflexivity.
  - destruct Hmoved as (-> & _); [by vm_compute|]. vm_compute. reflexivity.
Defined.

(** ** Local values *)

Section StoreFacts.

Lemma hasColon_app (a s : string) : hasColon s = true → hasColon (a +:+ s) = true.
Proof.
  intros Hs. induction a as [|c a IH]; simpl; [done|]. rewrite IH. apply orb_true_r.
Qed.

Lemma localKey_inj (a b k1 k2 : string) :
  hasColon k1 = false → hasColon k2 = false →
  a +:+ ":" +:+ k1 = b +:+ ":" +:+ k2 → a = b ∧ k1 = k2.
Proof.
  intros H1 H2. revert b. induction a as [|c a IH]; intros [|c' b] E;
    cbv [String.append] in E; fold String.append in E.
  - by simplify_eq.
  - injection E as <- ->. by rewrite hasColon_app in H1.
  - injection E as -> <-. by rewrite hasColon_app in H2.
  - injection E as <- E. destruct (IH b E) as [-> ->]. done.
Qed.

End StoreFacts.

(** X30. Local values do not interfere.  A value that a control stores
    with [setLocalValue] under a key without a colon is what
    [getLocalValue] returns for the same key while the current id prints
    the same, and it leaves what [getLocalValue] returns for any other
    key without a colon, or under a current id that prints differently,
    as it was; a key never stored gives the default. *)
Theorem local_values_do_not_interfere {V}
    (writer reader : UI.t) (key key' : string) (value defaultValue : V)
    (store : gmap string V) :
  hasColon key = false → hasColon key' = false →
  getLocalValue reader key' defaultValue (setLocalValue writer key value store) =
  if decide (templateString (UI.currentId reader) = templateString (UI.currentId writer)
             ∧ key' = key)
  then value
  else getLocalValue reader key' defaultValue store.
Proof.
  intros Hkey Hkey'. unfold getLocalValue, setLocalValue, getValue, setValue, localKey.
  case_decide as Hsame.
  - destruct Hsame as [-> ->]. by rewrite lookup_insert_eq.
  - rewrite lookup_insert_ne; [done|].
    intros E. apply Hsame. apply localKey_inj in E as [-> ->]; done.
Qed.

Lemma local_values_do_not_interfere_witness :
  let inA := UI.stateOf (UI.pushId (Str "a") (boxedUI [])) in
  let inB := UI.stateOf (UI.pushId (Str "b") (boxedUI [])) in
  getLocalValue inB "scroll" 0 (setLocalValue inA "scroll" 7 (∅ : gmap string Z)) = 0.
Proof.
  intros inA inB.
  rewrite (local_values_do_not_interfere inA inB "scroll" "scroll" 7 0 ∅) by done.
  reflexivity.
Defined.
